(** * Resume-Sorter: the document-processing core

    A shallow embedding of [utils/gemini_processor.py] (RateLimiter,
    ProcessingQueue, GeminiProcessor), of [components/filter.py] (the
    natural-language filter with its structured criteria and its
    keyword fallback) and of the collection loop of
    [components/processor.py], together with the properties its
    specification states about them and further properties the code
    shows.

    Conventions of the embedding
    - Python [str] is [string]; the text handled here is taken to be
      ASCII, so that [lower], [split] and [strip] act on single bytes.
    - Python values coming out of [json.loads] are the inductive [pyval];
      a [dict] is an association list in insertion order.
    - A raised exception is the [Raise] branch of [exc]; the stateful
      part of the processor (rate limiter, clock, model replies) is
      threaded through the monad [M].
    - Floating point delays are modelled by exact rationals ([Q]);
      [FloatLimiter] adds the rounding of the doubles, for the property
      that depends on it. *)

From Stdlib Require Import ZArith QArith Qminmax Qpower Qround String Ascii List DecimalString Lia Lqa.
From stdpp Require Import base gmap strings list.
Import ListNotations.
Local Open Scope string_scope.
Local Open Scope list_scope.
Local Open Scope Z_scope.
#[local] Set Default Proof Using "Type".

(* ================================================================= *)
(** ** Python strings *)

Module PyStr.

(** [len(s)] *)
Definition len (s : string) : Z := Z.of_nat (String.length s).

Fixpoint find_from (c : ascii) (s : string) (i : Z) : Z :=
  match s with
  | EmptyString => -1
  | String a s' => if Ascii.eqb a c then i else find_from c s' (i + 1)
  end.

(** [s.find(c)] for a one-character needle: first index, or -1. *)
Definition find (c : ascii) (s : string) : Z := find_from c s 0.

Fixpoint rfind_from (c : ascii) (s : string) (i last : Z) : Z :=
  match s with
  | EmptyString => last
  | String a s' => rfind_from c s' (i + 1) (if Ascii.eqb a c then i else last)
  end.

(** [s.rfind(c)]: last index, or -1. *)
Definition rfind (c : ascii) (s : string) : Z := rfind_from c s 0 (-1).

(** [s[a:b]] for [0 <= a]; an end beyond the string is clipped. *)
Definition slice (a b : Z) (s : string) : string :=
  String.substring (Z.to_nat a) (Z.to_nat (b - a)) s.

(** [s[:n]] *)
Definition take (n : nat) (s : string) : string := String.substring 0 n s.

(** [s[a:]] *)
Fixpoint drop (n : nat) (s : string) : string :=
  match n, s with
  | O, _ => s
  | S n', String _ s' => drop n' s'
  | S _, EmptyString => EmptyString
  end.

(** [sep.join(parts)] on strings. *)
Fixpoint join (sep : string) (parts : list string) : string :=
  match parts with
  | [] => ""
  | [p] => p
  | p :: rest => p +:+ sep +:+ join sep rest
  end.

Definition lower_char (a : ascii) : ascii :=
  let n := nat_of_ascii a in
  if ((65 <=? n) && (n <=? 90))%nat then ascii_of_nat (n + 32) else a.

(** [s.lower()] *)
Fixpoint lower (s : string) : string :=
  match s with
  | EmptyString => EmptyString
  | String a s' => String (lower_char a) (lower s')
  end.

(** The characters [str.isspace] accepts below 128. *)
Definition is_space (a : ascii) : bool :=
  let n := nat_of_ascii a in
  (((9 <=? n) && (n <=? 13)) || ((28 <=? n) && (n <=? 32)))%nat.

Fixpoint lstrip (s : string) : string :=
  match s with
  | String a s' => if is_space a then lstrip s' else s
  | EmptyString => EmptyString
  end.

Fixpoint rstrip (s : string) : string :=
  match s with
  | EmptyString => EmptyString
  | String a s' =>
      match rstrip s' with
      | EmptyString => if is_space a then EmptyString else String a EmptyString
      | r => String a r
      end
  end.

(** [s.strip()] *)
Definition strip (s : string) : string := rstrip (lstrip s).

(** [s.split()] without a separator: maximal runs of non-space
    characters; [cur] is the run being read, reversed. *)
Fixpoint split_ws_go (s : string) (cur : list ascii) : list string :=
  let flush := match cur with
               | [] => []
               | _ => [string_of_list_ascii (rev cur)]
               end in
  match s with
  | EmptyString => flush
  | String a s' =>
      if is_space a then flush ++ split_ws_go s' []
      else split_ws_go s' (a :: cur)
  end.

Definition split (s : string) : list string := split_ws_go s [].

(** [s.split(c)] with a one-character separator: empty pieces are kept. *)
Fixpoint split_on_go (c : ascii) (s : string) (cur : list ascii) : list string :=
  match s with
  | EmptyString => [string_of_list_ascii (rev cur)]
  | String a s' =>
      if Ascii.eqb a c then string_of_list_ascii (rev cur) :: split_on_go c s' []
      else split_on_go c s' (a :: cur)
  end.

Definition split_on (c : ascii) (s : string) : list string := split_on_go c s [].

(** [needle in s] *)
Fixpoint contains (needle s : string) : bool :=
  String.prefix needle s ||
  match s with
  | EmptyString => false
  | String _ s' => contains needle s'
  end.

(** [s.replace(a, b)] for one-character [a] and [b]. *)
Fixpoint replace_char (a b : ascii) (s : string) : string :=
  match s with
  | EmptyString => EmptyString
  | String c s' => String (if Ascii.eqb c a then b else c) (replace_char a b s')
  end.

(** [str(n)] for an integer. *)
Definition of_Z (n : Z) : string := NilEmpty.string_of_int (Z.to_int n).

End PyStr.

(* ================================================================= *)
(** ** Python values, dictionaries and exceptions *)

(** A Python [float]: a finite value is kept as the exact rational it
    denotes, which is all that [int()] looks at. *)
Inductive pyfloat :=
| FFinite (q : Q)
| FInf (negative : bool)
| FNaN.

(** What [json.loads] can return. *)
#[local] Set Warnings "-register-all".
Inductive pyval :=
| PNone
| PBool (b : bool)
| PInt (n : Z)
| PFloat (f : pyfloat)
| PStr (s : string)
| PList (l : list pyval)
| PDict (d : list (string * pyval)).

(** A [dict] with string keys, in insertion order. *)
Abbreviation pydict := (list (string * pyval)).

Inductive exn_class :=
| ValueError
| TypeError
| OverflowError
| KeyError
| OtherException.

(** An exception object; [exn_msg] is what [str(e)] gives. *)
Record pyexn := mk_exn { exn_cls : exn_class; exn_msg : string }.

(** The outcome of running a piece of Python: a value, or a raised
    exception. *)
Inductive exc (A : Type) :=
| Ok (a : A)
| Raise (e : pyexn).

Arguments Ok {A} a.
Arguments Raise {A} e.

Definition exc_bind {A B} (m : exc A) (k : A -> exc B) : exc B :=
  match m with
  | Ok a => k a
  | Raise e => Raise e
  end.

Notation "x <- m ;; k" := (exc_bind m (fun x => k))
  (at level 100, m at next level, right associativity).

Definition raise {A} (c : exn_class) (msg : string) : exc A :=
  Raise (mk_exn c msg).

(** [try: body  except Exception as e: handler(e)] *)
Definition try_except {A} (body : exc A) (handler : pyexn -> exc A) : exc A :=
  match body with
  | Ok a => Ok a
  | Raise e => handler e
  end.

Definition is_ok {A} (m : exc A) : bool :=
  match m with Ok _ => true | Raise _ => false end.

Fixpoint dict_get (k : string) (d : pydict) : option pyval :=
  match d with
  | [] => None
  | (k', v) :: d' => if String.eqb k k' then Some v else dict_get k d'
  end.

(** [k in d] *)
Definition dict_has (k : string) (d : pydict) : bool :=
  match dict_get k d with Some _ => true | None => false end.

(** [d[k] = v]: an existing key keeps its place, a new one goes last. *)
Fixpoint dict_set (k : string) (v : pyval) (d : pydict) : pydict :=
  match d with
  | [] => [(k, v)]
  | (k', v') :: d' =>
      if String.eqb k k' then (k, v) :: d' else (k', v') :: dict_set k v d'
  end.

Definition dict_keys (d : pydict) : list string := map fst d.

(** [isinstance(v, list)] *)
Definition is_list (v : pyval) : bool :=
  match v with PList _ => true | _ => false end.

(** *** [int(v)] *)

Definition is_digit (a : ascii) : bool :=
  let n := nat_of_ascii a in ((48 <=? n) && (n <=? 57))%nat.

Definition digit_val (a : ascii) : Z := Z.of_nat (nat_of_ascii a) - 48.

(** Decimal digits, with single underscores allowed between digits. *)
Fixpoint parse_digits (s : string) (acc : Z) (after_digit : bool) : option Z :=
  match s with
  | EmptyString => if after_digit then Some acc else None
  | String a s' =>
      if is_digit a then parse_digits s' (10 * acc + digit_val a) true
      else if Ascii.eqb a "_" && after_digit then parse_digits s' acc false
      else None
  end.

(** The blanks [int()] skips around a literal: the characters from tab
    to carriage return, and the space. The separators 0x1c to 0x1f,
    which [str.strip] removes, are not among them. *)
Definition is_int_space (a : ascii) : bool :=
  let n := nat_of_ascii a in
  (((9 <=? n) && (n <=? 13)) || (n =? 32))%nat.

Fixpoint skip_int_space (s : string) : string :=
  match s with
  | String a s' => if is_int_space a then skip_int_space s' else s
  | EmptyString => EmptyString
  end.

Fixpoint drop_trailing_int_space (s : string) : string :=
  match s with
  | EmptyString => EmptyString
  | String a s' =>
      match drop_trailing_int_space s' with
      | EmptyString => if is_int_space a then EmptyString else String a EmptyString
      | r => String a r
      end
  end.

Fixpoint count_digits (s : string) : Z :=
  match s with
  | EmptyString => 0
  | String a s' => (if is_digit a then 1 else 0) + count_digits s'
  end.

(** [sys.get_int_max_str_digits()]: the most digits [int()] reads from
    a string. The program leaves it at the default of the interpreter. *)
Definition max_str_digits : Z := 4300.

(** [int(s)] on a string: blanks around the literal, an optional sign,
    digits; [None] stands for the [ValueError] of a text that is no
    literal or that has more than [max_str_digits] digits. *)
Definition int_of_string (s : string) : option Z :=
  let literal := drop_trailing_int_space (skip_int_space s) in
  let digits := match literal with
                | String "+" r | String "-" r => r
                | t => t
                end in
  if max_str_digits <? count_digits digits then None
  else match literal with
       | String "+" r => parse_digits r 0 false
       | String "-" r => option_map Z.opp (parse_digits r 0 false)
       | t => parse_digits t 0 false
       end.

Definition py_int (v : pyval) : exc Z :=
  match v with
  | PInt n => Ok n
  | PBool b => Ok (if b then 1 else 0)
  | PFloat (FFinite q) => Ok (Z.quot (Qnum q) (Zpos (Qden q)))
  | PFloat (FInf _) => raise OverflowError "cannot convert float infinity to integer"
  | PFloat FNaN => raise ValueError "cannot convert float NaN to integer"
  | PStr s =>
      match int_of_string s with
      | Some n => Ok n
      | None => raise ValueError "invalid literal for int() with base 10"
      end
  | PNone | PList _ | PDict _ =>
      raise TypeError "int() argument must be a string, a bytes-like object or a real number"
  end.

(** *** [sep.join(l)] and string concatenation on values *)

Fixpoint strs_of (l : list pyval) : option (list string) :=
  match l with
  | [] => Some []
  | PStr s :: rest => option_map (cons s) (strs_of rest)
  | _ :: _ => None
  end.

(** [sep.join(l)]: every item has to be a [str]. *)
Definition py_join (sep : string) (l : list pyval) : exc string :=
  match strs_of l with
  | Some ss => Ok (PyStr.join sep ss)
  | None => raise TypeError "sequence item: expected str instance"
  end.

(** [s += v] for a string [s]: [v] has to be a [str]. *)
Definition str_add (s : string) (v : pyval) : exc string :=
  match v with
  | PStr t => Ok (s +:+ t)
  | _ => raise TypeError "can only concatenate str to str"
  end.

Definition nonempty (s : string) : bool :=
  match s with EmptyString => false | _ => true end.

Definition newline : string := String (ascii_of_nat 10) EmptyString.

(* ================================================================= *)
(** ** GeminiProcessor._parse_response *)

Section ResponseParser.

(** [json.loads] of the standard library: the decoded value, or the
    exception it raised. *)
Variable json_loads : string -> exc pyval.

(** [repr] of the values whose text is not fixed here (floats, lists
    and dicts), as [str()] and f-strings print them. *)
Variable py_repr : pyval -> string.

(** [str(v)], which is also what [f"{v}"] interpolates. *)
Definition py_str (v : pyval) : string :=
  match v with
  | PStr s => s
  | PInt n => PyStr.of_Z n
  | PBool true => "True"
  | PBool false => "False"
  | PNone => "None"
  | PFloat _ | PList _ | PDict _ => py_repr v
  end.

Definition required_fields : list string :=
  ["name"; "email"; "phone"; "location"; "experience";
   "skills"; "work_history"; "education"; "linkedin"; "github";
   "languages"; "certifications"].

Definition list_fields : list string :=
  ["work_history"; "education"; "skills"; "languages"; "certifications";
   "match_reasons"; "gap_analysis"].

(** One turn of the loop over [required_fields]. *)
Definition ensure_field (info : pydict) (field : string) : pydict :=
  if dict_has field info then info
  else if existsb (String.eqb field) list_fields then dict_set field (PList []) info
  else dict_set field (PStr "") info.

Definition ensure_required_fields (info : pydict) : pydict :=
  fold_left ensure_field required_fields info.

(** The [try: ... int(...) ... except (ValueError, TypeError)] block. *)
Definition coerce_experience (info : pydict) : exc pydict :=
  let converted :=
    match dict_get "experience" info with
    | None | Some PNone => Ok 0
    | Some v => py_int v
    end in
  match converted with
  | Ok n => Ok (dict_set "experience" (PInt n) info)
  | Raise e =>
      match exn_cls e with
      | ValueError | TypeError => Ok (dict_set "experience" (PInt 0) info)
      | _ => Raise e
      end
  end.

(** [if isinstance(info.get(field, []), list): info[field] = sep.join(...)] *)
Definition join_list_field (field sep : string) (info : pydict) : exc pydict :=
  match dict_get field info with
  | None => s <- py_join sep [] ;; Ok (dict_set field (PStr s) info)
  | Some (PList l) => s <- py_join sep l ;; Ok (dict_set field (PStr s) info)
  | Some _ => Ok info
  end.

Definition format_skills : pydict -> exc pydict := join_list_field "skills" ", ".

(** The body of the loop over the education entries, for a [dict] entry. *)
Definition format_education_entry (edu : pydict) : exc string :=
  edu_str <- match dict_get "degree" edu with
             | Some v => str_add "" v
             | None => Ok ""
             end ;;
  edu_str <- match dict_get "institution" edu with
             | Some v => str_add (if nonempty edu_str then edu_str +:+ " from " else edu_str) v
             | None => Ok edu_str
             end ;;
  let edu_str := match dict_get "year" edu with
                 | Some v => edu_str +:+ " (" +:+ py_str v +:+ ")"
                 | None => edu_str
                 end in
  let edu_str := match dict_get "field" edu with
                 | Some v => edu_str +:+ ", " +:+ py_str v
                 | None => edu_str
                 end in
  Ok edu_str.

(** [education_parts]: entries that are not dicts are passed over. *)
Fixpoint education_parts (l : list pyval) : exc (list string) :=
  match l with
  | [] => Ok []
  | PDict edu :: rest =>
      s <- format_education_entry edu ;;
      parts <- education_parts rest ;;
      Ok (s :: parts)
  | _ :: rest => education_parts rest
  end.

Definition format_education (info : pydict) : exc pydict :=
  match dict_get "education" info with
  | None => Ok (dict_set "education" (PStr (PyStr.join "; " [])) info)
  | Some (PList l) =>
      parts <- education_parts l ;;
      Ok (dict_set "education" (PStr (PyStr.join "; " parts)) info)
  | Some _ => Ok info
  end.

(** One language entry: a dict with a [name], or a plain string; anything
    else is passed over. A [name] that is not a string makes the
    concatenation or the final join raise [TypeError]. *)
Definition format_language_entry (lang : pyval) : exc (option string) :=
  match lang with
  | PDict d =>
      match dict_get "name" d with
      | Some v =>
          lang_str <- str_add "" v ;;
          Ok (Some match dict_get "proficiency" d with
                   | Some p => lang_str +:+ " (" +:+ py_str p +:+ ")"
                   | None => lang_str
                   end)
      | None => Ok None
      end
  | PStr s => Ok (Some s)
  | _ => Ok None
  end.

Fixpoint language_parts (l : list pyval) : exc (list string) :=
  match l with
  | [] => Ok []
  | lang :: rest =>
      p <- format_language_entry lang ;;
      parts <- language_parts rest ;;
      Ok (match p with Some s => s :: parts | None => parts end)
  end.

Definition format_languages (info : pydict) : exc pydict :=
  match dict_get "languages" info with
  | None => Ok (dict_set "languages" (PStr (PyStr.join ", " [])) info)
  | Some (PList l) =>
      parts <- language_parts l ;;
      Ok (dict_set "languages" (PStr (PyStr.join ", " parts)) info)
  | Some _ => Ok info
  end.

Definition format_certifications : pydict -> exc pydict :=
  join_list_field "certifications" ", ".

Definition format_job_entry (job : pydict) : exc string :=
  job_str <- match dict_get "position" job with
             | Some v => str_add "" v
             | None => Ok ""
             end ;;
  job_str <- match dict_get "company" job with
             | Some v => str_add (if nonempty job_str then job_str +:+ " at " else job_str) v
             | None => Ok job_str
             end ;;
  Ok match dict_get "dates" job with
     | Some v => job_str +:+ " (" +:+ py_str v +:+ ")"
     | None => job_str
     end.

Fixpoint work_history_parts (l : list pyval) : exc (list string) :=
  match l with
  | [] => Ok []
  | PDict job :: rest =>
      s <- format_job_entry job ;;
      parts <- work_history_parts rest ;;
      Ok (s :: parts)
  | _ :: rest => work_history_parts rest
  end.

(** [work_history] itself stays as it is; only the summary is added. *)
Definition add_work_history_summary (info : pydict) : exc pydict :=
  match dict_get "work_history" info with
  | Some (PList (job :: jobs)) =>
      parts <- work_history_parts (job :: jobs) ;;
      Ok (dict_set "work_history_summary" (PStr (PyStr.join "; " parts)) info)
  | _ => Ok (dict_set "work_history_summary" (PStr "") info)
  end.

Definition add_match_reasons_text (info : pydict) : exc pydict :=
  match dict_get "match_reasons" info with
  | Some (PList l) =>
      s <- py_join (newline +:+ "- ") l ;;
      Ok (dict_set "match_reasons_text" (PStr ("- " +:+ s)) info)
  | _ => Ok (dict_set "match_reasons_text" (PStr "") info)
  end.

Definition add_gap_analysis_text (info : pydict) : exc pydict :=
  match dict_get "gap_analysis" info with
  | Some (PList (g :: gs)) =>
      s <- py_join (newline +:+ "- ") (g :: gs) ;;
      Ok (dict_set "gap_analysis_text"
            (PStr ("Areas for improvement:" +:+ newline +:+ "- " +:+ s)) info)
  | _ => Ok (dict_set "gap_analysis_text" (PStr "No significant gaps identified.") info)
  end.

Definition ensure_match_score (info : pydict) : pydict :=
  if dict_has "match_score" info then info else dict_set "match_score" (PInt 0) info.

(** Everything after [json.loads], on the decoded dict. *)
Definition normalize (info : pydict) : exc pydict :=
  let info := ensure_required_fields info in
  info <- coerce_experience info ;;
  info <- format_skills info ;;
  info <- format_education info ;;
  info <- format_languages info ;;
  info <- format_certifications info ;;
  info <- add_work_history_summary info ;;
  info <- add_match_reasons_text info ;;
  info <- add_gap_analysis_text info ;;
  Ok (ensure_match_score info).

(** The decoded span starts with an opening brace, so [json.loads] can only
    hand back a dict; any other value would fail at the first item
    assignment, inside the same [try]. *)
Definition expect_dict (v : pyval) : exc pydict :=
  match v with
  | PDict d => Ok d
  | _ => raise TypeError "object does not support item assignment"
  end.

(** The [try] block of [_parse_response]. *)
Definition parse_body (response : string) : exc pydict :=
  let json_start := PyStr.find "{" response in
  let json_end := PyStr.rfind "}" response + 1 in
  if ((0 <=? json_start) && (json_start <? json_end))%Z then
    let json_str := PyStr.slice json_start json_end response in
    extracted_info <- json_loads json_str ;;
    info <- expect_dict extracted_info ;;
    normalize info
  else raise ValueError "No JSON object found in response".

(** The record of the [except] clause. *)
Definition fallback_record : pydict :=
  [("name", PStr "Unknown"); ("email", PStr ""); ("phone", PStr "");
   ("education", PStr ""); ("experience", PInt 0); ("skills", PStr "");
   ("location", PStr ""); ("linkedin", PStr ""); ("github", PStr "");
   ("languages", PStr ""); ("certifications", PStr "");
   ("work_history", PList []); ("work_history_summary", PStr "");
   ("match_score", PInt 0); ("match_reasons", PList []);
   ("match_reasons_text", PStr ""); ("gap_analysis", PList []);
   ("gap_analysis_text", PStr "No analysis available.")].

Definition _parse_response (response : string) : exc pydict :=
  try_except (parse_body response) (fun _ => Ok fallback_record).

End ResponseParser.

(* ================================================================= *)
(** ** A decoder for the examples

    [json.loads] itself stays a parameter of the development. To run the
    parser on concrete replies, this decoder reads the part of JSON the
    replies below are written in: objects, arrays, strings with the
    one-letter escapes (no [\u]), integers, [true], [false] and [null]. On such
    texts it returns what [json.loads] returns; anything else is
    reported as a decoding error. *)

Module JsonSubset.

Definition is_ws (a : ascii) : bool :=
  let n := nat_of_ascii a in
  ((n =? 32) || (n =? 9) || (n =? 10) || (n =? 13))%nat.

Fixpoint skip_ws (s : string) : string :=
  match s with
  | String a s' => if is_ws a then skip_ws s' else s
  | EmptyString => EmptyString
  end.

Definition dquote : ascii := ascii_of_nat 34.

Definition backslash : ascii := ascii_of_nat 92.

(** The character an escape letter stands for. *)
Definition unescape (c : ascii) : option ascii :=
  if Ascii.eqb c dquote || Ascii.eqb c backslash || Ascii.eqb c "/" then Some c
  else if Ascii.eqb c "n" then Some (ascii_of_nat 10)
  else if Ascii.eqb c "t" then Some (ascii_of_nat 9)
  else if Ascii.eqb c "r" then Some (ascii_of_nat 13)
  else if Ascii.eqb c "b" then Some (ascii_of_nat 8)
  else if Ascii.eqb c "f" then Some (ascii_of_nat 12)
  else None.

(** The characters of a string literal after its opening quote;
    [escaped] tells that the previous character was a backslash. *)
Fixpoint read_string (s : string) (escaped : bool) (acc : list ascii) : option (string * string) :=
  match s with
  | EmptyString => None
  | String a rest =>
      if escaped then
        match unescape a with
        | Some c => read_string rest false (c :: acc)
        | None => None
        end
      else if Ascii.eqb a dquote then Some (string_of_list_ascii (rev acc), rest)
      else if Ascii.eqb a backslash then read_string rest true acc
      else if (nat_of_ascii a <? 32)%nat then None
      else read_string rest false (a :: acc)
  end.

Fixpoint read_digits (s : string) (acc : Z) : Z * string :=
  match s with
  | String a s' => if is_digit a then read_digits s' (10 * acc + digit_val a) else (acc, s)
  | EmptyString => (acc, s)
  end.

(** An integer literal: no leading zeros, no fraction, no exponent. *)
Definition read_int (s : string) : option (Z * string) :=
  let '(negative, body) :=
    match s with
    | String "-" r => (true, r)
    | _ => (false, s)
    end in
  match body with
  | String a r =>
      if is_digit a then
        let '(n, rest) := read_digits body 0 in
        let leading_zero :=
          Ascii.eqb a "0" && match r with String b _ => is_digit b | EmptyString => false end in
        match rest with
        | String "." _ | String "e" _ | String "E" _ => None
        | _ => if leading_zero then None else Some (if negative then - n else n, rest)
        end
      else None
  | EmptyString => None
  end.

Fixpoint read_value (fuel : nat) (s : string) : option (pyval * string) :=
  match fuel with
  | O => None
  | S fuel' =>
      match skip_ws s with
      | String "{" rest =>
          match skip_ws rest with
          | String "}" rest' => Some (PDict [], rest')
          | _ => read_members fuel' rest []
          end
      | String "[" rest =>
          match skip_ws rest with
          | String "]" rest' => Some (PList [], rest')
          | _ => read_elements fuel' rest []
          end
      | String "t" (String "r" (String "u" (String "e" rest))) => Some (PBool true, rest)
      | String "f" (String "a" (String "l" (String "s" (String "e" rest)))) =>
          Some (PBool false, rest)
      | String "n" (String "u" (String "l" (String "l" rest))) => Some (PNone, rest)
      | String a rest as t =>
          if Ascii.eqb a dquote then
            match read_string rest false [] with
            | Some (str, rest') => Some (PStr str, rest')
            | None => None
            end
          else
            match read_int t with
            | Some (n, rest') => Some (PInt n, rest')
            | None => None
            end
      | EmptyString => None
      end
  end
with read_members (fuel : nat) (s : string) (acc : pydict) : option (pyval * string) :=
  match fuel with
  | O => None
  | S fuel' =>
      match skip_ws s with
      | String a rest =>
          if Ascii.eqb a dquote then
            match read_string rest false [] with
            | Some (key, rest1) =>
                match skip_ws rest1 with
                | String ":" rest2 =>
                    match read_value fuel' rest2 with
                    | Some (v, rest3) =>
                        let acc' := dict_set key v acc in
                        match skip_ws rest3 with
                        | String "," rest4 => read_members fuel' rest4 acc'
                        | String "}" rest4 => Some (PDict acc', rest4)
                        | _ => None
                        end
                    | None => None
                    end
                | _ => None
                end
            | None => None
            end
          else None
      | EmptyString => None
      end
  end
with read_elements (fuel : nat) (s : string) (acc : list pyval) : option (pyval * string) :=
  match fuel with
  | O => None
  | S fuel' =>
      match read_value fuel' s with
      | Some (v, rest) =>
          match skip_ws rest with
          | String "," rest' => read_elements fuel' rest' (acc ++ [v])
          | String "]" rest' => Some (PList (acc ++ [v]), rest')
          | _ => None
          end
      | None => None
      end
  end.

Definition loads (s : string) : exc pyval :=
  match read_value (S (String.length s)) s with
  | Some (v, rest) =>
      match skip_ws rest with
      | EmptyString => Ok v
      | _ => raise ValueError "Extra data"
      end
  | None => raise ValueError "Expecting value"
  end.

(** Floats, lists and dicts are printed by a placeholder: no example
    below interpolates one. *)
Definition repr (v : pyval) : string := "<repr>".

(** The replies of the examples are written with an apostrophe where
    the JSON text has a double quote. *)
Definition text (s : string) : string := PyStr.replace_char "'" dquote s.

End JsonSubset.

(* ================================================================= *)
(** ** Paths ([os.path] and [pathlib], POSIX flavour) *)

Module PyPath.

(** [os.path.basename(p)]: what follows the last slash. *)
Definition basename (p : string) : string := List.last (PyStr.split_on "/" p) "".

Definition all_dots (s : string) : bool :=
  forallb (Ascii.eqb ".") (list_ascii_of_string s).

(** [os.path.splitext(p)[0]]: the extension starts at the last dot,
    unless only dots come before it in the file name. *)
Definition splitext_root (p : string) : string :=
  let sep := PyStr.rfind "/" p in
  let dot := PyStr.rfind "." p in
  if ((sep <? dot) && negb (all_dots (PyStr.slice (sep + 1) dot p)))%Z
  then PyStr.take (Z.to_nat dot) p
  else p.

Definition is_component (c : string) : bool :=
  negb (String.eqb c "") && negb (String.eqb c ".").

(** [Path(p).name]: the last component, empty and [.] components dropped. *)
Definition name (p : string) : string :=
  List.last (List.filter is_component (PyStr.split_on "/" p)) "".

(** [Path(p).stem]: the name without its last suffix; a leading or a
    trailing dot starts no suffix. *)
Definition stem (p : string) : string :=
  let n := name p in
  let i := PyStr.rfind "." n in
  if ((0 <? i) && (i <? PyStr.len n - 1))%Z then PyStr.take (Z.to_nat i) n else n.

End PyPath.

(* ================================================================= *)
(** ** RateLimiter *)

Module RateLimiter.

(** The attributes set by [__init__] (the lock aside): [initial_delay]
    is only used to start [current_delay] and is not kept. *)
Record t := mk {
  current_delay : Q;
  max_delay : Q;
  backoff_factor : Q;
  last_request_time : Q
}.

(** [RateLimiter(initial_delay, max_delay, backoff_factor)] *)
Definition init (initial_delay max_delay backoff_factor : Q) : t :=
  {| current_delay := initial_delay;
     max_delay := max_delay;
     backoff_factor := backoff_factor;
     last_request_time := 0 |}.

(** [RateLimiter()] with the defaults of the signature. *)
Definition default : t := init 1 60 1.5.

(** [wait()] at clock reading [now]: the time slept, and the limiter
    stamped with the time after the sleep. *)
Definition wait (now : Q) (r : t) : Q * t :=
  let elapsed := (now - last_request_time r)%Q in
  let slept := if Qle_bool (current_delay r) elapsed
               then 0%Q else (current_delay r - elapsed)%Q in
  (slept,
   {| current_delay := current_delay r;
      max_delay := max_delay r;
      backoff_factor := backoff_factor r;
      last_request_time := (now + slept)%Q |}).

(** [success()] *)
Definition success (r : t) : t :=
  {| current_delay := Qmax (current_delay r / 1.2) 1;
     max_delay := max_delay r;
     backoff_factor := backoff_factor r;
     last_request_time := last_request_time r |}.

(** [failure()], given the value [random.uniform(0.8, 1.2)] drew:
    the new delay is returned together with the updated limiter. The
    product is the exact one; [FloatLimiter.failure] below rounds it. *)
Definition failure (jitter : Q) (r : t) : Q * t :=
  let d := Qmin (current_delay r * backoff_factor r * jitter) (max_delay r) in
  (d,
   {| current_delay := d;
      max_delay := max_delay r;
      backoff_factor := backoff_factor r;
      last_request_time := last_request_time r |}).

(** A call made on the limiter after its construction. *)
Inductive call :=
| Success
| Failure (jitter : Q).

Definition apply_call (r : t) (c : call) : t :=
  match c with
  | Success => success r
  | Failure jitter => snd (failure jitter r)
  end.

Definition apply_calls (r : t) (cs : list call) : t := fold_left apply_call cs r.

(** The jitter of every [failure()] lies in [[0.8, 1.2]]. *)
Definition jitter_in_range (c : call) : Prop :=
  match c with
  | Success => True
  | Failure jitter => (0.8 <= jitter /\ jitter <= 1.2)%Q
  end.

(** The invariant of the specification, for a limiter built from
    [initial_delay]. *)
Definition within (initial_delay : Q) (r : t) : Prop :=
  (initial_delay <= current_delay r /\ current_delay r <= max_delay r)%Q.

End RateLimiter.

(* ================================================================= *)
(** ** The delays in floating point

    [RateLimiter.failure] above multiplies exact rationals. The
    interpreter computes [current_delay * backoff_factor * jitter] on
    doubles, from left to right, and rounds each product; [round] is
    that rounding. *)

Module FloatLimiter.

Section Rounded.

Variable round : Q -> Q.

(** [failure()], each product rounded. *)
Definition failure (jitter : Q) (r : RateLimiter.t) : Q * RateLimiter.t :=
  let d := Qmin (round (round (RateLimiter.current_delay r * RateLimiter.backoff_factor r)
                        * jitter))
                (RateLimiter.max_delay r) in
  (d,
   {| RateLimiter.current_delay := d;
      RateLimiter.max_delay := RateLimiter.max_delay r;
      RateLimiter.backoff_factor := RateLimiter.backoff_factor r;
      RateLimiter.last_request_time := RateLimiter.last_request_time r |}).

(** One [failure()] for each jitter drawn, in a row. *)
Definition failures (r : RateLimiter.t) (jitters : list Q) : RateLimiter.t :=
  fold_left (fun r jitter => snd (failure jitter r)) jitters r.

End Rounded.

(** The unit roundoff of the doubles, [2^-53]. *)
Definition unit_roundoff : Q := 1 # 9007199254740992.

(** What the rounding to the nearest double is known to do between
    [lo] and [hi]: it moves a value by at most the fraction
    [unit_roundoff] of it. *)
Definition rounds_within (round : Q -> Q) (lo hi : Q) : Prop :=
  forall x : Q, (lo <= x)%Q -> (x <= hi)%Q ->
    ((1 - unit_roundoff) * x <= round x)%Q /\ (round x <= (1 + unit_roundoff) * x)%Q.

(** The integer nearest to [q], a tie going to the even one. *)
Definition nearest_even (q : Q) : Z :=
  let f := Qfloor q in
  match (q - inject_Z f ?= 1 # 2)%Q with
  | Lt => f
  | Gt => f + 1
  | Eq => if Z.even f then f else f + 1
  end.

(** The exponent [k] with [2^k <= x < 2^(k+1)], for a positive [x]. *)
Definition binade (x : Q) : Z :=
  let k := Z.log2 (Qnum x) - Z.log2 (Zpos (Qden x)) in
  if Qle_bool (2 ^ k) x then k else k - 1.

(** The double nearest to a positive [x], with its 53 significant
    bits; the exponent is not bounded, so this is the rounding of the
    interpreter between the smallest normal double and the largest
    double, where all the delays are. *)
Definition to_double (x : Q) : Q :=
  let ulp := (2 ^ (binade x - 52))%Q in
  (inject_Z (nearest_even (x / ulp)) * ulp)%Q.

End FloatLimiter.

(* ================================================================= *)
(** ** GeminiProcessor: the state it runs in *)

(** What the processor does to the outside, in order. *)
Inductive event :=
| EvWait (slept : Q)
| EvCall (prompt : string)
| EvSuccess
| EvFailure (new_delay : Q)
| EvSleep (seconds : Q).

(** The mutable state behind one [GeminiProcessor]: its rate limiter,
    the clock (moved by the sleeps only), how many times the model and
    the random generator were asked, and the events so far. *)
Record World := mk_world {
  rate_limiter : RateLimiter.t;
  clock : Q;
  model_calls : nat;
  jitter_draws : nat;
  events : list event
}.

Definition initial_world : World :=
  {| rate_limiter := RateLimiter.default; clock := 0;
     model_calls := 0; jitter_draws := 0; events := [] |}.

(** A method of the processor: it may raise, and it changes the world
    either way. *)
Definition M (A : Type) : Type := World -> exc A * World.

Definition M_ret {A} (a : A) : M A := fun w => (Ok a, w).

Definition M_raise {A} (c : exn_class) (msg : string) : M A :=
  fun w => (raise c msg, w).

Definition M_bind {A B} (m : M A) (k : A -> M B) : M B :=
  fun w =>
    match m w with
    | (Ok a, w') => k a w'
    | (Raise e, w') => (Raise e, w')
    end.

Notation "x <~ m ;; k" := (M_bind m (fun x => k))
  (at level 100, m at next level, right associativity).

(** [try: body  except Exception as e: handler(e)] around a method. *)
Definition M_try {A} (body : M A) (handler : pyexn -> M A) : M A :=
  fun w =>
    match body w with
    | (Ok a, w') => (Ok a, w')
    | (Raise e, w') => handler e w'
    end.

Definition M_lift {A} (r : exc A) : M A := fun w => (r, w).

Definition log (e : event) (w : World) : World :=
  {| rate_limiter := rate_limiter w; clock := clock w;
     model_calls := model_calls w; jitter_draws := jitter_draws w;
     events := events w ++ [e] |}.

(** [time.sleep(seconds)] *)
Definition sleep (seconds : Q) (w : World) : World :=
  log (EvSleep seconds)
    {| rate_limiter := rate_limiter w; clock := (clock w + seconds)%Q;
       model_calls := model_calls w; jitter_draws := jitter_draws w;
       events := events w |}.

(** [self.rate_limiter.wait()] *)
Definition limiter_wait (w : World) : World :=
  let '(slept, r) := RateLimiter.wait (clock w) (rate_limiter w) in
  log (EvWait slept)
    {| rate_limiter := r; clock := (clock w + slept)%Q;
       model_calls := model_calls w; jitter_draws := jitter_draws w;
       events := events w |}.

(** [self.rate_limiter.success()] *)
Definition limiter_success (w : World) : World :=
  log EvSuccess
    {| rate_limiter := RateLimiter.success (rate_limiter w); clock := clock w;
       model_calls := model_calls w; jitter_draws := jitter_draws w;
       events := events w |}.

Section GeminiProcessor.

(** The module-level flag set by the import of the client library. *)
Variable GEMINI_AVAILABLE : bool.

(** [utils.file_handler.get_text_from_file]: it reads the file with the
    PDF and DOCX libraries and returns a string in every case. *)
Variable get_text_from_file : string -> string.

(** The [k]-th call of [model.generate_content(prompt).text]: the reply,
    or the exception of the client library. *)
Variable generate_content : nat -> string -> exc string.

(** The [k]-th value drawn by [random.uniform(0.8, 1.2)]. *)
Variable uniform_jitter : nat -> Q.

(** The two prompt templates; the one with filters reads the caller's
    filter dict and raises when it has not the expected shape. *)
Variable _create_resume_parsing_prompt : string -> string -> string.
Variable _create_resume_parsing_prompt_with_filters : string -> pyval -> string -> exc string.

Variable json_loads : string -> exc pyval.
Variable py_repr : pyval -> string.

(** [self.rate_limiter.failure()] *)
Definition limiter_failure (w : World) : Q * World :=
  let k := jitter_draws w in
  let '(d, r) := RateLimiter.failure (uniform_jitter k) (rate_limiter w) in
  (d, log (EvFailure d)
        {| rate_limiter := r; clock := clock w;
           model_calls := model_calls w; jitter_draws := S k;
           events := events w |}).

Definition not_available : string := "Google Generative AI not available".

Definition _call_gemini (prompt : string) : M string :=
  fun w =>
    if negb GEMINI_AVAILABLE then (Ok not_available, w)
    else
      let k := model_calls w in
      let w' := log (EvCall prompt)
                  {| rate_limiter := rate_limiter w; clock := clock w;
                     model_calls := S k; jitter_draws := jitter_draws w;
                     events := events w |} in
      (try_except (generate_content k prompt)
         (fun e => raise OtherException ("Gemini API call failed: " +:+ exn_msg e)),
       w').

(** [str(last_exception)] *)
Definition str_of_last (last_exception : option pyexn) : string :=
  match last_exception with
  | Some e => exn_msg e
  | None => "None"
  end.

(** The [while attempts < max_retries] loop, by the number of attempts
    still allowed. *)
Fixpoint retry_loop (prompt : string) (max_retries : Z) (remaining : nat)
    (last_exception : option pyexn) : M string :=
  match remaining with
  | O =>
      M_raise OtherException
        ("Maximum retries (" +:+ PyStr.of_Z max_retries +:+ ") exceeded: "
           +:+ str_of_last last_exception)
  | S remaining' =>
      fun w =>
        match _call_gemini prompt (limiter_wait w) with
        | (Ok response, w') => (Ok response, limiter_success w')
        | (Raise e, w') =>
            let '(wait_time, w'') := limiter_failure w' in
            retry_loop prompt max_retries remaining' (Some e) (sleep wait_time w'')
        end
  end.

Definition _call_gemini_with_retry (prompt : string) (max_retries : Z) : M string :=
  if negb GEMINI_AVAILABLE then M_ret not_available
  else retry_loop prompt max_retries (Z.to_nat max_retries) None.

(** The default of the [max_retries] argument. *)
Definition default_max_retries : Z := 3.

(** The dict of the [except] clause of [analyze_document]. *)
Definition error_record (file_path msg : string) : pydict :=
  [("name", PStr ("Error: " +:+ PyStr.take 50 msg +:+ "..."));
   ("email", PStr ""); ("phone", PStr ""); ("education", PStr "");
   ("experience", PInt 0); ("skills", PStr ""); ("location", PStr "");
   ("filename", PStr (PyPath.basename file_path));
   ("file_path", PStr file_path);
   ("error", PStr msg)].

(** The dict of the [except] clause of [analyze_document_with_filters]. *)
Definition error_record_with_filters (file_path msg : string) : pydict :=
  [("name", PStr ("Error: " +:+ PyStr.take 50 msg +:+ "..."));
   ("email", PStr ""); ("phone", PStr ""); ("education", PStr "");
   ("experience", PInt 0); ("skills", PStr ""); ("location", PStr "");
   ("match_score", PInt 0);
   ("filename", PStr (PyPath.basename file_path));
   ("file_path", PStr file_path);
   ("error", PStr msg)].

Definition not_installed : string := "Google Generative AI package not installed".

(** The dicts returned when the client library is missing. *)
Definition unavailable_record (file_path : string) : pydict :=
  [("name", PStr "Error: Google Generative AI not available");
   ("email", PStr ""); ("phone", PStr ""); ("education", PStr "");
   ("experience", PInt 0); ("skills", PStr ""); ("location", PStr "");
   ("filename", PStr (PyPath.basename file_path));
   ("file_path", PStr file_path);
   ("error", PStr not_installed)].

Definition unavailable_record_with_filters (file_path : string) : pydict :=
  [("name", PStr "Error: Google Generative AI not available");
   ("email", PStr ""); ("phone", PStr ""); ("education", PStr "");
   ("experience", PInt 0); ("skills", PStr ""); ("location", PStr "");
   ("match_score", PInt 0);
   ("filename", PStr (PyPath.basename file_path));
   ("file_path", PStr file_path);
   ("error", PStr not_installed)].

Definition name_hint (file_path : string) : string :=
  PyStr.replace_char "-" " "
    (PyStr.replace_char "_" " " (PyPath.splitext_root (PyPath.basename file_path))).

(** [text[:30000]] when the text is longer than that. *)
Definition truncate_text (text : string) : string :=
  if (30000 <? PyStr.len text)%Z then PyStr.take (Z.to_nat 30000) text else text.

(** [not text or len(text) < 50] *)
Definition unreadable (text : string) : bool :=
  negb (nonempty text) || (PyStr.len text <? 50)%Z.

Definition add_file_info (file_path : string) (info : pydict) : pydict :=
  dict_set "file_path" (PStr file_path)
    (dict_set "filename" (PStr (PyPath.basename file_path)) info).

(** The [try] block of [analyze_document]. *)
Definition analyze_document_body (file_path : string) : M pydict :=
  let text := truncate_text (get_text_from_file file_path) in
  if unreadable text then
    M_raise ValueError
      ("Failed to extract meaningful text from " +:+ file_path
         +:+ ". Text length: " +:+ PyStr.of_Z (PyStr.len text))
  else
    let prompt := _create_resume_parsing_prompt text (name_hint file_path) in
    response <~ _call_gemini_with_retry prompt default_max_retries ;;
    extracted_info <~ M_lift (_parse_response json_loads py_repr response) ;;
    M_ret (add_file_info file_path extracted_info).

Definition analyze_document (file_path : string) : M pydict :=
  if negb GEMINI_AVAILABLE then M_ret (unavailable_record file_path)
  else M_try (analyze_document_body file_path)
         (fun e => M_ret (error_record file_path (exn_msg e))).

(** The [try] block of [analyze_document_with_filters]. *)
Definition analyze_document_with_filters_body (file_path : string) (user_filters : pyval)
    : M pydict :=
  let text := truncate_text (get_text_from_file file_path) in
  if unreadable text then
    M_raise ValueError ("Failed to extract meaningful text from " +:+ file_path +:+ ".")
  else
    prompt <~ M_lift (_create_resume_parsing_prompt_with_filters
                        text user_filters (name_hint file_path)) ;;
    response <~ _call_gemini_with_retry prompt default_max_retries ;;
    extracted_info <~ M_lift (_parse_response json_loads py_repr response) ;;
    M_ret (add_file_info file_path extracted_info).

Definition analyze_document_with_filters (file_path : string) (user_filters : pyval)
    : M pydict :=
  if negb GEMINI_AVAILABLE then M_ret (unavailable_record_with_filters file_path)
  else M_try (analyze_document_with_filters_body file_path user_filters)
         (fun e => M_ret (error_record_with_filters file_path (exn_msg e))).

End GeminiProcessor.

(* ================================================================= *)
(** ** ProcessingQueue *)

Inductive status :=
| Queued
| Processing
| Completed
| Failed
| Unknown.

(** One value of [self.results]: [{"status": .., "data": .., "error": ..}]. *)
Record entry := mk_entry {
  entry_status : status;
  entry_data : option pydict;
  entry_error : option string
}.

(** One item of [self.queue]: [(task_id, file_path, user_filters)]. *)
Record task := mk_task {
  task_id : string;
  task_path : string;
  task_filters : pyval
}.

Record ProcessingQueue := mk_queue {
  queue : list task;
  results : gmap string entry;
  processing : bool
}.

(** [ProcessingQueue(processor)] *)
Definition empty_queue : ProcessingQueue :=
  {| queue := []; results := ∅; processing := false |}.

(** The truth value of a Python object, as [if user_filters:] takes it. *)
Definition py_truthy (v : pyval) : bool :=
  match v with
  | PNone => false
  | PBool b => b
  | PInt n => negb (n =? 0)%Z
  | PFloat (FFinite q) => negb (Qeq_bool q 0)
  | PFloat _ => true
  | PStr s => nonempty s
  | PList l => match l with [] => false | _ => true end
  | PDict d => match d with [] => false | _ => true end
  end.

Definition queued_entry : entry :=
  {| entry_status := Queued; entry_data := None; entry_error := None |}.

(** [self.queue.put((task_id, file_path, user_filters))] *)
Definition queue_put (t : task) (q : ProcessingQueue) : ProcessingQueue :=
  {| queue := queue q ++ [t]; results := results q; processing := processing q |}.

(** [self.results[task_id] = {"status": "queued", "data": None, "error": None}] *)
Definition record_queued (id : string) (q : ProcessingQueue) : ProcessingQueue :=
  {| queue := queue q; results := <[id := queued_entry]> (results q);
     processing := processing q |}.

(** [start_processing()]: the flag is set and a worker thread is started
    when none is running; the boolean tells whether one was started. *)
Definition start_processing (q : ProcessingQueue) : ProcessingQueue * bool :=
  if negb (processing q)
  then ({| queue := queue q; results := results q; processing := true |}, true)
  else (q, false).

(** [add_task(file_path, user_filters)], run without interruption: the
    task id, the queue afterwards, and whether a worker was started. *)
Definition add_task (file_path : string) (user_filters : pyval) (q : ProcessingQueue)
    : string * ProcessingQueue * bool :=
  let id := PyPath.stem file_path in
  let q := queue_put (mk_task id file_path user_filters) q in
  let q := record_queued id q in
  let '(q, started) := start_processing q in
  (id, q, started).

(** [get_result(task_id)] *)
Definition get_result (id : string) (q : ProcessingQueue) : entry :=
  default {| entry_status := Unknown; entry_data := None; entry_error := None |}
    (results q !! id).

(** [get_all_results()]: the data of the completed tasks that have some. *)
Definition get_all_results (q : ProcessingQueue) : gmap string pydict :=
  omap (fun e => match entry_status e with
                 | Completed => entry_data e
                 | _ => None
                 end) (results q).

(** [is_queue_empty()] *)
Definition is_queue_empty (q : ProcessingQueue) : bool :=
  match queue q with
  | [] => negb (processing q)
  | _ => false
  end.

(** [get_all_task_statuses()] *)
Definition get_all_task_statuses (q : ProcessingQueue) : gmap string status :=
  entry_status <$> results q.

(** [self.results[task_id]["status"] = "processing"]: the entry is
    changed in place; a missing key raises [KeyError]. *)
Definition mark_processing (id : string) (q : ProcessingQueue) : option ProcessingQueue :=
  match results q !! id with
  | Some e =>
      Some {| queue := queue q;
              results := <[id := {| entry_status := Processing;
                                    entry_data := entry_data e;
                                    entry_error := entry_error e |}]> (results q);
              processing := processing q |}
  | None => None
  end.

(** The entry written after the analysis: [completed] with the record,
    or [failed] with [str(e)]. *)
Definition outcome_entry (r : exc pydict) : entry :=
  match r with
  | Ok d => {| entry_status := Completed; entry_data := Some d; entry_error := None |}
  | Raise e => {| entry_status := Failed; entry_data := None; entry_error := Some (exn_msg e) |}
  end.

Definition store_outcome (id : string) (r : exc pydict) (q : ProcessingQueue) : ProcessingQueue :=
  {| queue := queue q; results := <[id := outcome_entry r]> (results q);
     processing := processing q |}.

(** [self.processing = False] *)
Definition clear_processing (q : ProcessingQueue) : ProcessingQueue :=
  {| queue := queue q; results := results q; processing := false |}.

Section Threads.

(** The processor behind the queue: any object with the two methods,
    acting on a state [W] of its own. *)
Variable W : Type.
Variable processor_analyze : string -> W -> exc pydict * W.
Variable processor_analyze_with_filters : string -> pyval -> W -> exc pydict * W.

(** The call made inside the [try] of [_process_queue]. *)
Definition run_task (t : task) (w : W) : exc pydict * W :=
  if py_truthy (task_filters t)
  then processor_analyze_with_filters (task_path t) (task_filters t) w
  else processor_analyze (task_path t) w.

(** [_process_queue()] run alone: the queue is drained in order. A
    task whose id has no entry stops the thread with [KeyError], the
    flag still set. *)
Fixpoint process_tasks (ts : list task) (q : ProcessingQueue) (w : W)
    : ProcessingQueue * W :=
  match ts with
  | [] => (clear_processing q, w)
  | t :: rest =>
      let q := {| queue := rest; results := results q; processing := processing q |} in
      match mark_processing (task_id t) q with
      | None => (q, w)
      | Some q =>
          let '(r, w) := run_task t w in
          process_tasks rest (store_outcome (task_id t) r q) w
      end
  end.

Definition _process_queue (q : ProcessingQueue) (w : W) : ProcessingQueue * W :=
  process_tasks (queue q) q w.

(** Where the thread calling [add_task] stands. *)
Inductive caller_pc :=
| CallerIdle
| CallerPut (t : task)
| CallerRecorded (t : task).

(** Where a worker thread stands in [_process_queue]. *)
Inductive worker_pc :=
| AtLoopHead
| Dequeued (t : task)
| Analyzing (t : task)
| Leaving
| Exited
| Crashed.

(** The queue, the processor's state, the calling thread and every
    worker thread started so far. *)
Record System := mk_system {
  sys_queue : ProcessingQueue;
  sys_world : W;
  sys_caller : caller_pc;
  sys_workers : list worker_pc
}.

Definition initial_system (w : W) : System :=
  {| sys_queue := empty_queue; sys_world := w;
     sys_caller := CallerIdle; sys_workers := [] |}.

(** One statement of one thread. *)
Inductive label :=
| CallAddTask (file_path : string) (user_filters : pyval)
| CallRecord
| CallStart
| WorkerGet (i : nat)
| WorkerMark (i : nat)
| WorkerFinish (i : nat)
| WorkerLeave (i : nat)
| WorkerExit (i : nat).

Definition set_worker (i : nat) (pc : worker_pc) (s : System) (q : ProcessingQueue) (w : W)
    : System :=
  {| sys_queue := q; sys_world := w; sys_caller := sys_caller s;
     sys_workers := <[i := pc]> (sys_workers s) |}.

(** The effect of a statement, or [None] when the thread is not at it. *)
Definition step (s : System) (l : label) : option System :=
  let q := sys_queue s in
  match l with
  | CallAddTask file_path user_filters =>
      match sys_caller s with
      | CallerIdle =>
          let t := mk_task (PyPath.stem file_path) file_path user_filters in
          Some {| sys_queue := queue_put t q; sys_world := sys_world s;
                  sys_caller := CallerPut t; sys_workers := sys_workers s |}
      | _ => None
      end
  | CallRecord =>
      match sys_caller s with
      | CallerPut t =>
          Some {| sys_queue := record_queued (task_id t) q; sys_world := sys_world s;
                  sys_caller := CallerRecorded t; sys_workers := sys_workers s |}
      | _ => None
      end
  | CallStart =>
      match sys_caller s with
      | CallerRecorded t =>
          let '(q', started) := start_processing q in
          Some {| sys_queue := q'; sys_world := sys_world s;
                  sys_caller := CallerIdle;
                  sys_workers := if started then sys_workers s ++ [AtLoopHead]
                                 else sys_workers s |}
      | _ => None
      end
  | WorkerGet i =>
      match sys_workers s !! i, queue q with
      | Some AtLoopHead, t :: rest =>
          Some (set_worker i (Dequeued t) s
                  {| queue := rest; results := results q; processing := processing q |}
                  (sys_world s))
      | _, _ => None
      end
  | WorkerMark i =>
      match sys_workers s !! i with
      | Some (Dequeued t) =>
          match mark_processing (task_id t) q with
          | Some q' => Some (set_worker i (Analyzing t) s q' (sys_world s))
          | None => Some (set_worker i Crashed s q (sys_world s))
          end
      | _ => None
      end
  | WorkerFinish i =>
      match sys_workers s !! i with
      | Some (Analyzing t) =>
          let '(r, w) := run_task t (sys_world s) in
          Some (set_worker i AtLoopHead s (store_outcome (task_id t) r q) w)
      | _ => None
      end
  | WorkerLeave i =>
      match sys_workers s !! i, queue q with
      | Some AtLoopHead, [] => Some (set_worker i Leaving s q (sys_world s))
      | _, _ => None
      end
  | WorkerExit i =>
      match sys_workers s !! i with
      | Some Leaving => Some (set_worker i Exited s (clear_processing q) (sys_world s))
      | _ => None
      end
  end.

(** A schedule: the statements in the order they run. *)
Fixpoint run (s : System) (ls : list label) : option System :=
  match ls with
  | [] => Some s
  | l :: rest =>
      match step s l with
      | Some s' => run s' rest
      | None => None
      end
  end.

(** The stored entry of a task id, if any. *)
Definition entry_of (s : System) (id : string) : option entry :=
  results (sys_queue s) !! id.

(** The file stems handed to [add_task] along a schedule. *)
Definition added_ids (ls : list label) : list string :=
  omap (fun l => match l with
                 | CallAddTask file_path _ => Some (PyPath.stem file_path)
                 | _ => None
                 end) ls.

End Threads.

(** The only moves of an entry the specification allows: none, the
    first enqueue, queued to processing, processing to a final state. *)
Inductive forward : option entry -> option entry -> Prop :=
| forward_same o : forward o o
| forward_enqueue e :
    entry_status e = Queued -> forward None (Some e)
| forward_start e e' :
    entry_status e = Queued -> entry_status e' = Processing ->
    forward (Some e) (Some e')
| forward_finish e e' :
    entry_status e = Processing ->
    entry_status e' = Completed \/ entry_status e' = Failed ->
    forward (Some e) (Some e').

(* ================================================================= *)
(** ** components/filter.py *)

Section NLQueryFilter.

(** [processor._call_gemini_with_retry(prompt)] of the processor handed
    to the filter. *)
Variable call_gemini_with_retry : string -> M string.

Variable json_loads : string -> exc pyval.

(** [str(resume)] is the [repr] of the record. *)
Variable py_repr : pyval -> string.

(** The prompt template of [process_nlp_query]. *)
Variable nlp_query_prompt : string -> string.

(** [matches_filters(resume, filters)]: the verdict of the structured
    criteria on one record, or the exception raised on criteria of an
    unexpected shape. What it decides does not matter below. *)
Variable matches_filters : pydict -> pyval -> exc bool.

(** The criteria built by hand when the reply holds no JSON. *)
Definition degraded_filters (query : string) : pyval :=
  PDict [("skills", PList (map (fun kw => PStr (PyStr.strip kw)) (PyStr.split_on "," query)));
         ("experience_years", PInt 0);
         ("education", PNone);
         ("job_titles", PList []);
         ("location", PNone);
         ("keywords", PList [PStr query])].

Definition process_nlp_query (query : string) : M pyval :=
  M_try
    (result <~ call_gemini_with_retry (nlp_query_prompt query) ;;
     let result := PyStr.strip result in
     let json_start := PyStr.find "{" result in
     let json_end := PyStr.rfind "}" result in
     if ((0 <=? json_start) && (json_start <? json_end))%Z then
       M_lift (json_loads (PyStr.slice json_start (json_end + 1) result))
     else M_ret (degraded_filters query))
    (fun _ => M_ret (degraded_filters query)).

(** The loop over the resumes with [matches_filters]. *)
Fixpoint structured_pass (filters : pyval) (resumes : list pydict) : exc (list pydict) :=
  match resumes with
  | [] => Ok []
  | resume :: rest =>
      keep <- matches_filters resume filters ;;
      kept <- structured_pass filters rest ;;
      Ok (if keep then resume :: kept else kept)
  end.

(** [[kw.strip().lower() for kw in query.split() if len(kw.strip()) > n]] *)
Definition keywords_longer_than (n : Z) (query : string) : list string :=
  map (fun kw => PyStr.lower (PyStr.strip kw))
    (List.filter (fun kw => (n <? PyStr.len (PyStr.strip kw))%Z) (PyStr.split query)).

(** The keywords [simple_keyword_filter] searches for. *)
Definition keywords (query : string) : list string :=
  match keywords_longer_than 2 query with
  | [] => keywords_longer_than 0 query
  | kws => kws
  end.

(** [any(keyword in str(resume).lower() for keyword in keywords)] *)
Definition keyword_match (kws : list string) (resume : pydict) : bool :=
  existsb (fun keyword => PyStr.contains keyword (PyStr.lower (py_repr (PDict resume)))) kws.

Definition simple_keyword_filter (query : string) (resumes : list pydict) : list pydict :=
  match keywords query with
  | [] => resumes
  | kws => List.filter (keyword_match kws) resumes
  end.

Definition is_empty_list {A} (l : list A) : bool :=
  match l with [] => true | _ => false end.

Definition filter_resumes_with_nlp (query : string) (resumes : list pydict)
    : M (list pydict) :=
  if negb (nonempty query) || is_empty_list resumes then M_ret resumes
  else
    M_try
      (filters <~ process_nlp_query query ;;
       filtered_resumes <~ M_lift (structured_pass filters resumes) ;;
       M_ret (if is_empty_list filtered_resumes
              then simple_keyword_filter query resumes
              else filtered_resumes))
      (fun _ => M_ret (simple_keyword_filter query resumes)).

(** The outcome of the structured stage alone: the criteria obtained
    for the query, applied to every resume. *)
Definition structured_filtering (query : string) (resumes : list pydict) (w : World)
    : exc (list pydict) :=
  filters <- fst (process_nlp_query query w) ;;
  structured_pass filters resumes.


End NLQueryFilter.

(** The span [response[json_start:json_end]] when the test of
    [_parse_response] finds one. *)
Definition json_span (response : string) : option string :=
  let json_start := PyStr.find "{" response in
  let json_end := PyStr.rfind "}" response + 1 in
  if ((0 <=? json_start) && (json_start <? json_end))%Z
  then Some (PyStr.slice json_start json_end response)
  else None.

(** The decoded [experience] is absent, or [int()] rejects it. *)
Definition experience_not_numeric (info : pydict) : Prop :=
  match dict_get "experience" info with
  | None => True
  | Some v => is_ok (py_int v) = false
  end.

(** The value a missing required field is given before the flattening. *)
Definition default_of (field : string) : pyval :=
  if existsb (String.eqb field) list_fields then PList [] else PStr "".

(** *** The decoded replies whose normalization goes through *)

Definition is_str (v : pyval) : bool :=
  match v with PStr _ => true | _ => false end.

(** [k] is absent from [d], or holds a string. *)
Definition str_if_present (k : string) (d : pydict) : bool :=
  match dict_get k d with Some v => is_str v | None => true end.

(** The entries that are dicts hold strings under [keys], where they
    have them. *)
Definition entries_joinable (keys : list string) (l : list pyval) : bool :=
  forallb (fun entry =>
             match entry with
             | PDict d => forallb (fun k => str_if_present k d) keys
             | _ => true
             end) l.

(** [check] accepts the list under [field]; a field that is absent or
    holds no list passes. *)
Definition list_field_passes (check : list pyval -> bool) (field : string)
    (info : pydict) : bool :=
  match dict_get field info with
  | Some (PList l) => check l
  | _ => true
  end.

(** [experience] is not an infinite float, the one value on which
    [int()] raises something else than [ValueError] or [TypeError]. *)
Definition experience_finite (info : pydict) : bool :=
  match dict_get "experience" info with
  | Some (PFloat (FInf _)) => false
  | _ => true
  end.

(** The decoded objects that every step of the normalization accepts:
    the lists that are joined hold strings only, and the parts of an
    entry that are concatenated are strings. *)
Definition normalizable (info : pydict) : bool :=
  experience_finite info &&
  list_field_passes (forallb is_str) "skills" info &&
  list_field_passes (entries_joinable ["degree"; "institution"]) "education" info &&
  list_field_passes (entries_joinable ["name"]) "languages" info &&
  list_field_passes (forallb is_str) "certifications" info &&
  list_field_passes (entries_joinable ["position"; "company"]) "work_history" info &&
  list_field_passes (forallb is_str) "match_reasons" info &&
  list_field_passes (forallb is_str) "gap_analysis" info.

(* ================================================================= *)
(** ** components/filter.py: matches_filters *)

(** [a < b] on floats: every comparison with NaN is false. *)
Definition float_lt (a b : pyfloat) : bool :=
  match a, b with
  | FNaN, _ | _, FNaN => false
  | FFinite x, FFinite y => negb (Qle_bool y x)
  | FInf true, FInf true => false
  | FInf true, _ => true
  | FFinite _, FInf negative => negb negative
  | FInf false, _ => false
  end.

(** [for item in v]: the items of a list, the characters of a string,
    the keys of a dict; other values are not iterable. *)
Definition py_iter (v : pyval) : exc (list pyval) :=
  match v with
  | PList l => Ok l
  | PStr s => Ok (map (fun a => PStr (String a EmptyString)) (list_ascii_of_string s))
  | PDict d => Ok (map (fun kv => PStr (fst kv)) d)
  | PNone | PBool _ | PInt _ | PFloat _ => raise TypeError "object is not iterable"
  end.

(** [v.lower() in text]: only a [str] has the method. *)
Definition lower_in (text : string) (v : pyval) : exc bool :=
  match v with
  | PStr s => Ok (PyStr.contains (PyStr.lower s) text)
  | _ => raise OtherException "object has no attribute 'lower'"
  end.

(** [any(item.lower() in text for item in items)]: the items after the
    first hit are not looked at. *)
Fixpoint any_lower_in (text : string) (items : list pyval) : exc bool :=
  match items with
  | [] => Ok false
  | item :: rest =>
      hit <- lower_in text item ;;
      if hit then Ok true else any_lower_in text rest
  end.

(** Two tests in a row: the second is run when the first has passed. *)
Definition and_then (first second : exc bool) : exc bool :=
  match first with
  | Ok true => second
  | _ => first
  end.

Section StructuredCriteria.

(** [str(resume)] is the [repr] of the record. *)
Variable py_repr : pyval -> string.

(** [float(s)] on a string: the value, or [None] where Python raises
    [ValueError]. *)
Variable float_of_str : string -> option pyfloat.

(** [float(n)] on an integer beyond 2^53 in size: the nearest double,
    or [OverflowError]. *)
Variable float_of_big_int : Z -> exc pyfloat.

(** [float(v)] *)
Definition py_float (v : pyval) : exc pyfloat :=
  match v with
  | PFloat f => Ok f
  | PInt n =>
      if (Z.abs n <=? 2 ^ 53)%Z then Ok (FFinite (inject_Z n)) else float_of_big_int n
  | PBool b => Ok (FFinite (if b then 1 else 0))
  | PStr s =>
      match float_of_str s with
      | Some f => Ok f
      | None => raise ValueError "could not convert string to float"
      end
  | PNone | PList _ | PDict _ =>
      raise TypeError "float() argument must be a string or a real number"
  end.

(** [filters.get(key)] *)
Definition criterion (key : string) (filters : pydict) : pyval :=
  match dict_get key filters with
  | Some v => v
  | None => PNone
  end.

(** The test on [skills], [job_titles] and [keywords]: passed when the
    criterion is falsy or one of its items occurs in the text. *)
Definition any_item_occurs (text : string) (v : pyval) : exc bool :=
  if py_truthy v then items <- py_iter v ;; any_lower_in text items else Ok true.

(** The test on [education] and [location]. *)
Definition text_occurs (text : string) (v : pyval) : exc bool :=
  if py_truthy v then lower_in text v else Ok true.

(** The test on [experience_years]: the record's [years_of_experience]
    (0 when it has none) against the criterion, both through [float];
    when that raises [ValueError] or [TypeError], the criterion followed
    by a plus sign is searched in the text. *)
Definition experience_suffices (resume : pydict) (text : string) (v : pyval) : exc bool :=
  if py_truthy v then
    let experience := match dict_get "years_of_experience" resume with
                      | Some x => x
                      | None => PInt 0
                      end in
    match (have <- py_float experience ;; need <- py_float v ;; Ok (float_lt have need)) with
    | Ok too_low => Ok (negb too_low)
    | Raise e =>
        match exn_cls e with
        | ValueError | TypeError => Ok (PyStr.contains (py_str py_repr v +:+ "+") text)
        | _ => Raise e
        end
    end
  else Ok true.

Definition matches_filters (resume : pydict) (filters : pyval) : exc bool :=
  match filters with
  | PDict f =>
      let resume_text := PyStr.lower (py_repr (PDict resume)) in
      and_then (any_item_occurs resume_text (criterion "skills" f))
        (and_then (experience_suffices resume resume_text (criterion "experience_years" f))
           (and_then (text_occurs resume_text (criterion "education" f))
              (and_then (any_item_occurs resume_text (criterion "job_titles" f))
                 (and_then (text_occurs resume_text (criterion "location" f))
                    (any_item_occurs resume_text (criterion "keywords" f))))))
  | _ => raise OtherException "object has no attribute 'get'"
  end.

End StructuredCriteria.

(** The records whose lowercased text holds the whole lowercased query. *)
Definition phrase_search (py_repr : pyval -> string) (query : string)
    (resumes : list pydict) : list pydict :=
  List.filter
    (fun resume => PyStr.contains (PyStr.lower query) (PyStr.lower (py_repr (PDict resume))))
    resumes.

(* ================================================================= *)
(** ** components/processor.py: the collection loop of process_resumes *)

(** The [status] of a file in [st.session_state.processing_files]:
    ["queued"], ["complete"] or ["error"]. *)
Inductive file_status :=
| FileQueued
| FileComplete
| FileError.

#[local] Instance file_status_eq_dec : EqDecision file_status.
Proof. solve_decision. Defined.

(** One value of [processing_files]; [fs_error] is the key [error],
    once it has been assigned. *)
Record file_state := mk_file_state {
  fs_path : string;
  fs_name : string;
  fs_status : file_status;
  fs_error : option (option string)
}.

(** The part of [st.session_state] the loop works on (the progress
    display aside). *)
Record Session := mk_session {
  processing_files : gmap string file_state;
  resume_data : list pydict
}.

(** [processing_files[task_id] = {"file_path": .., "file_name": .., "status": "queued"}],
    after the file was enqueued. *)
Definition register (file_path task_id : string) (s : Session) : Session :=
  {| processing_files :=
       <[task_id := {| fs_path := file_path; fs_name := PyPath.basename file_path;
                       fs_status := FileQueued; fs_error := None |}]>
         (processing_files s);
     resume_data := resume_data s |}.

(** What [if result["data"]: resume_data.append(result["data"])] adds:
    [None] and the empty dict are falsy. *)
Definition data_to_append (result : entry) : list pydict :=
  match entry_data result with
  | Some (field :: fields) => [field :: fields]
  | _ => []
  end.

(** The body of [for task_id in task_ids], on the entry
    [get_queued_result(task_id)] returned; an id missing from
    [processing_files] raises [KeyError] ([None]). *)
Definition collect (task_id : string) (result : entry) (s : Session) : option Session :=
  match entry_status result with
  | Completed =>
      match processing_files s !! task_id with
      | Some f =>
          match fs_status f with
          | FileComplete => Some s
          | _ =>
              Some {| processing_files :=
                        <[task_id := {| fs_path := fs_path f; fs_name := fs_name f;
                                        fs_status := FileComplete;
                                        fs_error := fs_error f |}]>
                          (processing_files s);
                      resume_data := resume_data s ++ data_to_append result |}
          end
      | None => None
      end
  | Failed =>
      match processing_files s !! task_id with
      | Some f =>
          Some {| processing_files :=
                    <[task_id := {| fs_path := fs_path f; fs_name := fs_name f;
                                    fs_status := FileError;
                                    fs_error := Some (entry_error result) |}]>
                      (processing_files s);
                  resume_data := resume_data s |}
      | None => None
      end
  | _ => Some s
  end.

(** The polls of the loop in the order they are made, each with the
    entry it was answered with. *)
Fixpoint collect_all (polls : list (string * entry)) (s : Session) : option Session :=
  match polls with
  | [] => Some s
  | (task_id, result) :: rest =>
      match collect task_id result s with
      | Some s' => collect_all rest s'
      | None => None
      end
  end.

(** [status in ["complete", "error"]] *)
Definition file_done (f : file_state) : bool :=
  match fs_status f with
  | FileQueued => false
  | FileComplete | FileError => true
  end.

(** [all(processing_files[task_id]["status"] in ["complete", "error"] for task_id in task_ids)] *)
Fixpoint batch_complete (task_ids : list string) (s : Session) : option bool :=
  match task_ids with
  | [] => Some true
  | task_id :: rest =>
      match processing_files s !! task_id with
      | Some f => if file_done f then batch_complete rest s else Some false
      | None => None
      end
  end.

(* ================================================================= *)
(** ** A concrete environment for the examples *)

Module Demo.

(** The reader: one empty file, one short file, and a readable text
    for every other path. *)
Definition get_text (file_path : string) : string :=
  if String.eqb file_path "data/uploads/empty.pdf" then ""
  else if String.eqb file_path "data/uploads/scan.pdf" then "page 1"
  else "Ada Lovelace. Analyst and programmer. London. Skills: Go, Rust. 5 years.".

Definition quota_error : pyexn := mk_exn OtherException "429 quota exceeded".

(** A model that fails twice and then answers. *)
Definition flaky_model (k : nat) (prompt : string) : exc string :=
  match k with
  | 0%nat | 1%nat => Raise quota_error
  | _ => Ok (JsonSubset.text "{'name': 'Ada Lovelace', 'experience': 5, 'skills': ['Go','Rust']}")
  end.

(** A model that is never reachable. *)
Definition dead_model (k : nat) (prompt : string) : exc string :=
  Raise (mk_exn OtherException ("timeout on call " +:+ PyStr.of_Z (Z.of_nat k))).

Definition jitter (k : nat) : Q := 1.

Definition prompt (resume_text name_hint : string) : string :=
  "Extract the resume of " +:+ name_hint +:+ ": " +:+ resume_text.

Definition prompt_with_filters (resume_text : string) (user_filters : pyval)
    (name_hint : string) : exc string :=
  match user_filters with
  | PDict _ => Ok ("Score the resume of " +:+ name_hint +:+ ": " +:+ resume_text)
  | _ => raise OtherException "'list' object has no attribute 'get'"
  end.

(** A processor over this environment, as the queue holds it. *)
Definition analyze : string -> World -> exc pydict * World :=
  analyze_document true get_text flaky_model jitter prompt JsonSubset.loads JsonSubset.repr.

Definition analyze_with_filters : string -> pyval -> World -> exc pydict * World :=
  analyze_document_with_filters true get_text flaky_model jitter prompt_with_filters
    JsonSubset.loads JsonSubset.repr.

(** For the filter: a stand-in for [repr] that prints the keys and the
    strings of a record, and structured criteria that keep nothing. *)
Definition repr_record (v : pyval) : string :=
  match v with
  | PDict d =>
      PyStr.join ", "
        (map (fun kv => fst kv +:+ ": " +:+
                        match snd kv with
                        | PStr s => s
                        | PInt n => PyStr.of_Z n
                        | _ => "?"
                        end) d)
  | _ => "?"
  end.


Definition call_with_retry (prompt : string) : M string :=
  _call_gemini_with_retry true flaky_model jitter prompt default_max_retries.

Definition nlp_prompt (query : string) : string :=
  "Extract structured filtering criteria from this search query: " +:+ query.

Definition ada : pydict :=
  [("name", PStr "Ada Lovelace"); ("skills", PStr "Go, Rust"); ("experience", PInt 5)].

Definition grace : pydict :=
  [("name", PStr "Grace Hopper"); ("skills", PStr "COBOL"); ("experience", PInt 40)].

(** Two uploads with the same file stem, the second enqueued once the
    worker is done with the first. *)
Definition same_stem_schedule : list label :=
  [CallAddTask "uploads/alice/resume.pdf" PNone; CallRecord; CallStart;
   WorkerGet 0; WorkerMark 0; WorkerFinish 0;
   CallAddTask "uploads/bob/resume.docx" PNone; CallRecord].

(** The same two uploads, both enqueued before the worker runs. *)
Definition same_stem_backlog : list label :=
  [CallAddTask "uploads/alice/resume.pdf" PNone; CallRecord; CallStart;
   CallAddTask "uploads/bob/resume.docx" PNone; CallRecord; CallStart;
   WorkerGet 0; WorkerMark 0; WorkerFinish 0;
   WorkerGet 0; WorkerMark 0].

(** The status stored for [id] after a schedule, from a new queue. *)
Definition status_after (schedule : list label) (id : string) : option status :=
  match run World analyze analyze_with_filters (initial_system World initial_world) schedule with
  | Some s => entry_status <$> entry_of World s id
  | None => None
  end.

End Demo.

(* ================================================================= *)
(** ** More cases for the examples *)

Module Cases.

(** A model that answers every call with [reply]. *)
Definition answering (reply : string) (k : nat) (prompt : string) : exc string := Ok reply.

Definition call_answering (reply : string) (prompt : string) : M string :=
  _call_gemini_with_retry true (answering reply) Demo.jitter prompt default_max_retries.

(** Stand-ins for [float] on strings and on big integers: integer
    literals are read, every integer is taken as it is. *)
Definition float_of_str (s : string) : option pyfloat :=
  option_map (fun n => FFinite (inject_Z n)) (int_of_string s).

Definition float_of_big_int (n : Z) : exc pyfloat := Ok (FFinite (inject_Z n)).

Definition matches : pydict -> pyval -> exc bool :=
  matches_filters Demo.repr_record float_of_str float_of_big_int.

(** The criteria the model is asked for, with nothing in them. *)
Definition no_criteria : pydict :=
  [("skills", PNone); ("experience_years", PNone); ("education", PNone);
   ("job_titles", PNone); ("location", PNone); ("keywords", PNone)].

Definition no_criteria_reply : string :=
  JsonSubset.text
    "{'skills': null, 'experience_years': null, 'education': null, 'job_titles': null, 'location': null, 'keywords': null}".

(** Criteria asking for five years of experience. *)
Definition five_years : pydict :=
  [("skills", PList [PStr "Rust"]); ("experience_years", PInt 5); ("education", PNone);
   ("job_titles", PList []); ("location", PNone); ("keywords", PNone)].

Definition five_years_reply : string :=
  JsonSubset.text
    "{'skills': ['Rust'], 'experience_years': 5, 'education': null, 'job_titles': [], 'location': null, 'keywords': null}".

(** One upload enqueued and processed: the worker is back at the head
    of its loop. *)
Definition first_done : list label :=
  [CallAddTask "uploads/ada.pdf" PNone; CallRecord; CallStart;
   WorkerGet 0; WorkerMark 0; WorkerFinish 0].

(** A scanned file too short to be read, enqueued and processed. *)
Definition scan_done : list label :=
  [CallAddTask "data/uploads/scan.pdf" PNone; CallRecord; CallStart;
   WorkerGet 0; WorkerMark 0; WorkerFinish 0].

Definition run_from_start (schedule : list label) : option (System World) :=
  run World Demo.analyze Demo.analyze_with_filters (initial_system World initial_world)
    schedule.

(** The session once [uploads/ada.pdf], or [uploads/grace.pdf], has
    been enqueued. *)
Definition ada_session : Session :=
  register "uploads/ada.pdf" "ada" {| processing_files := ∅; resume_data := [] |}.

Definition grace_session : Session :=
  register "uploads/grace.pdf" "grace" {| processing_files := ∅; resume_data := [] |}.

(** The entry of a task that ended with the record of Ada. *)
Definition ada_done : entry := outcome_entry (Ok Demo.ada).

(** A literal of [n] nines. *)
Definition nines (n : nat) : string := string_of_list_ascii (repeat "9"%char n).

End Cases.

(** Counting the events of one kind. *)
Definition count_events (p : event -> bool) (l : list event) : nat :=
  List.length (List.filter p l).

Definition is_failure (e : event) : bool :=
  match e with EvFailure _ => true | _ => false end.

Definition is_success (e : event) : bool :=
  match e with EvSuccess => true | _ => false end.

Definition is_wait (e : event) : bool :=
  match e with EvWait _ => true | _ => false end.

Definition is_call (e : event) : bool :=
  match e with EvCall _ => true | _ => false end.

(** The world after one attempt of the retry loop that failed: the
    wait, the call, [failure()] and the sleep it asked for. *)
Definition after_failed_attempt (uniform_jitter : nat -> Q) (prompt : string) (w : World)
    : World :=
  let w1 := limiter_wait w in
  let w2 := log (EvCall prompt)
              {| rate_limiter := rate_limiter w1; clock := clock w1;
                 model_calls := S (model_calls w1); jitter_draws := jitter_draws w1;
                 events := events w1 |} in
  sleep (fst (limiter_failure uniform_jitter w2)) (snd (limiter_failure uniform_jitter w2)).

(** The world after an attempt that succeeded. *)
Definition after_successful_attempt (prompt : string) (w : World) : World :=
  let w1 := limiter_wait w in
  limiter_success
    (log (EvCall prompt)
       {| rate_limiter := rate_limiter w1; clock := clock w1;
          model_calls := S (model_calls w1); jitter_draws := jitter_draws w1;
          events := events w1 |}).

(** The exception [_call_gemini] raises for an exception of the client. *)
Definition wrapped (e : pyexn) : pyexn :=
  mk_exn OtherException ("Gemini API call failed: " +:+ exn_msg e).

(* ================================================================= *)
(** ** Notions used by the properties *)

(** A step that leaves the dict alone or assigns one field. *)
Definition sets_only (field : string) (info info' : pydict) : Prop :=
  info' = info \/ exists v, info' = dict_set field v info.

(** How [coerce_experience] arrives at the integer [n] from the
    value stored under [experience]. *)
Definition coerced_from (v : option pyval) (n : Z) : Prop :=
  match v with
  | None | Some PNone => n = 0
  | Some v => py_int v = Ok n \/ (n = 0 /\ is_ok (py_int v) = false)
  end.

(** The states the dict goes through when no step raises: [base] is
    the dict after the loop over the required fields, [n] the coerced
    experience, [flat] the dict once the skills are joined. *)
Inductive normalization (info r : pydict) : Prop :=
| normalization_intro (n : Z) (base flat : pydict) :
    base = ensure_required_fields info ->
    coerced_from (dict_get "experience" base) n ->
    join_list_field "skills" ", " (dict_set "experience" (PInt n) base) = Ok flat ->
    (forall k, dict_has k flat = true -> dict_has k r = true) ->
    (forall k,
        ~ In k ["education"; "languages"; "certifications"; "work_history_summary";
                "match_reasons_text"; "gap_analysis_text"; "match_score"] ->
        dict_get k r = dict_get k flat) ->
    dict_has "work_history_summary" r = true ->
    normalization info r.

(** Worker [i] has taken task [t] off the queue and is not done with it. *)
Definition holds (ws : list worker_pc) (i : nat) (t : task) : Prop :=
  ws !! i = Some (Dequeued t) \/ ws !! i = Some (Analyzing t).

(** What holds of the queue [q], the results [res], the calling thread
    [c] and the workers [ws] as long as every enqueued path has a stem
    of its own; [seen] are the ids handed out so far. *)
Record invariant (seen : list string) (q : list task) (res : gmap string entry)
    (c : caller_pc) (ws : list worker_pc) : Prop := {
  inv_queue_nodup : NoDup (task_id <$> q);
  inv_held_not_queued :
    forall i t, holds ws i t -> task_id t ∉ (task_id <$> q);
  inv_held_distinct :
    forall i j t t', i <> j -> holds ws i t -> holds ws j t' -> task_id t <> task_id t';
  inv_put_unrecorded :
    forall t, c = CallerPut t -> res !! task_id t = None /\ task_id t ∈ seen;
  inv_waiting_queued :
    forall t e,
      t ∈ q \/ (exists i, ws !! i = Some (Dequeued t)) ->
      res !! task_id t = Some e -> entry_status e = Queued;
  inv_analyzing :
    forall i t, ws !! i = Some (Analyzing t) ->
      exists e, res !! task_id t = Some e /\ entry_status e = Processing;
  inv_seen :
    forall id,
      id ∈ (task_id <$> q) \/ (exists i t, holds ws i t /\ task_id t = id)
      \/ is_Some (res !! id) ->
      id ∈ seen
}.

(** The invariant, on a state of the threads. *)
Definition system_invariant {W : Type} (seen : list string) (s : System W) : Prop :=
  invariant seen (queue (sys_queue W s)) (results (sys_queue W s))
    (sys_caller W s) (sys_workers W s).

(** The path of an enqueue has a stem that was not handed out before. *)
Definition fresh (seen : list string) (l : label) : Prop :=
  match l with
  | CallAddTask file_path _ => PyPath.stem file_path ∉ seen
  | _ => True
  end.


(** The books of the retry loop after [attempts] attempts. *)
Definition accounted (w w' : World) (attempts failures successes : nat) : Prop :=
  model_calls w' = (model_calls w + attempts)%nat /\
  count_events is_wait (events w') = (count_events is_wait (events w) + attempts)%nat /\
  count_events is_call (events w') = (count_events is_call (events w) + attempts)%nat /\
  count_events is_failure (events w') = (count_events is_failure (events w) + failures)%nat /\
  count_events is_success (events w') = (count_events is_success (events w) + successes)%nat /\
  jitter_draws w' = (jitter_draws w + failures)%nat.

(** The delays an event asks for lie between [lo] and [hi]. *)
Definition delay_between (lo hi : Q) (e : event) : Prop :=
  match e with
  | EvFailure d | EvSleep d => (lo <= d /\ d <= hi)%Q
  | _ => True
  end.

(** The limiter of a processor built with the defaults, up to its
    current delay: floor 1, ceiling [max_delay], backoff factor 1.5. *)
Definition default_limiter (max_delay : Q) (r : RateLimiter.t) : Prop :=
  RateLimiter.within 1 r /\
  RateLimiter.max_delay r = max_delay /\
  (RateLimiter.backoff_factor r == 3 # 2)%Q.

(** The keys [normalize] assigns after the loop over the required fields. *)
Definition rewritten_fields : list string :=
  ["experience"; "skills"; "education"; "languages"; "certifications";
   "work_history_summary"; "match_reasons_text"; "gap_analysis_text"; "match_score"].

(** The fields every record of [analyze_document] carries, whatever
    happened: the seven fields shared by the parsed, the fallback and
    the error records, and the two file fields. *)
Definition identified_record (file_path : string) (record : pydict) : Prop :=
  Forall (fun field => dict_has field record = true)
    ["name"; "email"; "phone"; "education"; "experience"; "skills"; "location";
     "filename"; "file_path"] /\
  dict_get "filename" record = Some (PStr (PyPath.basename file_path)) /\
  dict_get "file_path" record = Some (PStr file_path) /\
  exists n, dict_get "experience" record = Some (PInt n).

(** Every entry is other than failed, and a completed one carries a
    record with the shared fields. *)
Definition answered (s : System World) : Prop :=
  forall id e,
    entry_of World s id = Some e ->
    entry_status e <> Failed /\
    (entry_status e = Completed ->
     exists file_path record,
       entry_data e = Some record /\ identified_record file_path record).

(** A worker thread that is still inside [_process_queue]. *)
Definition alive (pc : worker_pc) : bool :=
  match pc with
  | AtLoopHead | Dequeued _ | Analyzing _ | Leaving => true
  | Exited | Crashed => false
  end.

Definition live_workers (ws : list worker_pc) : nat :=
  List.length (List.filter alive ws).

(** The statements of the worker threads. *)
Definition worker_label (l : label) : bool :=
  match l with
  | CallAddTask _ _ | CallRecord | CallStart => false
  | _ => true
  end.

(** An entry that is completed or failed. *)
Definition terminal (e : entry) : Prop :=
  entry_status e = Completed \/ entry_status e = Failed.

(** At most one worker is inside [_process_queue], and none when the
    flag is down. *)
Definition one_worker {W : Type} (s : System W) : Prop :=
  (live_workers (sys_workers W s) <= 1)%nat /\
  (processing (sys_queue W s) = false -> live_workers (sys_workers W s) = 0%nat).

(** No stored entry has the status [unknown], and a completed one has
    its data. *)
Definition sound_entries {W : Type} (s : System W) : Prop :=
  forall id e,
    entry_of W s id = Some e ->
    entry_status e <> Unknown /\ (entry_status e = Completed -> is_Some (entry_data e)).

(** The flag is up and no worker is alive: nothing is processed any
    more; [since] is the state this began in. *)
Definition blocked {W : Type} (since s : System W) : Prop :=
  processing (sys_queue W s) = true /\
  live_workers (sys_workers W s) = 0%nat /\
  forall id e, entry_of W s id = Some e -> entry_of W since id = Some e \/ e = queued_entry.

(** The files of the session that are not marked complete. *)
Definition unfinished (s : Session) : nat :=
  size (filter (fun kf : string * file_state => fs_status (snd kf) <> FileComplete)
          (processing_files s)).

(** The statements of [add_task]'s first line: the poller runs none
    while it waits. *)
Definition is_add_task (l : label) : bool :=
  match l with
  | CallAddTask _ _ => true
  | _ => false
  end.

(** The entry a poll is answered with is the one [get_result] reads in
    some state reached from [s] by statements that are [allowed]. *)
Definition observed_from {W : Type}
    (processor_analyze : string -> W -> exc pydict * W)
    (processor_analyze_with_filters : string -> pyval -> W -> exc pydict * W)
    (allowed : label -> bool) (s : System W) (poll : string * entry) : Prop :=
  exists later s',
    forallb allowed later = true /\
    run W processor_analyze processor_analyze_with_filters s later = Some s' /\
    snd poll = get_result (fst poll) (sys_queue W s').

(* ================================================================= *)
(** * Properties *)

(** ** Strings and dictionaries *)

Example find_first_brace : PyStr.find "{" "ab{c}{d}" = 2.
Proof. reflexivity. Qed.

Example rfind_last_brace : PyStr.rfind "}" "ab{c}{d}" = 7.
Proof. reflexivity. Qed.

Example split_example :
  PyStr.split "  Java  developer 5+ " = ["Java"; "developer"; "5+"].
Proof. reflexivity. Qed.

Example stem_example : PyPath.stem "data/uploads/jane_doe.v2.pdf" = "jane_doe.v2".
Proof. reflexivity. Qed.

Example int_of_five :
  py_int (PStr "five") = raise ValueError "invalid literal for int() with base 10".
Proof. reflexivity. Qed.

Example int_of_padded : py_int (PStr " 12 ") = Ok 12.
Proof. reflexivity. Qed.

Example int_of_float : py_int (PFloat (FFinite (57 # 10))) = Ok 5.
Proof. reflexivity. Qed.

(** A file separator is no blank for [int()], though [strip()] takes
    it off. *)
Example int_of_separator :
  py_int (PStr (String (ascii_of_nat 28) "5"))
  = raise ValueError "invalid literal for int() with base 10" /\
  PyStr.strip (String (ascii_of_nat 28) "5") = "5" /\
  coerce_experience [("experience", PStr (String (ascii_of_nat 28) "5"))]
  = Ok [("experience", PInt 0)].
Proof. repeat split. Qed.

(** The digit limit: 4300 digits are read, 4301 are refused. *)
Example int_of_long_literal :
  py_int (PStr (Cases.nines 4300)) = Ok (10 ^ 4300 - 1) /\
  py_int (PStr (Cases.nines 4301)) = raise ValueError "invalid literal for int() with base 10" /\
  coerce_experience [("experience", PStr (Cases.nines 4301))] = Ok [("experience", PInt 0)].
Proof. vm_compute. repeat split. Qed.

Lemma find_from_range c s i :
  PyStr.find_from c s i = -1 \/ i <= PyStr.find_from c s i.
Proof.
  revert i. induction s as [|a s IH]; intros i; simpl.
  - now left.
  - destruct (Ascii.eqb a c).
    + right. lia.
    + destruct (IH (i + 1)) as [H|H]; [now left | right; lia].
Qed.

(** [find] answers -1 exactly when the character does not occur. *)
Lemma find_absent c s :
  ~ In c (list_ascii_of_string s) -> PyStr.find c s = -1.
Proof.
  unfold PyStr.find. generalize 0. induction s as [|a s IH]; intros i Hnot; simpl in *.
  - reflexivity.
  - destruct (Ascii.eqb_spec a c) as [->|Hne].
    + exfalso. apply Hnot. now left.
    + apply IH. intros Hin. apply Hnot. now right.
Qed.

Lemma rfind_from_absent c s i last :
  ~ In c (list_ascii_of_string s) -> PyStr.rfind_from c s i last = last.
Proof.
  revert i last. induction s as [|a s IH]; intros i last Hnot; simpl in *.
  - reflexivity.
  - destruct (Ascii.eqb_spec a c) as [->|Hne].
    + exfalso. apply Hnot. now left.
    + apply IH. intros Hin. apply Hnot. now right.
Qed.

Lemma rfind_absent c s :
  ~ In c (list_ascii_of_string s) -> PyStr.rfind c s = -1.
Proof. apply rfind_from_absent. Qed.

Lemma dict_get_set_eq k v d : dict_get k (dict_set k v d) = Some v.
Proof.
  induction d as [|[k' v'] d IH]; simpl.
  - now rewrite String.eqb_refl.
  - destruct (String.eqb k k') eqn:E; simpl; rewrite ?String.eqb_refl, ?E; auto.
Qed.

Lemma dict_get_set_ne k k' v d :
  k <> k' -> dict_get k' (dict_set k v d) = dict_get k' d.
Proof.
  intros Hne. induction d as [|[k0 v0] d IH]; simpl.
  - destruct (String.eqb_spec k' k); congruence.
  - destruct (String.eqb_spec k k0) as [->|Hk]; simpl.
    + destruct (String.eqb_spec k' k0); congruence.
    + destruct (String.eqb_spec k' k0); auto.
Qed.

Lemma dict_has_set k k' v d :
  dict_has k' d = true -> dict_has k' (dict_set k v d) = true.
Proof.
  unfold dict_has. destruct (String.eqb_spec k k') as [->|Hne].
  - now rewrite dict_get_set_eq.
  - now rewrite dict_get_set_ne.
Qed.

Lemma dict_has_set_eq k v d : dict_has k (dict_set k v d) = true.
Proof. unfold dict_has. now rewrite dict_get_set_eq. Qed.

(** ** The normalization steps of [_parse_response] *)

Lemma exc_bind_ok {A B} (m : exc A) (k : A -> exc B) b :
  exc_bind m k = Ok b -> exists a, m = Ok a /\ k a = Ok b.
Proof. destruct m; simpl; [eauto | discriminate]. Qed.

Lemma sets_only_has field info info' k :
  sets_only field info info' -> dict_has k info = true -> dict_has k info' = true.
Proof. intros [->|[v ->]] H; [assumption | now apply dict_has_set]. Qed.

Lemma sets_only_get field info info' k :
  sets_only field info info' -> field <> k -> dict_get k info' = dict_get k info.
Proof. intros [->|[v ->]] H; [reflexivity | now apply dict_get_set_ne]. Qed.

Ltac step_ok H :=
  apply exc_bind_ok in H; destruct H as [? [? H]].

Ltac in_list := simpl; repeat (first [left; reflexivity | right]).

Section ParserFacts.

Variable py_repr : pyval -> string.

Lemma ensure_field_has info field k :
  dict_has k info = true -> dict_has k (ensure_field info field) = true.
Proof.
  intros H. unfold ensure_field.
  destruct (dict_has field info); [assumption|].
  destruct (existsb _ _); now apply dict_has_set.
Qed.

Lemma ensure_field_self info field : dict_has field (ensure_field info field) = true.
Proof.
  unfold ensure_field. destruct (dict_has field info) eqn:E; [assumption|].
  destruct (existsb _ _); apply dict_has_set_eq.
Qed.

Lemma ensure_field_get info field k :
  dict_get k (ensure_field info field) =
  match dict_get k info with
  | Some v => Some v
  | None => if String.eqb field k then Some (default_of field) else None
  end.
Proof.
  unfold ensure_field, dict_has, default_of.
  destruct (String.eqb_spec field k) as [->|Hne].
  - destruct (dict_get k info) eqn:E; [assumption|].
    destruct (existsb _ _); apply dict_get_set_eq.
  - destruct (dict_get field info) eqn:E.
    + now destruct (dict_get k info).
    + destruct (existsb _ _); rewrite dict_get_set_ne by assumption;
        now destruct (dict_get k info).
Qed.

Lemma fold_ensure_has fields info k :
  dict_has k info = true \/ In k fields ->
  dict_has k (fold_left ensure_field fields info) = true.
Proof.
  revert info. induction fields as [|f fields IH]; intros info [H|H]; simpl in *.
  - assumption.
  - contradiction.
  - apply IH. left. now apply ensure_field_has.
  - apply IH. destruct H as [->|H]; [left; apply ensure_field_self | now right].
Qed.

(** After the loop every required field is there. *)
Lemma ensure_required_has info field :
  In field required_fields -> dict_has field (ensure_required_fields info) = true.
Proof. intros H. apply fold_ensure_has. now right. Qed.

Lemma ensure_required_keeps info k :
  dict_has k info = true -> dict_has k (ensure_required_fields info) = true.
Proof. intros H. apply fold_ensure_has. now left. Qed.

Lemma fold_ensure_get fields info k :
  NoDup fields ->
  dict_get k (fold_left ensure_field fields info) =
  match dict_get k info with
  | Some v => Some v
  | None => if existsb (String.eqb k) fields then Some (default_of k) else None
  end.
Proof.
  revert info. induction fields as [|f fields IH]; intros info Hnd; simpl.
  - now destruct (dict_get k info).
  - inversion Hnd as [|? ? Hf Hnd']; subst. rewrite IH by assumption.
    rewrite ensure_field_get. destruct (dict_get k info) eqn:E; [reflexivity|].
    rewrite (String.eqb_sym k f).
    destruct (String.eqb_spec f k) as [->|Hne]; simpl; reflexivity.
Qed.

(** A field the reply has keeps its value; a missing required field
    gets the empty list or the empty string. *)
Lemma ensure_required_get info k :
  dict_get k (ensure_required_fields info) =
  match dict_get k info with
  | Some v => Some v
  | None => if existsb (String.eqb k) required_fields then Some (default_of k) else None
  end.
Proof.
  apply fold_ensure_get. unfold required_fields.
  compute_done.
Qed.

Lemma coerce_experience_ok info info' :
  coerce_experience info = Ok info' ->
  exists n, info' = dict_set "experience" (PInt n) info /\
    (match dict_get "experience" info with
     | None | Some PNone => n = 0
     | Some v => py_int v = Ok n \/ (n = 0 /\ is_ok (py_int v) = false)
     end).
Proof.
  unfold coerce_experience. intros H.
  destruct (dict_get "experience" info) as [v|] eqn:E.
  - destruct v; simpl in H;
      try (injection H as <-; eexists; split; [reflexivity | auto; fail]).
    + (* float *)
      destruct f as [q|neg|]; simpl in H; try discriminate;
        injection H as <-; eexists; split; try reflexivity; auto.
    + (* string *)
      destruct (int_of_string s) eqn:Es; simpl in H; injection H as <-;
        eexists; (split; [reflexivity|]); simpl; rewrite Es; auto.
  - injection H as <-. eexists. split; reflexivity.
Qed.

Lemma join_list_field_ok field sep info info' :
  join_list_field field sep info = Ok info' -> sets_only field info info'.
Proof.
  unfold join_list_field. intros H.
  destruct (dict_get field info) as [[]|]; try (injection H as <-; now left);
    step_ok H; injection H as <-; right; eauto.
Qed.

Lemma format_education_ok info info' :
  format_education py_repr info = Ok info' -> sets_only "education" info info'.
Proof.
  unfold format_education. intros H.
  destruct (dict_get "education" info) as [[]|]; try (injection H as <-; now left).
  - step_ok H. injection H as <-. right. eauto.
  - injection H as <-. right. eauto.
Qed.

Lemma format_languages_ok info info' :
  format_languages py_repr info = Ok info' -> sets_only "languages" info info'.
Proof.
  unfold format_languages. intros H.
  destruct (dict_get "languages" info) as [[]|]; try (injection H as <-; now left).
  - step_ok H. injection H as <-. right. eauto.
  - injection H as <-. right. eauto.
Qed.

Lemma add_work_history_summary_ok info info' :
  add_work_history_summary py_repr info = Ok info' ->
  exists v, info' = dict_set "work_history_summary" v info.
Proof.
  unfold add_work_history_summary. intros H.
  destruct (dict_get "work_history" info) as [[| | | | |[|job jobs]|]|];
    try (injection H as <-; eauto; fail).
  step_ok H. injection H as <-. eauto.
Qed.

Lemma add_match_reasons_text_ok info info' :
  add_match_reasons_text info = Ok info' ->
  exists v, info' = dict_set "match_reasons_text" v info.
Proof.
  unfold add_match_reasons_text. intros H.
  destruct (dict_get "match_reasons" info) as [[]|];
    try (injection H as <-; eauto; fail).
  step_ok H. injection H as <-. eauto.
Qed.

Lemma add_gap_analysis_text_ok info info' :
  add_gap_analysis_text info = Ok info' ->
  exists v, info' = dict_set "gap_analysis_text" v info.
Proof.
  unfold add_gap_analysis_text. intros H.
  destruct (dict_get "gap_analysis" info) as [[| | | | |[|g gs]|]|];
    try (injection H as <-; eauto; fail).
  step_ok H. injection H as <-. eauto.
Qed.

Lemma ensure_match_score_ok info : sets_only "match_score" info (ensure_match_score info).
Proof.
  unfold ensure_match_score. destruct (dict_has "match_score" info); [now left | right; eauto].
Qed.

Lemma coerce_experience_from info info' :
  coerce_experience info = Ok info' ->
  exists n, info' = dict_set "experience" (PInt n) info /\
            coerced_from (dict_get "experience" info) n.
Proof. apply coerce_experience_ok. Qed.

Lemma normalize_ok info r : normalize py_repr info = Ok r -> normalization info r.
Proof.
  unfold normalize. remember (ensure_required_fields info) as base eqn:Hbase.
  intros H.
  step_ok H. rename x into i1. rename H0 into H1.
  step_ok H. rename x into i2. rename H0 into H2.
  step_ok H. rename x into i3. rename H0 into H3.
  step_ok H. rename x into i4. rename H0 into H4.
  step_ok H. rename x into i5. rename H0 into H5.
  step_ok H. rename x into i6. rename H0 into H6.
  step_ok H. rename x into i7. rename H0 into H7.
  step_ok H. rename x into i8. rename H0 into H8.
  injection H as <-.
  change (join_list_field "skills" ", " i1 = Ok i2) in H2.
  destruct (coerce_experience_from _ _ H1) as [n [-> Hn]].
  apply format_education_ok in H3. apply format_languages_ok in H4.
  apply join_list_field_ok in H5.
  apply add_work_history_summary_ok in H6. destruct H6 as [v6 ->].
  apply add_match_reasons_text_ok in H7. destruct H7 as [v7 ->].
  apply add_gap_analysis_text_ok in H8. destruct H8 as [v8 ->].
  pose proof (ensure_match_score_ok
                (dict_set "gap_analysis_text" v8
                   (dict_set "match_reasons_text" v7
                      (dict_set "work_history_summary" v6 i5)))) as H9.
  apply (normalization_intro _ _ n base i2); try assumption.
  - intros k Hk.
    eapply sets_only_has; [exact H9|].
    do 3 apply dict_has_set.
    eapply sets_only_has; [exact H5|].
    eapply sets_only_has; [exact H4|].
    eapply sets_only_has; [exact H3|]. exact Hk.
  - intros k Hk. simpl in Hk.
    rewrite (sets_only_get _ _ _ k H9) by (intros <-; intuition).
    rewrite !dict_get_set_ne by (intros <-; intuition).
    rewrite (sets_only_get _ _ _ k H5) by (intros <-; intuition).
    rewrite (sets_only_get _ _ _ k H4) by (intros <-; intuition).
    rewrite (sets_only_get _ _ _ k H3) by (intros <-; intuition).
    reflexivity.
  - eapply sets_only_has; [exact H9|].
    do 2 apply dict_has_set. apply dict_has_set_eq.
Qed.

End ParserFacts.

(** ** The replies that are normalized *)

Section NormalizableFacts.

Variable py_repr : pyval -> string.

Lemma py_join_is_ok sep l : is_ok (py_join sep l) = forallb is_str l.
Proof.
  unfold py_join.
  assert (H : match strs_of l with Some _ => true | None => false end = forallb is_str l).
  { induction l as [|v l IH]; [reflexivity|].
    destruct v; try reflexivity. simpl. rewrite <- IH. now destruct (strs_of l). }
  rewrite <- H. now destruct (strs_of l).
Qed.

Lemma str_add_is_ok s v : is_ok (str_add s v) = is_str v.
Proof. now destruct v. Qed.

Lemma coerce_experience_is_ok info :
  is_ok (coerce_experience info) = experience_finite info.
Proof.
  unfold coerce_experience, experience_finite.
  destruct (dict_get "experience" info) as [[| | |[| |]| | |]|]; try reflexivity.
  simpl. now destruct (int_of_string s).
Qed.

Lemma join_list_field_is_ok field sep info :
  is_ok (join_list_field field sep info) = list_field_passes (forallb is_str) field info.
Proof.
  unfold join_list_field, list_field_passes.
  destruct (dict_get field info) as [[]|]; try reflexivity.
  rewrite <- (py_join_is_ok sep l). now destruct (py_join sep l).
Qed.

Lemma format_education_entry_is_ok edu :
  is_ok (format_education_entry py_repr edu)
  = forallb (fun k => str_if_present k edu) ["degree"; "institution"].
Proof.
  unfold format_education_entry, str_if_present. simpl.
  destruct (dict_get "degree" edu) as [[]|]; try reflexivity; simpl;
    (destruct (dict_get "institution" edu) as [[]|]; reflexivity).
Qed.

Lemma education_parts_is_ok l :
  is_ok (education_parts py_repr l) = entries_joinable ["degree"; "institution"] l.
Proof.
  induction l as [|v l IH]; [reflexivity|].
  destruct v; try exact IH.
  change (entries_joinable ["degree"; "institution"] (PDict d :: l))
    with (forallb (fun k => str_if_present k d) ["degree"; "institution"]
          && entries_joinable ["degree"; "institution"] l).
  rewrite <- format_education_entry_is_ok, <- IH. simpl education_parts.
  destruct (format_education_entry py_repr d); [|reflexivity]. simpl.
  now destruct (education_parts py_repr l).
Qed.

Lemma format_education_is_ok info :
  is_ok (format_education py_repr info)
  = list_field_passes (entries_joinable ["degree"; "institution"]) "education" info.
Proof.
  unfold format_education, list_field_passes.
  destruct (dict_get "education" info) as [[]|]; try reflexivity.
  rewrite <- education_parts_is_ok. now destruct (education_parts py_repr l).
Qed.

Lemma language_parts_is_ok l :
  is_ok (language_parts py_repr l) = entries_joinable ["name"] l.
Proof.
  induction l as [|v l IH]; [reflexivity|].
  simpl language_parts.
  destruct v; simpl; try (rewrite <- IH; now destruct (language_parts py_repr l)).
  unfold str_if_present.
  destruct (dict_get "name" d) as [[]|]; simpl; try reflexivity;
    rewrite <- IH; now destruct (language_parts py_repr l).
Qed.

Lemma format_languages_is_ok info :
  is_ok (format_languages py_repr info)
  = list_field_passes (entries_joinable ["name"]) "languages" info.
Proof.
  unfold format_languages, list_field_passes.
  destruct (dict_get "languages" info) as [[]|]; try reflexivity.
  rewrite <- language_parts_is_ok. now destruct (language_parts py_repr l).
Qed.

Lemma format_job_entry_is_ok job :
  is_ok (format_job_entry py_repr job)
  = forallb (fun k => str_if_present k job) ["position"; "company"].
Proof.
  unfold format_job_entry, str_if_present. simpl.
  destruct (dict_get "position" job) as [[]|]; try reflexivity; simpl;
    (destruct (dict_get "company" job) as [[]|]; reflexivity).
Qed.

Lemma work_history_parts_is_ok l :
  is_ok (work_history_parts py_repr l) = entries_joinable ["position"; "company"] l.
Proof.
  induction l as [|v l IH]; [reflexivity|].
  destruct v; try exact IH.
  change (entries_joinable ["position"; "company"] (PDict d :: l))
    with (forallb (fun k => str_if_present k d) ["position"; "company"]
          && entries_joinable ["position"; "company"] l).
  rewrite <- format_job_entry_is_ok, <- IH. simpl work_history_parts.
  destruct (format_job_entry py_repr d); [|reflexivity]. simpl.
  now destruct (work_history_parts py_repr l).
Qed.

Lemma add_work_history_summary_is_ok info :
  is_ok (add_work_history_summary py_repr info)
  = list_field_passes (entries_joinable ["position"; "company"]) "work_history" info.
Proof.
  unfold add_work_history_summary, list_field_passes.
  destruct (dict_get "work_history" info) as [[| | | | |[|job jobs]|]|]; try reflexivity.
  rewrite <- work_history_parts_is_ok.
  now destruct (work_history_parts py_repr (job :: jobs)).
Qed.

Lemma add_match_reasons_text_is_ok info :
  is_ok (add_match_reasons_text info)
  = list_field_passes (forallb is_str) "match_reasons" info.
Proof.
  unfold add_match_reasons_text, list_field_passes.
  destruct (dict_get "match_reasons" info) as [[]|]; try reflexivity.
  rewrite <- (py_join_is_ok (newline +:+ "- ") l).
  now destruct (py_join (newline +:+ "- ") l).
Qed.

Lemma add_gap_analysis_text_is_ok info :
  is_ok (add_gap_analysis_text info)
  = list_field_passes (forallb is_str) "gap_analysis" info.
Proof.
  unfold add_gap_analysis_text, list_field_passes.
  destruct (dict_get "gap_analysis" info) as [[| | | | |[|g gs]|]|]; try reflexivity.
  rewrite <- (py_join_is_ok (newline +:+ "- ") (g :: gs)).
  now destruct (py_join (newline +:+ "- ") (g :: gs)).
Qed.

Lemma list_field_passes_get check field i i' :
  dict_get field i' = dict_get field i ->
  list_field_passes check field i' = list_field_passes check field i.
Proof. unfold list_field_passes. now intros ->. Qed.

Lemma list_field_passes_required check field info :
  check [] = true ->
  list_field_passes check field (ensure_required_fields info)
  = list_field_passes check field info.
Proof.
  intros Hnil. unfold list_field_passes. rewrite ensure_required_get.
  destruct (dict_get field info); [reflexivity|].
  destruct (existsb (String.eqb field) required_fields); [|reflexivity].
  unfold default_of. now destruct (existsb (String.eqb field) list_fields).
Qed.

Lemma experience_finite_required info :
  experience_finite (ensure_required_fields info) = experience_finite info.
Proof.
  unfold experience_finite. rewrite ensure_required_get.
  now destruct (dict_get "experience" info).
Qed.

(** The normalization goes through on the normalizable objects, and on
    no other. *)
Lemma normalize_is_ok info : is_ok (normalize py_repr info) = normalizable info.
Proof.
  unfold normalize, normalizable.
  rewrite <- experience_finite_required.
  rewrite <- !(list_field_passes_required _ _ info) by reflexivity.
  remember (ensure_required_fields info) as base eqn:Hbase. clear Hbase.
  rewrite <- coerce_experience_is_ok.
  destruct (coerce_experience base) as [i1|e] eqn:H1; [|reflexivity].
  destruct (coerce_experience_from _ _ H1) as [n [-> _]]. clear H1.
  cbn [is_ok exc_bind andb].
  rewrite <- (list_field_passes_get _ "skills" base (dict_set "experience" (PInt n) base))
    by (now apply dict_get_set_ne).
  rewrite <- (list_field_passes_get _ "education" base (dict_set "experience" (PInt n) base))
    by (now apply dict_get_set_ne).
  rewrite <- (list_field_passes_get _ "languages" base (dict_set "experience" (PInt n) base))
    by (now apply dict_get_set_ne).
  rewrite <- (list_field_passes_get _ "certifications" base (dict_set "experience" (PInt n) base))
    by (now apply dict_get_set_ne).
  rewrite <- (list_field_passes_get _ "work_history" base (dict_set "experience" (PInt n) base))
    by (now apply dict_get_set_ne).
  rewrite <- (list_field_passes_get _ "match_reasons" base (dict_set "experience" (PInt n) base))
    by (now apply dict_get_set_ne).
  rewrite <- (list_field_passes_get _ "gap_analysis" base (dict_set "experience" (PInt n) base))
    by (now apply dict_get_set_ne).
  remember (dict_set "experience" (PInt n) base) as i1 eqn:Hi1. clear Hi1 base.
  (* skills *)
  rewrite <- (join_list_field_is_ok "skills" ", " i1).
  change (format_skills i1) with (join_list_field "skills" ", " i1).
  destruct (join_list_field "skills" ", " i1) as [i2|e] eqn:H2;
    [|cbn [is_ok exc_bind andb]; reflexivity].
  apply join_list_field_ok in H2. cbn [is_ok exc_bind andb].
  rewrite <- (list_field_passes_get _ "education" i1 i2)
    by (now apply (sets_only_get _ _ _ _ H2)).
  rewrite <- (list_field_passes_get _ "languages" i1 i2)
    by (now apply (sets_only_get _ _ _ _ H2)).
  rewrite <- (list_field_passes_get _ "certifications" i1 i2)
    by (now apply (sets_only_get _ _ _ _ H2)).
  rewrite <- (list_field_passes_get _ "work_history" i1 i2)
    by (now apply (sets_only_get _ _ _ _ H2)).
  rewrite <- (list_field_passes_get _ "match_reasons" i1 i2)
    by (now apply (sets_only_get _ _ _ _ H2)).
  rewrite <- (list_field_passes_get _ "gap_analysis" i1 i2)
    by (now apply (sets_only_get _ _ _ _ H2)).
  clear H2 i1.
  (* education *)
  rewrite <- (format_education_is_ok i2).
  destruct (format_education py_repr i2) as [i3|e] eqn:H3;
    [|cbn [is_ok exc_bind andb]; reflexivity].
  apply format_education_ok in H3. cbn [is_ok exc_bind andb].
  rewrite <- (list_field_passes_get _ "languages" i2 i3)
    by (now apply (sets_only_get _ _ _ _ H3)).
  rewrite <- (list_field_passes_get _ "certifications" i2 i3)
    by (now apply (sets_only_get _ _ _ _ H3)).
  rewrite <- (list_field_passes_get _ "work_history" i2 i3)
    by (now apply (sets_only_get _ _ _ _ H3)).
  rewrite <- (list_field_passes_get _ "match_reasons" i2 i3)
    by (now apply (sets_only_get _ _ _ _ H3)).
  rewrite <- (list_field_passes_get _ "gap_analysis" i2 i3)
    by (now apply (sets_only_get _ _ _ _ H3)).
  clear H3 i2.
  (* languages *)
  rewrite <- (format_languages_is_ok i3).
  destruct (format_languages py_repr i3) as [i4|e] eqn:H4;
    [|cbn [is_ok exc_bind andb]; reflexivity].
  apply format_languages_ok in H4. cbn [is_ok exc_bind andb].
  rewrite <- (list_field_passes_get _ "certifications" i3 i4)
    by (now apply (sets_only_get _ _ _ _ H4)).
  rewrite <- (list_field_passes_get _ "work_history" i3 i4)
    by (now apply (sets_only_get _ _ _ _ H4)).
  rewrite <- (list_field_passes_get _ "match_reasons" i3 i4)
    by (now apply (sets_only_get _ _ _ _ H4)).
  rewrite <- (list_field_passes_get _ "gap_analysis" i3 i4)
    by (now apply (sets_only_get _ _ _ _ H4)).
  clear H4 i3.
  (* certifications *)
  rewrite <- (join_list_field_is_ok "certifications" ", " i4).
  change (format_certifications i4) with (join_list_field "certifications" ", " i4).
  destruct (join_list_field "certifications" ", " i4) as [i5|e] eqn:H5;
    [|cbn [is_ok exc_bind andb]; reflexivity].
  apply join_list_field_ok in H5. cbn [is_ok exc_bind andb].
  rewrite <- (list_field_passes_get _ "work_history" i4 i5)
    by (now apply (sets_only_get _ _ _ _ H5)).
  rewrite <- (list_field_passes_get _ "match_reasons" i4 i5)
    by (now apply (sets_only_get _ _ _ _ H5)).
  rewrite <- (list_field_passes_get _ "gap_analysis" i4 i5)
    by (now apply (sets_only_get _ _ _ _ H5)).
  clear H5 i4.
  (* the summary of the work history *)
  rewrite <- (add_work_history_summary_is_ok i5).
  destruct (add_work_history_summary py_repr i5) as [i6|e] eqn:H6;
    [|cbn [is_ok exc_bind andb]; reflexivity].
  apply add_work_history_summary_ok in H6. destruct H6 as [v6 ->].
  cbn [is_ok exc_bind andb].
  rewrite <- (list_field_passes_get _ "match_reasons" i5
                (dict_set "work_history_summary" v6 i5))
    by (now apply dict_get_set_ne).
  rewrite <- (list_field_passes_get _ "gap_analysis" i5
                (dict_set "work_history_summary" v6 i5))
    by (now apply dict_get_set_ne).
  remember (dict_set "work_history_summary" v6 i5) as i6 eqn:Hi6. clear Hi6 i5.
  (* the match reasons *)
  rewrite <- (add_match_reasons_text_is_ok i6).
  destruct (add_match_reasons_text i6) as [i7|e] eqn:H7;
    [|cbn [is_ok exc_bind andb]; reflexivity].
  apply add_match_reasons_text_ok in H7. destruct H7 as [v7 ->].
  cbn [is_ok exc_bind andb].
  rewrite <- (list_field_passes_get _ "gap_analysis" i6
                (dict_set "match_reasons_text" v7 i6))
    by (now apply dict_get_set_ne).
  remember (dict_set "match_reasons_text" v7 i6) as i7 eqn:Hi7. clear Hi7 i6.
  (* the gap analysis *)
  rewrite <- (add_gap_analysis_text_is_ok i7).
  now destruct (add_gap_analysis_text i7).
Qed.

Lemma normalizable_iff info :
  normalizable info = true <-> exists r, normalize py_repr info = Ok r.
Proof.
  rewrite <- normalize_is_ok. destruct (normalize py_repr info) as [r|e]; simpl.
  - split; eauto.
  - split; [discriminate | intros [r H]; discriminate H].
Qed.

End NormalizableFacts.

(** No span is found when a brace is missing or the braces are in the
    wrong order. *)
Lemma no_span_cases response :
  PyStr.find "{" response = -1 \/
  PyStr.rfind "}" response = -1 \/
  PyStr.rfind "}" response < PyStr.find "{" response ->
  json_span response = None.
Proof.
  unfold json_span. intros H.
  destruct (find_from_range "{" response 0) as [Hf|Hf]; fold (PyStr.find "{" response) in Hf.
  - rewrite Hf. reflexivity.
  - replace (PyStr.find "{" response <? PyStr.rfind "}" response + 1) with false.
    + now rewrite andb_false_r.
    + symmetry. apply Z.ltb_ge. lia.
Qed.

Lemma normalized_experience info r :
  normalization info r ->
  exists n, dict_get "experience" r = Some (PInt n) /\
    (experience_not_numeric info -> n = 0) /\
    (forall v m, dict_get "experience" info = Some v -> py_int v = Ok m -> n = m).
Proof.
  intros [n base flat Hbase Hn Hs Hhas Hget Hsum]. exists n.
  apply join_list_field_ok in Hs.
  pose proof (ensure_required_get info "experience") as Hexp.
  rewrite <- Hbase in Hexp. rewrite Hexp in Hn. clear Hexp.
  split; [|split].
  - rewrite Hget by (simpl; intuition discriminate).
    rewrite (sets_only_get _ _ _ "experience" Hs) by discriminate.
    apply dict_get_set_eq.
  - unfold experience_not_numeric.
    destruct (dict_get "experience" info) as [v|].
    + intros Hv.
      assert (Hcases : n = 0 \/ py_int v = Ok n) by (destruct v; simpl in Hn; tauto).
      destruct Hcases as [Hz|Hok]; [assumption|].
      rewrite Hok in Hv. discriminate Hv.
    + intros _. destruct Hn as [Hn|[Hn _]]; [discriminate Hn | assumption].
  - intros v m Hv Hm. rewrite Hv in Hn.
    assert (Hcases : v = PNone \/ py_int v = Ok n \/ (n = 0 /\ is_ok (py_int v) = false))
      by (destruct v; simpl in Hn; auto).
    destruct Hcases as [->|[Hok|[_ Hbad]]].
    + discriminate Hm.
    + congruence.
    + rewrite Hm in Hbad. discriminate Hbad.
Qed.

Lemma normalized_skills info r l ss :
  normalization info r ->
  dict_get "skills" info = Some (PList l) ->
  strs_of l = Some ss ->
  dict_get "skills" r = Some (PStr (PyStr.join ", " ss)).
Proof.
  intros [n base flat Hbase Hn Hs Hhas Hget Hsum] Hl Hss.
  pose proof (ensure_required_get info "skills") as Hsk.
  rewrite <- Hbase, Hl in Hsk.
  rewrite Hget by (simpl; intuition discriminate).
  unfold join_list_field in Hs.
  rewrite dict_get_set_ne, Hsk in Hs by discriminate.
  unfold py_join in Hs. rewrite Hss in Hs. simpl in Hs. injection Hs as <-.
  apply dict_get_set_eq.
Qed.

Lemma normalized_scalar info r field :
  normalization info r ->
  In field ["name"; "email"; "phone"; "location"; "linkedin"; "github"; "work_history"] ->
  dict_get field r = dict_get field (ensure_required_fields info).
Proof.
  intros [n base flat Hbase Hn Hs Hhas Hget Hsum] Hin.
  apply join_list_field_ok in Hs. rewrite <- Hbase.
  rewrite Hget by (simpl in *; intuition (subst; discriminate)).
  rewrite (sets_only_get _ _ _ field Hs) by (simpl in *; intuition (subst; discriminate)).
  apply dict_get_set_ne. simpl in Hin. intuition (subst; discriminate).
Qed.

Lemma normalized_has_required info r field :
  normalization info r -> In field required_fields -> dict_has field r = true.
Proof.
  intros [n base flat Hbase Hn Hs Hhas Hget Hsum] Hin.
  apply join_list_field_ok in Hs. apply Hhas.
  eapply sets_only_has; [exact Hs|]. apply dict_has_set.
  rewrite Hbase. now apply ensure_required_has.
Qed.

Lemma normalized_has_summary info r :
  normalization info r -> dict_has "work_history_summary" r = true.
Proof. now intros [n base flat Hbase Hn Hs Hhas Hget Hsum]. Qed.

Lemma fallback_has_required :
  Forall (fun field => dict_has field fallback_record = true) required_fields.
Proof. repeat constructor. Qed.

Section ParserClaims.

Variable json_loads : string -> exc pyval.
Variable py_repr : pyval -> string.

Lemma parse_body_decoded response span info :
  json_span response = Some span ->
  json_loads span = Ok (PDict info) ->
  parse_body json_loads py_repr response = normalize py_repr info.
Proof.
  unfold json_span, parse_body. intros Hspan Hloads.
  destruct ((0 <=? PyStr.find "{" response) &&
            (PyStr.find "{" response <? PyStr.rfind "}" response + 1))%Z;
    [|discriminate].
  injection Hspan as ->. rewrite Hloads. reflexivity.
Qed.

Lemma parse_body_no_span response :
  json_span response = None ->
  parse_body json_loads py_repr response = raise ValueError "No JSON object found in response".
Proof.
  unfold json_span, parse_body.
  destruct ((0 <=? PyStr.find "{" response) &&
            (PyStr.find "{" response <? PyStr.rfind "}" response + 1))%Z;
    [discriminate | reflexivity].
Qed.

(** What [_parse_response] returns: the normalized dict, or the
    fallback record. *)
Lemma parse_response_cases response :
  _parse_response json_loads py_repr response = Ok fallback_record \/
  exists info r,
    normalize py_repr info = Ok r /\
    _parse_response json_loads py_repr response = Ok r.
Proof.
  unfold _parse_response, try_except, parse_body.
  destruct ((0 <=? PyStr.find "{" response) &&
            (PyStr.find "{" response <? PyStr.rfind "}" response + 1))%Z;
    [|now left].
  destruct (json_loads _) as [v|e]; [|now left].
  destruct v; try (now left). simpl.
  destruct (normalize py_repr d) as [r|e] eqn:E; [right; eauto | now left].
Qed.

(** Whatever the reply, the record handed back has the six fields an
    error record of [analyze_document] lacks. *)
Lemma parsed_record_fields response record :
  _parse_response json_loads py_repr response = Ok record ->
  Forall (fun field => dict_has field record = true)
    ["linkedin"; "github"; "languages"; "certifications"; "work_history";
     "work_history_summary"].
Proof.
  intros H. destruct (parse_response_cases response) as [Hf|[info [r [Hn Hr]]]].
  - rewrite Hf in H. injection H as <-. repeat constructor.
  - rewrite Hr in H. injection H as <-. apply normalize_ok in Hn.
    repeat constructor;
      try solve [apply (normalized_has_required _ _ _ Hn); in_list].
    apply (normalized_has_summary _ _ Hn).
Qed.

(** C4 (as amended). When the reply holds no brace span (no opening
    brace, no closing brace, or the last closing brace before the first
    opening one), or the span does not decode, [_parse_response]
    returns the fixed fallback record: name ["Unknown"], match score 0,
    experience 0, the other text fields empty, the three list fields
    empty, and the text of the gap analysis a fixed sentence, which is
    no empty default. And on every input it returns a record: no
    exception leaves it. *)
Theorem parse_response_fallback response :
  (~ In "{"%char (list_ascii_of_string response) \/
   ~ In "}"%char (list_ascii_of_string response) \/
   PyStr.rfind "}" response < PyStr.find "{" response \/
   exists span, json_span response = Some span /\ is_ok (json_loads span) = false) ->
  _parse_response json_loads py_repr response = Ok fallback_record /\
  dict_get "name" fallback_record = Some (PStr "Unknown") /\
  dict_get "match_score" fallback_record = Some (PInt 0) /\
  dict_get "experience" fallback_record = Some (PInt 0) /\
  Forall (fun field => dict_get field fallback_record = Some (PStr ""))
    ["email"; "phone"; "education"; "skills"; "location"; "linkedin"; "github";
     "languages"; "certifications"; "work_history_summary"; "match_reasons_text"] /\
  Forall (fun field => dict_get field fallback_record = Some (PList []))
    ["work_history"; "match_reasons"; "gap_analysis"] /\
  dict_get "gap_analysis_text" fallback_record = Some (PStr "No analysis available.") /\
  forall any : string, exists record, _parse_response json_loads py_repr any = Ok record.
Proof.
  intros H. split; [|repeat split; try (repeat constructor; fail)].
  - unfold _parse_response.
    destruct H as [H|[H|[H|[span [Hspan Hfail]]]]];
      try (rewrite parse_body_no_span
             by (apply no_span_cases; auto using find_absent, rfind_absent);
           reflexivity).
    unfold json_span in Hspan. unfold parse_body.
    destruct ((0 <=? PyStr.find "{" response) &&
              (PyStr.find "{" response <? PyStr.rfind "}" response + 1))%Z;
      [|discriminate].
    injection Hspan as ->. destruct (json_loads _); [discriminate | reflexivity].
  - intros any. unfold _parse_response, try_except.
    destruct (parse_body json_loads py_repr any); eauto.
Qed.

End ParserClaims.

Lemma parse_response_fallback_witness :
  _parse_response JsonSubset.loads JsonSubset.repr "I could not read this resume."
  = Ok fallback_record.
Proof.
  apply (parse_response_fallback JsonSubset.loads JsonSubset.repr
           "I could not read this resume.").
  left. simpl. intuition discriminate.
Defined.

(** The fallback record is not empty outside its name and score: the
    text of its gap analysis is a sentence of its own, which is not
    the one given to a decoded reply without gaps either. *)
Lemma parse_response_fallback_gap_text :
  _parse_response JsonSubset.loads JsonSubset.repr "I could not read this resume."
  = Ok fallback_record /\
  dict_get "gap_analysis_text" fallback_record = Some (PStr "No analysis available.") /\
  dict_get "gap_analysis_text" fallback_record <> Some (PStr "") /\
  exists record,
    _parse_response JsonSubset.loads JsonSubset.repr (JsonSubset.text "{}") = Ok record /\
    dict_get "gap_analysis_text" record = Some (PStr "No significant gaps identified.").
Proof.
  split; [reflexivity|]. split; [reflexivity|]. split; [discriminate|].
  eexists. split; reflexivity.
Qed.

Lemma parse_response_example_decode_error :
  _parse_response JsonSubset.loads JsonSubset.repr
    (JsonSubset.text "Here you go: {'name': 'Ada', 'skills': [Go]}")
  = Ok fallback_record.
Proof. reflexivity. Qed.

(** C3 (as amended). When the brace span of the reply decodes to an
    object, [_parse_response] returns a record with all twelve required
    fields and an integer [experience], which is 0 when the reply has
    no numeric experience; a missing required field is first given the
    empty list (list-typed fields) or the empty string (scalar fields).
    Whether the record is the normalized reply is decided by the
    decoded object alone. When it is normalizable (no infinite
    experience, strings only in the lists that are joined and in the
    parts of an entry that are concatenated), no step raises and the
    record is the normalized reply: a numeric experience is its integer
    value, a skills array is the comma-joined text of its strings, and
    the scalar fields and [work_history] are as decoded or defaulted.
    When it is not, a step raises and the record is the fixed fallback
    record. *)
Theorem parse_response_normalizes
    (json_loads : string -> exc pyval) (py_repr : pyval -> string)
    (response span : string) (info : pydict) :
  json_span response = Some span ->
  json_loads span = Ok (PDict info) ->
  exists record,
    _parse_response json_loads py_repr response = Ok record /\
    Forall (fun field => dict_has field record = true) required_fields /\
    (forall field, In field required_fields -> dict_get field info = None ->
       dict_get field (ensure_required_fields info) = Some (default_of field)) /\
    (exists n, dict_get "experience" record = Some (PInt n)) /\
    (experience_not_numeric info -> dict_get "experience" record = Some (PInt 0)) /\
    if normalizable info then
      normalize py_repr info = Ok record /\
      (forall v n, dict_get "experience" info = Some v -> py_int v = Ok n ->
         dict_get "experience" record = Some (PInt n)) /\
      (forall l, dict_get "skills" info = Some (PList l) ->
         exists ss, strs_of l = Some ss /\
                    dict_get "skills" record = Some (PStr (PyStr.join ", " ss))) /\
      (forall field,
         In field ["name"; "email"; "phone"; "location"; "linkedin"; "github";
                   "work_history"] ->
         dict_get field record = dict_get field (ensure_required_fields info))
    else
      (exists e, normalize py_repr info = Raise e) /\ record = fallback_record.
Proof.
  intros Hspan Hloads.
  pose proof (parse_body_decoded json_loads py_repr _ _ _ Hspan Hloads) as Hbody.
  assert (Hdefault : forall field, In field required_fields -> dict_get field info = None ->
            dict_get field (ensure_required_fields info) = Some (default_of field)).
  { intros field Hin Hnone. rewrite ensure_required_get, Hnone.
    replace (existsb (String.eqb field) required_fields) with true; [reflexivity|].
    symmetry. apply existsb_exists. exists field. split; [assumption | apply String.eqb_refl]. }
  pose proof (normalize_is_ok py_repr info) as Hok.
  unfold _parse_response. rewrite Hbody.
  destruct (normalize py_repr info) as [r|e] eqn:E; simpl in Hok; rewrite <- Hok; simpl.
  - exists r. apply normalize_ok in E.
    destruct (normalized_experience _ _ E) as (n & Hexp & Hzero & Hnum).
    split; [reflexivity|]. split.
    { apply List.Forall_forall. intros field Hin.
      now apply (normalized_has_required _ _ _ E). }
    split; [exact Hdefault|]. split; [eauto|]. split.
    { intros Hnot. now rewrite Hexp, (Hzero Hnot). }
    split; [reflexivity|]. split.
    { intros v m Hv Hm. now rewrite Hexp, (Hnum v m Hv Hm). }
    split.
    { intros l Hl.
      assert (Hstrs : forallb is_str l = true).
      { symmetry in Hok. unfold normalizable in Hok.
        repeat (apply andb_prop in Hok; destruct Hok as [Hok ?]).
        match goal with
        | H : list_field_passes (forallb is_str) "skills" info = true |- _ =>
            unfold list_field_passes in H; rewrite Hl in H; exact H
        end. }
      destruct (strs_of l) as [ss|] eqn:Hss.
      - exists ss. split; [reflexivity|]. now apply (normalized_skills info r l ss E).
      - exfalso. pose proof (py_join_is_ok ", " l) as Hj. unfold py_join in Hj.
        rewrite Hss, Hstrs in Hj. discriminate Hj. }
    intros field Hin. now apply normalized_scalar.
  - exists fallback_record.
    split; [reflexivity|]. split; [apply fallback_has_required|].
    split; [exact Hdefault|]. split; [exists 0; reflexivity|].
    split; [reflexivity|]. split; [eauto | reflexivity].
Qed.

(** The example of the specification: a non-numeric experience and a
    skills array, the other required fields empty. *)
Lemma parse_response_normalizes_witness :
  exists record,
    _parse_response JsonSubset.loads JsonSubset.repr
      (JsonSubset.text
         "{'name': '', 'email': '', 'phone': '', 'location': '', 'experience': 'five', 'skills': ['Go','Rust'], 'work_history': [], 'education': [], 'linkedin': '', 'github': '', 'languages': [], 'certifications': []}")
    = Ok record /\
    dict_get "experience" record = Some (PInt 0) /\
    dict_get "skills" record = Some (PStr "Go, Rust").
Proof.
  destruct (parse_response_normalizes JsonSubset.loads JsonSubset.repr
              (JsonSubset.text
                 "{'name': '', 'email': '', 'phone': '', 'location': '', 'experience': 'five', 'skills': ['Go','Rust'], 'work_history': [], 'education': [], 'linkedin': '', 'github': '', 'languages': [], 'certifications': []}")
              (JsonSubset.text
                 "{'name': '', 'email': '', 'phone': '', 'location': '', 'experience': 'five', 'skills': ['Go','Rust'], 'work_history': [], 'education': [], 'linkedin': '', 'github': '', 'languages': [], 'certifications': []}")
              [("name", PStr ""); ("email", PStr ""); ("phone", PStr "");
               ("location", PStr ""); ("experience", PStr "five");
               ("skills", PList [PStr "Go"; PStr "Rust"]); ("work_history", PList []);
               ("education", PList []); ("linkedin", PStr ""); ("github", PStr "");
               ("languages", PList []); ("certifications", PList [])]
              eq_refl eq_refl)
    as (record & Hret & _ & _ & _ & Hexp & Hnorm).
  exists record. split; [exact Hret|]. split.
  - apply Hexp. reflexivity.
  - cbn [normalizable] in Hnorm.
    destruct Hnorm as (_ & _ & Hskills & _).
    destruct (Hskills _ eq_refl) as (ss & Hss & Hjoined).
    injection Hss as <-. exact Hjoined.
Defined.

(** The reply holds a decodable object with a skills array of strings,
    yet the record returned is the fallback one, with empty skills: the
    join of the certifications raised on a number. The same happens
    when the reply holds two objects, each decodable, since the span
    from the first opening brace to the last closing one is not. *)
Lemma parse_response_skills_not_joined :
  JsonSubset.loads (JsonSubset.text "{'skills': ['Go','Rust'], 'certifications': [1]}")
  = Ok (PDict [("skills", PList [PStr "Go"; PStr "Rust"]);
               ("certifications", PList [PInt 1])]) /\
  _parse_response JsonSubset.loads JsonSubset.repr
    (JsonSubset.text "{'skills': ['Go','Rust'], 'certifications': [1]}")
  = Ok fallback_record /\
  JsonSubset.loads (JsonSubset.text "{'skills': ['Go']}")
  = Ok (PDict [("skills", PList [PStr "Go"])]) /\
  _parse_response JsonSubset.loads JsonSubset.repr
    (JsonSubset.text "{'skills': ['Go']} or else {'skills': ['Rust']}")
  = Ok fallback_record /\
  dict_get "skills" fallback_record = Some (PStr "").
Proof. repeat split. Qed.

(** ** Education entries *)

Example education_entry_full py_repr :
  format_education_entry py_repr
    [("degree", PStr "BSc"); ("institution", PStr "X University"); ("year", PInt 2020)]
  = Ok "BSc from X University (2020)".
Proof. reflexivity. Qed.

Example education_entry_institution_only py_repr :
  format_education_entry py_repr [("institution", PStr "X")] = Ok "X".
Proof. reflexivity. Qed.

Example education_entries_joined py_repr :
  format_education py_repr
    [("education",
      PList [PDict [("degree", PStr "BSc"); ("institution", PStr "X University");
                    ("year", PInt 2020); ("field", PStr "Physics")];
             PStr "not an entry";
             PDict [("institution", PStr "X")]])]
  = Ok [("education", PStr "BSc from X University (2020), Physics; X")].
Proof. reflexivity. Qed.

(** C8. The [" from "] connector is left out when no degree precedes
    it, but the comma before the field is not guarded: an entry with
    only a field of study is flattened to a text that starts with the
    connector, and an entry with only a year starts with a blank. *)
Theorem education_entry_field_only (py_repr : pyval -> string) :
  format_education_entry py_repr [("field", PStr "Computer Science")]
  = Ok ", Computer Science" /\
  format_education_entry py_repr [("institution", PStr "X"); ("field", PStr "Physics")]
  = Ok "X, Physics" /\
  format_education_entry py_repr [("year", PInt 2020)] = Ok " (2020)".
Proof. repeat split. Qed.

(** ** analyze_document and analyze_document_with_filters *)

Lemma take_length n s :
  (n <= String.length s)%nat -> String.length (PyStr.take n s) = n.
Proof.
  unfold PyStr.take. revert s. induction n as [|n IH]; intros s Hn.
  - now destruct s.
  - destruct s as [|a s]; simpl in *; [lia|]. rewrite IH by lia. reflexivity.
Qed.

(** The text is rejected exactly when it has fewer than 50 characters
    (the empty text included): the truncation keeps 30000 of them. *)
Lemma unreadable_iff text :
  unreadable (truncate_text text) = true <-> (String.length text < 50)%nat.
Proof.
  unfold unreadable, truncate_text, PyStr.len.
  destruct (30000 <? Z.of_nat (String.length text)) eqn:Hlong.
  - apply Z.ltb_lt in Hlong.
    rewrite take_length by lia.
    assert (Hne : nonempty (PyStr.take (Z.to_nat 30000) text) = true).
    { destruct text as [|a text]; [simpl in Hlong; lia|].
      unfold PyStr.take. replace (Z.to_nat 30000) with (S (Z.to_nat 29999)) by lia.
      reflexivity. }
    rewrite Hne. simpl. split; [intros H; apply Z.ltb_lt in H; lia | lia].
  - apply Z.ltb_ge in Hlong. rewrite orb_true_iff, negb_true_iff, Z.ltb_lt.
    split; [|lia]. intros [H|H]; [|lia]. destruct text; [simpl; lia | discriminate].
Qed.

Section ProcessorClaims.

Variable GEMINI_AVAILABLE : bool.
Variable get_text_from_file : string -> string.
Variable generate_content : nat -> string -> exc string.
Variable uniform_jitter : nat -> Q.
Variable _create_resume_parsing_prompt : string -> string -> string.
Variable _create_resume_parsing_prompt_with_filters : string -> pyval -> string -> exc string.
Variable json_loads : string -> exc pyval.
Variable py_repr : pyval -> string.

Local Abbreviation analyze :=
  (analyze_document GEMINI_AVAILABLE get_text_from_file generate_content uniform_jitter
     _create_resume_parsing_prompt json_loads py_repr).
Local Abbreviation analyze_body :=
  (analyze_document_body GEMINI_AVAILABLE get_text_from_file generate_content uniform_jitter
     _create_resume_parsing_prompt json_loads py_repr).
Local Abbreviation analyze_filtered :=
  (analyze_document_with_filters GEMINI_AVAILABLE get_text_from_file generate_content
     uniform_jitter _create_resume_parsing_prompt_with_filters json_loads py_repr).
Local Abbreviation analyze_filtered_body :=
  (analyze_document_with_filters_body GEMINI_AVAILABLE get_text_from_file generate_content
     uniform_jitter _create_resume_parsing_prompt_with_filters json_loads py_repr).
Local Abbreviation call_with_retry :=
  (_call_gemini_with_retry GEMINI_AVAILABLE generate_content uniform_jitter).

(** Both entry points hand back a record, whatever happens inside. *)
Lemma analyze_document_returns file_path w :
  exists record w', analyze file_path w = (Ok record, w').
Proof.
  unfold analyze_document, M_try, M_ret.
  destruct (negb GEMINI_AVAILABLE); [eauto|].
  destruct (analyze_body file_path w) as [[record|e] w']; eauto.
Qed.

Lemma analyze_document_with_filters_returns file_path user_filters w :
  exists record w', analyze_filtered file_path user_filters w = (Ok record, w').
Proof.
  unfold analyze_document_with_filters, M_try, M_ret.
  destruct (negb GEMINI_AVAILABLE); [eauto|].
  destruct (analyze_filtered_body file_path user_filters w) as [[record|e] w']; eauto.
Qed.

(** An exception of the [try] block becomes the error record. *)
Lemma analyze_document_caught file_path w e w' :
  GEMINI_AVAILABLE = true ->
  analyze_body file_path w = (Raise e, w') ->
  analyze file_path w = (Ok (error_record file_path (exn_msg e)), w').
Proof.
  intros Hav Hbody. unfold analyze_document. rewrite Hav in Hbody |- *.
  unfold M_try. cbn [negb]. rewrite Hbody. reflexivity.
Qed.

Lemma analyze_document_with_filters_caught file_path user_filters w e w' :
  GEMINI_AVAILABLE = true ->
  analyze_filtered_body file_path user_filters w = (Raise e, w') ->
  analyze_filtered file_path user_filters w
  = (Ok (error_record_with_filters file_path (exn_msg e)), w').
Proof.
  intros Hav Hbody. unfold analyze_document_with_filters. rewrite Hav in Hbody |- *.
  unfold M_try. cbn [negb]. rewrite Hbody. reflexivity.
Qed.

(** The retry wrapper giving up is one such exception. *)
Lemma analyze_document_retries_exhausted file_path w e w' :
  GEMINI_AVAILABLE = true ->
  unreadable (truncate_text (get_text_from_file file_path)) = false ->
  call_with_retry
    (_create_resume_parsing_prompt (truncate_text (get_text_from_file file_path))
       (name_hint file_path))
    default_max_retries w = (Raise e, w') ->
  analyze file_path w = (Ok (error_record file_path (exn_msg e)), w').
Proof.
  intros Hav Htext Hcall. apply analyze_document_caught; [assumption|].
  unfold analyze_document_body, M_bind. rewrite Htext, Hcall. reflexivity.
Qed.

(** C10. On the error path ([except] clause) the record returned by
    [analyze_document] has exactly the ten keys name, email, phone,
    education, experience, skills, location, filename, file_path and
    error; [analyze_document_with_filters] adds match_score. Its name is
    ["Error: "], the first 50 characters of the message and ["..."]. So
    it has none of linkedin, github, languages, certifications,
    work_history and work_history_summary, which every record coming
    out of [_parse_response] has. (The records returned when the client
    library is missing have the same keys, and a fixed name.) *)
Theorem error_record_shape (file_path : string) (user_filters : pyval) (w : World) :
  GEMINI_AVAILABLE = true ->
  (forall e w', analyze_body file_path w = (Raise e, w') ->
     analyze file_path w = (Ok (error_record file_path (exn_msg e)), w')) /\
  (forall e w', analyze_filtered_body file_path user_filters w = (Raise e, w') ->
     analyze_filtered file_path user_filters w
     = (Ok (error_record_with_filters file_path (exn_msg e)), w')) /\
  (forall msg,
     dict_keys (error_record file_path msg)
     = ["name"; "email"; "phone"; "education"; "experience"; "skills"; "location";
        "filename"; "file_path"; "error"] /\
     dict_keys (error_record_with_filters file_path msg)
     = ["name"; "email"; "phone"; "education"; "experience"; "skills"; "location";
        "match_score"; "filename"; "file_path"; "error"] /\
     dict_get "name" (error_record file_path msg)
     = Some (PStr ("Error: " +:+ PyStr.take 50 msg +:+ "...")) /\
     dict_get "name" (error_record_with_filters file_path msg)
     = Some (PStr ("Error: " +:+ PyStr.take 50 msg +:+ "...")) /\
     Forall (fun field => dict_has field (error_record file_path msg) = false
                          /\ dict_has field (error_record_with_filters file_path msg) = false)
       ["linkedin"; "github"; "languages"; "certifications"; "work_history";
        "work_history_summary"] /\
     dict_keys (unavailable_record file_path) = dict_keys (error_record file_path msg) /\
     dict_keys (unavailable_record_with_filters file_path)
     = dict_keys (error_record_with_filters file_path msg)) /\
  (forall response record,
     _parse_response json_loads py_repr response = Ok record ->
     Forall (fun field => dict_has field record = true)
       ["linkedin"; "github"; "languages"; "certifications"; "work_history";
        "work_history_summary"]).
Proof.
  intros Hav. split; [|split; [|split]].
  - intros e w'. now apply analyze_document_caught.
  - intros e w'. now apply analyze_document_with_filters_caught.
  - intros msg. repeat split; repeat constructor.
  - intros response record. apply parsed_record_fields.
Qed.

(** C2 (as amended). Neither entry point lets an exception out. A text
    shorter than 50 characters (the empty one included) gives the error
    record of the "Failed to extract meaningful text" message, or the
    fixed record of the missing client library; any exception of the
    [try] block, the retry wrapper giving up included, gives the error
    record of its message. That record carries the message under
    [error], experience 0, empty email, phone, location, education and
    skills, and a name made of ["Error: "] and the start of the
    message. *)
Theorem analyze_document_error_record (file_path : string) (user_filters : pyval) (w : World) :
  (String.length (get_text_from_file file_path) < 50)%nat ->
  analyze file_path w
  = (Ok (if GEMINI_AVAILABLE
         then error_record file_path
                ("Failed to extract meaningful text from " +:+ file_path
                   +:+ ". Text length: "
                   +:+ PyStr.of_Z (PyStr.len (get_text_from_file file_path)))
         else unavailable_record file_path), w) /\
  analyze_filtered file_path user_filters w
  = (Ok (if GEMINI_AVAILABLE
         then error_record_with_filters file_path
                ("Failed to extract meaningful text from " +:+ file_path +:+ ".")
         else unavailable_record_with_filters file_path), w) /\
  (forall any_path any_filters w0,
     (exists record w1, analyze any_path w0 = (Ok record, w1)) /\
     (exists record w1, analyze_filtered any_path any_filters w0 = (Ok record, w1)) /\
     (forall e w1, GEMINI_AVAILABLE = true ->
        analyze_body any_path w0 = (Raise e, w1) ->
        analyze any_path w0 = (Ok (error_record any_path (exn_msg e)), w1)) /\
     (forall e w1, GEMINI_AVAILABLE = true ->
        analyze_filtered_body any_path any_filters w0 = (Raise e, w1) ->
        analyze_filtered any_path any_filters w0
        = (Ok (error_record_with_filters any_path (exn_msg e)), w1)) /\
     (forall e w1, GEMINI_AVAILABLE = true ->
        unreadable (truncate_text (get_text_from_file any_path)) = false ->
        call_with_retry
          (_create_resume_parsing_prompt (truncate_text (get_text_from_file any_path))
             (name_hint any_path))
          default_max_retries w0 = (Raise e, w1) ->
        analyze any_path w0 = (Ok (error_record any_path (exn_msg e)), w1))) /\
  (forall any_path msg,
     Forall (fun record =>
               dict_get "error" record = Some (PStr msg) /\
               dict_get "experience" record = Some (PInt 0) /\
               dict_get "name" record
               = Some (PStr ("Error: " +:+ PyStr.take 50 msg +:+ "...")) /\
               Forall (fun field => dict_get field record = Some (PStr ""))
                 ["email"; "phone"; "location"; "education"; "skills"])
       [error_record any_path msg; error_record_with_filters any_path msg]) /\
  (forall any_path,
     Forall (fun record =>
               dict_get "error" record = Some (PStr not_installed) /\
               dict_get "experience" record = Some (PInt 0) /\
               Forall (fun field => dict_get field record = Some (PStr ""))
                 ["email"; "phone"; "location"; "education"; "skills"])
       [unavailable_record any_path; unavailable_record_with_filters any_path]).
Proof.
  intros Hshort. apply unreadable_iff in Hshort.
  assert (Hsame : truncate_text (get_text_from_file file_path) = get_text_from_file file_path).
  { unfold truncate_text.
    destruct (30000 <? PyStr.len (get_text_from_file file_path)) eqn:Hlong; [|reflexivity].
    exfalso. apply Z.ltb_lt in Hlong. revert Hshort. unfold unreadable, truncate_text.
    rewrite (proj2 (Z.ltb_lt _ _) Hlong). unfold PyStr.len in *.
    rewrite take_length by lia.
    rewrite orb_true_iff, negb_true_iff, Z.ltb_lt. intros [H|H]; [|lia].
    destruct (get_text_from_file file_path); [simpl in Hlong; lia|].
    unfold PyStr.take in H. replace (Z.to_nat 30000) with (S (Z.to_nat 29999)) in H by lia.
    discriminate H. }
  split; [|split; [|split; [|split]]].
  - unfold analyze_document, M_try, M_ret, analyze_document_body.
    destruct GEMINI_AVAILABLE; [|reflexivity]. cbn [negb].
    rewrite Hshort, Hsame. reflexivity.
  - unfold analyze_document_with_filters, M_try, M_ret, analyze_document_with_filters_body.
    destruct GEMINI_AVAILABLE; [|reflexivity]. cbn [negb].
    rewrite Hshort. reflexivity.
  - intros any_path any_filters w0. split; [|split; [|split; [|split]]].
    + apply analyze_document_returns.
    + apply analyze_document_with_filters_returns.
    + intros e w1 Hav. now apply analyze_document_caught.
    + intros e w1 Hav. now apply analyze_document_with_filters_caught.
    + intros e w1 Hav. now apply analyze_document_retries_exhausted.
  - intros any_path msg. repeat constructor.
  - intros any_path. repeat constructor.
Qed.

End ProcessorClaims.

Lemma error_record_shape_witness :
  analyze_document true Demo.get_text Demo.flaky_model Demo.jitter Demo.prompt
    JsonSubset.loads JsonSubset.repr "data/uploads/empty.pdf" initial_world
  = (Ok (error_record "data/uploads/empty.pdf"
           "Failed to extract meaningful text from data/uploads/empty.pdf. Text length: 0"),
     initial_world).
Proof.
  destruct (error_record_shape true Demo.get_text Demo.flaky_model Demo.jitter
              Demo.prompt Demo.prompt_with_filters JsonSubset.loads JsonSubset.repr
              "data/uploads/empty.pdf" PNone initial_world eq_refl) as (Hcaught & _).
  apply (Hcaught
           (mk_exn ValueError
              "Failed to extract meaningful text from data/uploads/empty.pdf. Text length: 0")
           initial_world).
  reflexivity.
Defined.

Lemma analyze_document_error_record_witness :
  (String.length (Demo.get_text "data/uploads/scan.pdf") < 50)%nat /\
  analyze_document true Demo.get_text Demo.flaky_model Demo.jitter Demo.prompt
    JsonSubset.loads JsonSubset.repr "data/uploads/scan.pdf" initial_world
  = (Ok (error_record "data/uploads/scan.pdf"
           "Failed to extract meaningful text from data/uploads/scan.pdf. Text length: 6"),
     initial_world).
Proof.
  assert (Hshort : (String.length (Demo.get_text "data/uploads/scan.pdf") < 50)%nat)
    by (vm_compute; lia).
  split; [exact Hshort|].
  exact (proj1 (analyze_document_error_record true Demo.get_text Demo.flaky_model
                  Demo.jitter Demo.prompt Demo.prompt_with_filters JsonSubset.loads
                  JsonSubset.repr "data/uploads/scan.pdf" PNone initial_world Hshort)).
Defined.

(** The text of the file is empty, and the record returned has a name
    that is not: it starts with ["Error: "]. *)
Lemma analyze_document_error_name_not_empty :
  Demo.get_text "data/uploads/empty.pdf" = "" /\
  fst (analyze_document true Demo.get_text Demo.flaky_model Demo.jitter Demo.prompt
         JsonSubset.loads JsonSubset.repr "data/uploads/empty.pdf" initial_world)
  = Ok (error_record "data/uploads/empty.pdf"
          "Failed to extract meaningful text from data/uploads/empty.pdf. Text length: 0") /\
  dict_get "name"
    (error_record "data/uploads/empty.pdf"
       "Failed to extract meaningful text from data/uploads/empty.pdf. Text length: 0")
  = Some (PStr "Error: Failed to extract meaningful text from data/upload...").
Proof. repeat split. Qed.

(** ** The retry wrapper *)

Lemma count_events_app p (l1 l2 : list event) :
  count_events p (l1 ++ l2)%list = (count_events p l1 + count_events p l2)%nat.
Proof. unfold count_events. now rewrite List.filter_app, List.length_app. Qed.

Section RetryClaims.

Variable generate_content : nat -> string -> exc string.
Variable uniform_jitter : nat -> Q.

Local Abbreviation loop := (retry_loop true generate_content uniform_jitter).

Lemma retry_loop_failure prompt max_retries remaining last w e :
  generate_content (model_calls w) prompt = Raise e ->
  loop prompt max_retries (S remaining) last w
  = loop prompt max_retries remaining (Some (wrapped e))
      (after_failed_attempt uniform_jitter prompt w).
Proof.
  intros Hcall. simpl. unfold _call_gemini. cbn [negb].
  replace (model_calls (limiter_wait w)) with (model_calls w) by reflexivity.
  rewrite Hcall. reflexivity.
Qed.

Lemma retry_loop_success prompt max_retries remaining last w reply :
  generate_content (model_calls w) prompt = Ok reply ->
  loop prompt max_retries (S remaining) last w
  = (Ok reply, after_successful_attempt prompt w).
Proof.
  intros Hcall. simpl. unfold _call_gemini. cbn [negb].
  replace (model_calls (limiter_wait w)) with (model_calls w) by reflexivity.
  rewrite Hcall. reflexivity.
Qed.

Lemma after_failed_attempt_calls prompt w :
  model_calls (after_failed_attempt uniform_jitter prompt w) = S (model_calls w).
Proof. reflexivity. Qed.

Lemma after_failed_attempt_events prompt w :
  exists slept delay,
    events (after_failed_attempt uniform_jitter prompt w)
    = (events w ++ [EvWait slept; EvCall prompt; EvFailure delay; EvSleep delay])%list.
Proof.
  eexists _, _. unfold after_failed_attempt. cbn. rewrite <- !app_assoc. reflexivity.
Qed.

Lemma after_successful_attempt_events prompt w :
  exists slept,
    events (after_successful_attempt prompt w)
    = (events w ++ [EvWait slept; EvCall prompt; EvSuccess])%list.
Proof.
  eexists. unfold after_successful_attempt. cbn. rewrite <- !app_assoc. reflexivity.
Qed.

(** When every attempt fails, the loop ends in the terminal error,
    whose message carries the message of the last exception. *)
Lemma retry_loop_exhausted prompt max_retries (err : nat -> pyexn) remaining :
  forall last w,
    (forall k, (k < remaining)%nat ->
       generate_content (model_calls w + k)%nat prompt = Raise (err k)) ->
    exists w',
      loop prompt max_retries remaining last w
      = (Raise (mk_exn OtherException
                  ("Maximum retries (" +:+ PyStr.of_Z max_retries +:+ ") exceeded: "
                     +:+ str_of_last
                           (match remaining with
                            | O => last
                            | S n => Some (wrapped (err n))
                            end))), w') /\
      count_events is_failure (events w')
      = (count_events is_failure (events w) + remaining)%nat /\
      count_events is_success (events w') = count_events is_success (events w).
Proof.
  revert err. induction remaining as [|n IH]; intros err last w Hall.
  - exists w. split; [reflexivity|]. split; [lia | reflexivity].
  - assert (H0 : generate_content (model_calls w) prompt = Raise (err 0%nat)).
    { rewrite <- (Hall 0%nat) by lia. f_equal. lia. }
    rewrite (retry_loop_failure _ _ _ _ _ _ H0).
    destruct (IH (fun k => err (S k)) (Some (wrapped (err 0%nat)))
                (after_failed_attempt uniform_jitter prompt w)) as (w' & Hrun & Hf & Hs).
    { intros k Hk. rewrite after_failed_attempt_calls.
      rewrite <- (Hall (S k)) by lia. f_equal. lia. }
    exists w'. split; [|split].
    + rewrite Hrun. destruct n; reflexivity.
    + rewrite Hf. destruct (after_failed_attempt_events prompt w) as (s & d & ->).
      rewrite count_events_app. unfold count_events. simpl. lia.
    + rewrite Hs. destruct (after_failed_attempt_events prompt w) as (s & d & ->).
      rewrite count_events_app. unfold count_events. simpl. lia.
Qed.

End RetryClaims.

(** C5. With the client library present: when the model call fails on
    the first two attempts and answers on the third, the retry wrapper
    returns that answer, having called [wait()] before each of the three
    attempts, [failure()] (followed by the sleep it asked for) after
    each of the two failures, and [success()] once. And when all of the
    [max_retries] attempts fail, it raises an exception whose message
    ends with the message of the last failure. *)
Theorem retry_wrapper_behaviour
    (generate_content : nat -> string -> exc string) (uniform_jitter : nat -> Q)
    (prompt : string) (w : World) (e1 e2 : pyexn) (reply : string) :
  generate_content (model_calls w) prompt = Raise e1 ->
  generate_content (S (model_calls w)) prompt = Raise e2 ->
  generate_content (S (S (model_calls w))) prompt = Ok reply ->
  (exists w' s1 s2 s3 d1 d2,
     _call_gemini_with_retry true generate_content uniform_jitter prompt
       default_max_retries w = (Ok reply, w') /\
     events w'
     = (events w ++ [EvWait s1; EvCall prompt; EvFailure d1; EvSleep d1;
                     EvWait s2; EvCall prompt; EvFailure d2; EvSleep d2;
                     EvWait s3; EvCall prompt; EvSuccess])%list /\
     count_events is_failure (events w') = (count_events is_failure (events w) + 2)%nat /\
     count_events is_success (events w') = (count_events is_success (events w) + 1)%nat /\
     count_events is_wait (events w') = (count_events is_wait (events w) + 3)%nat /\
     count_events is_call (events w') = (count_events is_call (events w) + 3)%nat) /\
  (forall (failing : nat -> string -> exc string) (err : nat -> pyexn)
          (max_retries : Z) (w0 : World),
     1 <= max_retries ->
     (forall k, (k < Z.to_nat max_retries)%nat ->
        failing (model_calls w0 + k)%nat prompt = Raise (err k)) ->
     exists w1,
       _call_gemini_with_retry true failing uniform_jitter prompt max_retries w0
       = (Raise (mk_exn OtherException
                   ("Maximum retries (" +:+ PyStr.of_Z max_retries
                      +:+ ") exceeded: Gemini API call failed: "
                      +:+ exn_msg (err (Z.to_nat max_retries - 1)%nat))), w1) /\
       count_events is_failure (events w1)
       = (count_events is_failure (events w0) + Z.to_nat max_retries)%nat /\
       count_events is_success (events w1) = count_events is_success (events w0)).
Proof.
  intros H1 H2 H3. split.
  - unfold _call_gemini_with_retry, default_max_retries. cbn [negb].
    change (Z.to_nat 3) with 3%nat.
    rewrite (retry_loop_failure _ _ _ _ _ _ _ _ H1).
    rewrite (retry_loop_failure generate_content uniform_jitter prompt 3 1 _
               (after_failed_attempt uniform_jitter prompt w) e2)
      by (rewrite after_failed_attempt_calls; exact H2).
    rewrite (retry_loop_success generate_content uniform_jitter prompt 3 0 _
               (after_failed_attempt uniform_jitter prompt
                  (after_failed_attempt uniform_jitter prompt w)) reply)
      by (rewrite !after_failed_attempt_calls; exact H3).
    destruct (after_failed_attempt_events uniform_jitter prompt w) as (s1 & d1 & Hev1).
    destruct (after_failed_attempt_events uniform_jitter prompt
                (after_failed_attempt uniform_jitter prompt w)) as (s2 & d2 & Hev2).
    destruct (after_successful_attempt_events prompt
                (after_failed_attempt uniform_jitter prompt
                   (after_failed_attempt uniform_jitter prompt w))) as (s3 & Hev3).
    rewrite Hev2, Hev1 in Hev3. rewrite <- !app_assoc in Hev3. cbn [app] in Hev3.
    eexists _, s1, s2, s3, d1, d2. split; [reflexivity|].
    split; [exact Hev3|].
    rewrite Hev3, !count_events_app. unfold count_events. simpl. repeat split; lia.
  - intros failing err max_retries w0 Hpos Hall.
    unfold _call_gemini_with_retry. cbn [negb].
    destruct (retry_loop_exhausted failing uniform_jitter prompt max_retries err
                (Z.to_nat max_retries) None w0 Hall) as (w1 & Hrun & Hf & Hs).
    exists w1. split; [|split; assumption].
    rewrite Hrun. destruct (Z.to_nat max_retries) as [|n] eqn:Hn; [lia|].
    replace (S n - 1)%nat with n by lia. unfold wrapped, str_of_last. simpl.
    reflexivity.
Qed.

Lemma retry_wrapper_behaviour_witness :
  fst (_call_gemini_with_retry true Demo.flaky_model Demo.jitter "prompt"
         default_max_retries initial_world)
  = Ok (JsonSubset.text "{'name': 'Ada Lovelace', 'experience': 5, 'skills': ['Go','Rust']}").
Proof.
  destruct (retry_wrapper_behaviour Demo.flaky_model Demo.jitter "prompt" initial_world
              Demo.quota_error Demo.quota_error
              (JsonSubset.text "{'name': 'Ada Lovelace', 'experience': 5, 'skills': ['Go','Rust']}")
              eq_refl eq_refl eq_refl)
    as ((w' & s1 & s2 & s3 & d1 & d2 & Hrun & _) & _).
  rewrite Hrun. reflexivity.
Defined.

Example retry_wrapper_gives_up :
  fst (_call_gemini_with_retry true Demo.dead_model Demo.jitter "prompt"
         default_max_retries initial_world)
  = raise OtherException
      "Maximum retries (3) exceeded: Gemini API call failed: timeout on call 2".
Proof. reflexivity. Qed.

(** ** RateLimiter *)

(** With the default [initial_delay] of 1 second and the default
    backoff factor, the delay stays between 1 and [max_delay] under
    every sequence of calls. *)
Lemma default_delay_within (max_delay : Q) (calls : list RateLimiter.call) :
  (1 <= max_delay)%Q ->
  Forall RateLimiter.jitter_in_range calls ->
  RateLimiter.within 1 (RateLimiter.apply_calls (RateLimiter.init 1 max_delay 1.5) calls).
Proof.
  intros Hmax Hcalls. unfold RateLimiter.apply_calls.
  assert (Hinv : RateLimiter.within 1 (RateLimiter.init 1 max_delay 1.5) /\
                 RateLimiter.max_delay (RateLimiter.init 1 max_delay 1.5) = max_delay /\
                 RateLimiter.backoff_factor (RateLimiter.init 1 max_delay 1.5) = 1.5%Q).
  { unfold RateLimiter.within. simpl. repeat split; [apply Qle_refl | assumption]. }
  revert Hinv. generalize (RateLimiter.init 1 max_delay 1.5).
  induction Hcalls as [|c calls Hc Hcalls IH]; intros r Hinv; simpl.
  - apply Hinv.
  - apply IH. destruct Hinv as ((Hlo & Hhi) & Hm & Hb).
    destruct c as [|jitter]; unfold RateLimiter.within; simpl;
      rewrite ?Hm, ?Hb in *; (split; [split|split; reflexivity]).
    + apply Q.max_le_iff. right. apply Qle_refl.
    + apply Q.max_lub; [|assumption].
      apply Qle_trans with (RateLimiter.current_delay r); [|assumption].
      apply Qle_shift_div_r; [reflexivity|]. lra.
    + destruct Hc as [Hj1 Hj2]. apply Q.min_glb; [|assumption]. nra.
    + apply Q.le_min_r.
Qed.

(** C6. [success()] floors the delay at the constant 1, not at the
    [initial_delay] the limiter was built with: for a limiter built with
    [initial_delay = 5] and [max_delay = 60] the invariant holds at
    construction, and one [success()] brings the delay to 25/6, below
    [initial_delay]; for [initial_delay = 1/2] and [max_delay = 4/5] it
    brings the delay to 1, above [max_delay]. *)
Theorem success_leaves_delay_bounds :
  RateLimiter.within 5 (RateLimiter.init 5 60 1.5) /\
  (RateLimiter.current_delay (RateLimiter.success (RateLimiter.init 5 60 1.5)) == 25 # 6)%Q /\
  (RateLimiter.current_delay (RateLimiter.success (RateLimiter.init 5 60 1.5)) < 5)%Q /\
  RateLimiter.within 0.5 (RateLimiter.init 0.5 0.8 1.5) /\
  (RateLimiter.max_delay (RateLimiter.success (RateLimiter.init 0.5 0.8 1.5))
   < RateLimiter.current_delay (RateLimiter.success (RateLimiter.init 0.5 0.8 1.5)))%Q.
Proof.
  unfold RateLimiter.within. repeat split; vm_compute; congruence.
Qed.

(** ** ProcessingQueue *)

Lemma add_task_id file_path user_filters q :
  fst (fst (add_task file_path user_filters q)) = PyPath.stem file_path.
Proof. unfold add_task. now destruct (start_processing _). Qed.

Lemma add_task_results file_path user_filters q :
  results (snd (fst (add_task file_path user_filters q)))
  = <[PyPath.stem file_path := queued_entry]> (results q).
Proof.
  unfold add_task, start_processing, record_queued, queue_put. simpl.
  now destruct (negb (processing q)).
Qed.

(** C1 (as amended). The task id [add_task] returns is the stem of the
    file path. Two enqueues of paths with different stems give two
    different ids, each with its own entry: the entry of the first is
    [queued] after its enqueue and is not touched by the second one,
    whenever that comes. *)
Theorem add_task_ids_by_stem
    (path1 path2 : string) (filters1 filters2 : pyval) (q q' : ProcessingQueue) :
  PyPath.stem path1 <> PyPath.stem path2 ->
  fst (fst (add_task path1 filters1 q)) = PyPath.stem path1 /\
  fst (fst (add_task path2 filters2 q')) = PyPath.stem path2 /\
  fst (fst (add_task path1 filters1 q)) <> fst (fst (add_task path2 filters2 q')) /\
  results (snd (fst (add_task path1 filters1 q))) !! PyPath.stem path1 = Some queued_entry /\
  results (snd (fst (add_task path2 filters2 q'))) !! PyPath.stem path1
  = results q' !! PyPath.stem path1.
Proof.
  intros Hne. rewrite !add_task_id, !add_task_results.
  repeat split; try assumption.
  - apply lookup_insert_eq.
  - apply lookup_insert_ne. congruence.
Qed.

Lemma add_task_ids_by_stem_witness :
  fst (fst (add_task "uploads/ada.pdf" PNone empty_queue))
  <> fst (fst (add_task "uploads/grace.pdf" PNone empty_queue)).
Proof.
  apply (add_task_ids_by_stem "uploads/ada.pdf" "uploads/grace.pdf" PNone PNone
           empty_queue empty_queue).
  vm_compute. discriminate.
Defined.

(** Two different files with the same stem get the same id, and the
    second enqueue replaces the completed entry of the first by a
    queued one. *)
Lemma add_task_same_stem_same_id :
  fst (fst (add_task "uploads/alice/resume.pdf" PNone empty_queue)) = "resume" /\
  fst (fst (add_task "uploads/bob/resume.docx" PNone empty_queue)) = "resume" /\
  results
    (store_outcome "resume" (Ok [("name", PStr "Alice")])
       (snd (fst (add_task "uploads/alice/resume.pdf" PNone empty_queue))))
  !! "resume"
  = Some (outcome_entry (Ok [("name", PStr "Alice")])) /\
  results
    (snd (fst (add_task "uploads/bob/resume.docx" PNone
                 (store_outcome "resume" (Ok [("name", PStr "Alice")])
                    (snd (fst (add_task "uploads/alice/resume.pdf" PNone empty_queue)))))))
  !! "resume"
  = Some queued_entry.
Proof. repeat split; vm_compute; reflexivity. Qed.

(** ** The status of a task under every schedule *)

Lemma lookup_insert_pc (ws : list worker_pc) i j new pc :
  <[i := new]> ws !! j = Some pc ->
  (i = j /\ pc = new) \/ (i <> j /\ ws !! j = Some pc).
Proof.
  intros H. apply list_lookup_insert_Some in H.
  destruct H as [(-> & -> & _)|(Hne & H)]; auto.
Qed.

Lemma lookup_spawned (ws : list worker_pc) j pc :
  (ws ++ [AtLoopHead]) !! j = Some pc -> ws !! j = Some pc \/ pc = AtLoopHead.
Proof.
  intros H. apply lookup_app_Some in H. destruct H as [H|[_ H]]; [now left|].
  right. destruct (j - length ws)%nat; simpl in H; [congruence | discriminate].
Qed.

Lemma holds_insert ws i j new t :
  holds (<[i := new]> ws) j t ->
  (i = j /\ (new = Dequeued t \/ new = Analyzing t)) \/ (i <> j /\ holds ws j t).
Proof.
  unfold holds. intros [H|H]; apply lookup_insert_pc in H;
    destruct H as [[-> <-]|[Hne H]]; auto.
Qed.

Lemma holds_spawned ws j t : holds (ws ++ [AtLoopHead]) j t -> holds ws j t.
Proof.
  unfold holds. intros [H|H]; apply lookup_spawned in H;
    destruct H as [H|H]; auto; discriminate.
Qed.

(** A worker that lets go of its task, or had none, keeps the invariant. *)
Lemma invariant_release seen q res c ws i pc :
  invariant seen q res c ws ->
  (forall t, pc <> Dequeued t /\ pc <> Analyzing t) ->
  invariant seen q res c (<[i := pc]> ws).
Proof.
  intros [Hnd Hhq Hhd Hput Hwait Han Hseen] Hpc.
  assert (Hholds : forall j t, holds (<[i := pc]> ws) j t -> holds ws j t).
  { intros j t H. apply holds_insert in H.
    destruct H as [[_ [Heq|Heq]]|[_ H]]; [destruct (Hpc t); congruence.. | assumption]. }
  split; try assumption.
  - intros j t H. eauto.
  - intros j k t t' Hne H H'. eauto.
  - intros t e [Hin|[j Hj]] Hres; [eauto|].
    apply lookup_insert_pc in Hj. destruct Hj as [[_ Heq]|[_ Hj]]; [|eauto].
    destruct (Hpc t); congruence.
  - intros j t Hj. apply lookup_insert_pc in Hj.
    destruct Hj as [[_ Heq]|[_ Hj]]; [|eauto]. destruct (Hpc t); congruence.
  - intros id [Hin|[(j & t & H & Hid)|Hres]]; apply Hseen;
      [auto | right; left; exists j, t; auto | auto].
Qed.

Lemma invariant_add_task seen q res ws t :
  invariant seen q res CallerIdle ws ->
  task_id t ∉ seen ->
  invariant (seen ++ [task_id t]) (q ++ [t]) res (CallerPut t) ws.
Proof.
  intros [Hnd Hhq Hhd Hput Hwait Han Hseen] Hfresh.
  assert (Hnew : task_id t ∉ (task_id <$> q)) by (intros H; apply Hfresh, Hseen; auto).
  split.
  - rewrite fmap_app. apply NoDup_app. split; [assumption|]. split.
    + intros id Hid Hin. apply list_elem_of_singleton in Hin. now subst.
    + apply NoDup_singleton.
  - intros i t' H. rewrite fmap_app, elem_of_app. intros [Hin|Hin].
    + now apply (Hhq i t').
    + apply list_elem_of_singleton in Hin. apply Hfresh, Hseen.
      right. left. exists i, t'. auto.
  - assumption.
  - intros t' [= <-]. split; [|apply elem_of_app; right; now apply list_elem_of_singleton].
    destruct (res !! task_id t) eqn:E; [|reflexivity].
    exfalso. apply Hfresh, Hseen. right. right. eauto.
  - intros t' e [Hin|Hdeq] Hres; [|eauto].
    apply elem_of_app in Hin. destruct Hin as [Hin|Hin]; [eauto|].
    apply list_elem_of_singleton in Hin. subst t'.
    exfalso. apply Hfresh, Hseen. right. right. eauto.
  - assumption.
  - intros id Hid. apply elem_of_app.
    destruct Hid as [Hin|Hid].
    + rewrite fmap_app, elem_of_app in Hin. destruct Hin as [Hin|Hin]; [left; auto|].
      right. exact Hin.
    + left. apply Hseen. now right.
Qed.

Lemma invariant_record seen q res ws t :
  invariant seen q res (CallerPut t) ws ->
  invariant seen q (<[task_id t := queued_entry]> res) (CallerRecorded t) ws.
Proof.
  intros [Hnd Hhq Hhd Hput Hwait Han Hseen].
  destruct (Hput t eq_refl) as [Hnone Hmine].
  split; try assumption.
  - intros t' [=].
  - intros t' e Hwho Hres. destruct (decide (task_id t = task_id t')) as [Heq|Hne].
    + rewrite <- Heq, lookup_insert_eq in Hres. now injection Hres as <-.
    + rewrite lookup_insert_ne in Hres by assumption. eauto.
  - intros i t' Hi. destruct (Han i t' Hi) as (e & He & Hst).
    exists e. split; [|assumption]. rewrite lookup_insert_ne; [assumption|].
    intros Heq. rewrite <- Heq in He. congruence.
  - intros id [Hin|[Hh|Hres]]; [apply Hseen; auto..|].
    destruct (decide (task_id t = id)) as [<-|Hne].
    + assumption.
    + rewrite lookup_insert_ne in Hres by assumption. apply Hseen. auto.
Qed.

Lemma invariant_caller seen q res c c' ws :
  invariant seen q res c ws ->
  (forall t, c' <> CallerPut t) ->
  invariant seen q res c' ws.
Proof.
  intros [Hnd Hhq Hhd Hput Hwait Han Hseen] Hc.
  split; try assumption. intros t Heq. now destruct (Hc t).
Qed.

Lemma invariant_spawn seen q res c ws :
  invariant seen q res c ws ->
  invariant seen q res c (ws ++ [AtLoopHead]).
Proof.
  intros [Hnd Hhq Hhd Hput Hwait Han Hseen].
  split; try assumption.
  - intros j t H. apply holds_spawned in H. eauto.
  - intros j k t t' Hne H H'. apply holds_spawned in H, H'. eauto.
  - intros t e [Hin|[j Hj]] Hres; [eauto|].
    apply lookup_spawned in Hj. destruct Hj as [Hj|Hj]; [eauto | discriminate].
  - intros j t Hj. apply lookup_spawned in Hj.
    destruct Hj as [Hj|Hj]; [eauto | discriminate].
  - intros id [Hin|[(j & t & H & Hid)|Hres]]; apply Hseen;
      [auto | right; left; exists j, t; split; [now apply holds_spawned | assumption] | auto].
Qed.

Lemma invariant_get seen t rest res c ws i :
  invariant seen (t :: rest) res c ws ->
  ws !! i = Some AtLoopHead ->
  invariant seen rest res c (<[i := Dequeued t]> ws).
Proof.
  intros [Hnd Hhq Hhd Hput Hwait Han Hseen] Hi.
  rewrite fmap_cons in Hnd. apply NoDup_cons in Hnd. destruct Hnd as [Hhead Hnd].
  assert (Hold : forall j t', i <> j -> holds (<[i := Dequeued t]> ws) j t' -> holds ws j t').
  { intros j t' Hne H. apply holds_insert in H. destruct H as [[Heq _]|[_ H]]; [congruence | assumption]. }
  assert (Hself : forall t', holds (<[i := Dequeued t]> ws) i t' -> t' = t).
  { intros t' H. apply holds_insert in H.
    destruct H as [[_ [Heq|Heq]]|[Hne _]]; congruence. }
  split.
  - assumption.
  - intros j t' H. destruct (decide (i = j)) as [<-|Hne].
    + rewrite (Hself t' H). assumption.
    + intros Hin. apply (Hhq j t' (Hold j t' Hne H)). rewrite fmap_cons. now right.
  - intros j k t1 t2 Hne H1 H2.
    destruct (decide (i = j)) as [<-|Hj]; [|destruct (decide (i = k)) as [<-|Hk]].
    + rewrite (Hself t1 H1). intros Heq.
      apply (Hhq k t2 (Hold k t2 Hne H2)). rewrite fmap_cons, <- Heq. now left.
    + rewrite (Hself t2 H2). intros Heq.
      apply (Hhq j t1 (Hold j t1 Hj H1)). rewrite fmap_cons, Heq. now left.
    + eauto.
  - assumption.
  - intros t' e [Hin|[j Hj]] Hres.
    + apply (Hwait t' e); [left; now right | assumption].
    + apply lookup_insert_pc in Hj. destruct Hj as [[_ Heq]|[_ Hj]].
      * injection Heq as ->. apply (Hwait t e); [left; now left | assumption].
      * apply (Hwait t' e); [right; eauto | assumption].
  - intros j t' Hj. apply lookup_insert_pc in Hj.
    destruct Hj as [[_ Heq]|[_ Hj]]; [discriminate | eauto].
  - intros id [Hin|[(j & t' & H & Hid)|Hres]]; apply Hseen.
    + left. rewrite fmap_cons. now right.
    + destruct (decide (i = j)) as [<-|Hne].
      * rewrite (Hself t' H) in Hid. left. rewrite fmap_cons, <- Hid. now left.
      * right. left. exists j, t'. auto.
    + auto.
Qed.

Lemma invariant_mark seen q res c ws i t e :
  invariant seen q res c ws ->
  ws !! i = Some (Dequeued t) ->
  res !! task_id t = Some e ->
  invariant seen q
    (<[task_id t := {| entry_status := Processing; entry_data := entry_data e;
                       entry_error := entry_error e |}]> res)
    c (<[i := Analyzing t]> ws).
Proof.
  intros [Hnd Hhq Hhd Hput Hwait Han Hseen] Hi He.
  assert (Hmine : holds ws i t) by (now left).
  assert (Hold : forall j t', holds (<[i := Analyzing t]> ws) j t' ->
                   (i = j /\ t' = t) \/ (i <> j /\ holds ws j t')).
  { intros j t' H. apply holds_insert in H.
    destruct H as [[Heq [H|H]]|H]; [discriminate | left; split; congruence | now right]. }
  split.
  - assumption.
  - intros j t' H. destruct (Hold j t' H) as [[_ ->]|[_ H']]; eauto.
  - intros j k t1 t2 Hne H1 H2.
    destruct (Hold j t1 H1) as [[<- ->]|[Hj H1']];
      destruct (Hold k t2 H2) as [[<- ->]|[Hk H2']]; eauto; congruence.
  - intros t' Hc. destruct (Hput t' Hc) as [Hnone Hin]. split; [|assumption].
    rewrite lookup_insert_ne; [assumption|]. intros Heq. congruence.
  - intros t' e' Hwho Hres.
    assert (Hne : task_id t <> task_id t').
    { destruct Hwho as [Hin|[j Hj]].
      - intros Heq. apply (Hhq i t Hmine). rewrite Heq. now apply list_elem_of_fmap_2.
      - apply lookup_insert_pc in Hj. destruct Hj as [[_ Heq]|[Hne Hj]]; [discriminate|].
        apply (Hhd i j t t' Hne Hmine). now left. }
    rewrite lookup_insert_ne in Hres by assumption.
    apply (Hwait t' e'); [|assumption].
    destruct Hwho as [Hin|[j Hj]]; [now left|].
    apply lookup_insert_pc in Hj. destruct Hj as [[_ Heq]|[_ Hj]]; [discriminate|].
    right. eauto.
  - intros j t' Hj. apply lookup_insert_pc in Hj. destruct Hj as [[_ Heq]|[Hne Hj]].
    + injection Heq as ->. rewrite lookup_insert_eq. eauto.
    + destruct (Han j t' Hj) as (e' & He' & Hst).
      destruct (decide (task_id t = task_id t')) as [Heq|Hneq].
      * rewrite Heq, lookup_insert_eq. eauto.
      * rewrite lookup_insert_ne by assumption. eauto.
  - intros id [Hin|[(j & t' & H & Hid)|Hres]]; apply Hseen.
    + auto.
    + right. left. destruct (Hold j t' H) as [[_ ->]|[_ H']]; eauto.
    + right. right. destruct (decide (task_id t = id)) as [<-|Hne].
      * eauto.
      * now rewrite lookup_insert_ne in Hres.
Qed.

Lemma invariant_finish seen q res c ws i t e' :
  invariant seen q res c ws ->
  ws !! i = Some (Analyzing t) ->
  invariant seen q (<[task_id t := e']> res) c (<[i := AtLoopHead]> ws).
Proof.
  intros [Hnd Hhq Hhd Hput Hwait Han Hseen] Hi.
  assert (Hmine : holds ws i t) by (now right).
  destruct (Han i t Hi) as (e & He & Hst).
  assert (Hold : forall j t', holds (<[i := AtLoopHead]> ws) j t' -> i <> j /\ holds ws j t').
  { intros j t' H. apply holds_insert in H.
    destruct H as [[_ [H|H]]|H]; [discriminate.. | assumption]. }
  split.
  - assumption.
  - intros j t' H. destruct (Hold j t' H) as [_ H']. eauto.
  - intros j k t1 t2 Hne H1 H2.
    destruct (Hold j t1 H1) as [_ H1']. destruct (Hold k t2 H2) as [_ H2']. eauto.
  - intros t' Hc. destruct (Hput t' Hc) as [Hnone Hin]. split; [|assumption].
    rewrite lookup_insert_ne; [assumption|]. intros Heq. congruence.
  - intros t' e0 Hwho Hres.
    assert (Hne : task_id t <> task_id t').
    { destruct Hwho as [Hin|[j Hj]].
      - intros Heq. apply (Hhq i t Hmine). rewrite Heq. now apply list_elem_of_fmap_2.
      - apply lookup_insert_pc in Hj. destruct Hj as [[_ Heq]|[Hne Hj]]; [discriminate|].
        apply (Hhd i j t t' Hne Hmine). now left. }
    rewrite lookup_insert_ne in Hres by assumption.
    apply (Hwait t' e0); [|assumption].
    destruct Hwho as [Hin|[j Hj]]; [now left|].
    apply lookup_insert_pc in Hj. destruct Hj as [[_ Heq]|[_ Hj]]; [discriminate|].
    right. eauto.
  - intros j t' Hj. apply lookup_insert_pc in Hj.
    destruct Hj as [[_ Heq]|[Hne Hj]]; [discriminate|].
    rewrite lookup_insert_ne; [eauto|].
    apply (Hhd i j t t' Hne Hmine). now right.
  - intros id [Hin|[(j & t' & H & Hid)|Hres]]; apply Hseen.
    + auto.
    + right. left. destruct (Hold j t' H) as [_ H']. eauto.
    + right. right. destruct (decide (task_id t = id)) as [<-|Hne].
      * eauto.
      * now rewrite lookup_insert_ne in Hres.
Qed.

Section QueueClaims.

Variable W : Type.
Variable processor_analyze : string -> W -> exc pydict * W.
Variable processor_analyze_with_filters : string -> pyval -> W -> exc pydict * W.

Local Abbreviation step_of := (step W processor_analyze processor_analyze_with_filters).
Local Abbreviation run_of := (run W processor_analyze processor_analyze_with_filters).

Lemma initial_invariant w : system_invariant [] (initial_system W w).
Proof.
  split; simpl.
  - constructor.
  - intros i t [H|H]; discriminate.
  - intros i j t t' _ [H|H]; discriminate.
  - intros t [=].
  - intros t e [H|[i H]]; [now apply elem_of_nil in H | discriminate].
  - intros i t H. discriminate.
  - intros id [H|[(i & t & [H|H] & _)|[e H]]];
      [now apply elem_of_nil in H | discriminate.. ].
Qed.

Lemma step_invariant seen s l s' :
  system_invariant seen s ->
  fresh seen l ->
  step_of s l = Some s' ->
  system_invariant (seen ++ added_ids [l]) s'.
Proof.
  unfold system_invariant. intros Hinv Hfresh Hstep.
  destruct s as [[q res flag] w c ws]. simpl in Hinv.
  destruct l; simpl added_ids; rewrite ?app_nil_r; simpl in Hstep.
  - (* add_task: put *)
    destruct c; try discriminate. injection Hstep as <-. simpl.
    now apply (invariant_add_task seen q res ws
                 (mk_task (PyPath.stem file_path) file_path user_filters)).
  - (* add_task: record *)
    destruct c; try discriminate. injection Hstep as <-. simpl.
    now apply invariant_record.
  - (* add_task: start *)
    destruct c; try discriminate. unfold start_processing in Hstep. simpl in Hstep.
    destruct (negb flag); injection Hstep as <-; simpl.
    + apply invariant_spawn. eapply invariant_caller; [eassumption | discriminate].
    + eapply invariant_caller; [eassumption | discriminate].
  - (* worker: get *)
    destruct (ws !! i) as [[]|] eqn:Hi; try discriminate.
    destruct q as [|t rest]; try discriminate. injection Hstep as <-. simpl.
    now apply invariant_get.
  - (* worker: mark *)
    destruct (ws !! i) as [[]|] eqn:Hi; try discriminate.
    unfold mark_processing in Hstep. simpl in Hstep.
    destruct (res !! task_id t) as [e|] eqn:He; injection Hstep as <-; simpl.
    + now apply invariant_mark.
    + apply invariant_release; [assumption | split; discriminate].
  - (* worker: finish *)
    destruct (ws !! i) as [[]|] eqn:Hi; try discriminate.
    destruct (run_task W processor_analyze processor_analyze_with_filters t w) as [r w'].
    injection Hstep as <-. simpl. now apply invariant_finish.
  - (* worker: leave *)
    destruct (ws !! i) as [[]|] eqn:Hi; try discriminate.
    destruct q; try discriminate. injection Hstep as <-. simpl.
    apply invariant_release; [assumption | split; discriminate].
  - (* worker: exit *)
    destruct (ws !! i) as [[]|] eqn:Hi; try discriminate.
    injection Hstep as <-. simpl.
    apply invariant_release; [assumption | split; discriminate].
Qed.

(** Under the invariant, one statement moves every entry forward. *)
Lemma step_forward seen s l s' :
  system_invariant seen s ->
  step_of s l = Some s' ->
  forall id, forward (entry_of W s id) (entry_of W s' id).
Proof.
  unfold system_invariant, entry_of. intros Hinv Hstep id.
  destruct s as [[q res flag] w c ws]. simpl in Hinv |- *.
  destruct Hinv as [Hnd Hhq Hhd Hput Hwait Han Hseen].
  destruct l; simpl in Hstep.
  - destruct c; try discriminate. injection Hstep as <-. constructor.
  - destruct c; try discriminate. injection Hstep as <-. simpl.
    destruct (decide (task_id t = id)) as [<-|Hne].
    + rewrite lookup_insert_eq, (proj1 (Hput t eq_refl)). now constructor.
    + rewrite lookup_insert_ne by assumption. constructor.
  - destruct c; try discriminate. unfold start_processing in Hstep. simpl in Hstep.
    destruct (negb flag); injection Hstep as <-; constructor.
  - destruct (ws !! i) as [[]|] eqn:Hi; try discriminate.
    destruct q as [|t rest]; try discriminate. injection Hstep as <-. constructor.
  - destruct (ws !! i) as [[]|] eqn:Hi; try discriminate.
    unfold mark_processing in Hstep. simpl in Hstep.
    destruct (res !! task_id t) as [e|] eqn:He; injection Hstep as <-; simpl;
      [|constructor].
    destruct (decide (task_id t = id)) as [<-|Hne].
    + rewrite lookup_insert_eq, He. apply forward_start; [|reflexivity].
      apply (Hwait t e); [right; eauto | assumption].
    + rewrite lookup_insert_ne by assumption. constructor.
  - destruct (ws !! i) as [[]|] eqn:Hi; try discriminate.
    destruct (run_task W processor_analyze processor_analyze_with_filters t w) as [r w'].
    injection Hstep as <-. simpl.
    destruct (decide (task_id t = id)) as [<-|Hne].
    + rewrite lookup_insert_eq. destruct (Han i t Hi) as (e & -> & Hst).
      apply forward_finish; [assumption|]. destruct r; simpl; auto.
    + rewrite lookup_insert_ne by assumption. constructor.
  - destruct (ws !! i) as [[]|] eqn:Hi; try discriminate.
    destruct q; try discriminate. injection Hstep as <-. constructor.
  - destruct (ws !! i) as [[]|] eqn:Hi; try discriminate.
    injection Hstep as <-. constructor.
Qed.

Lemma run_snoc s ls l :
  run_of s (ls ++ [l])
  = match run_of s ls with
    | Some s' => step_of s' l
    | None => None
    end.
Proof.
  revert s. induction ls as [|l0 ls IH]; intros s; simpl.
  - now destruct (step_of s l).
  - destruct (step_of s l0); [apply IH | reflexivity].
Qed.

Lemma added_ids_snoc ls l : added_ids (ls ++ [l]) = added_ids ls ++ added_ids [l].
Proof. unfold added_ids. apply omap_app. Qed.

(** Every state a schedule with pairwise different stems leads to
    satisfies the invariant. *)
Lemma run_invariant w schedule :
  forall s,
    NoDup (added_ids schedule) ->
    run_of (initial_system W w) schedule = Some s ->
    system_invariant (added_ids schedule) s.
Proof.
  induction schedule as [|l ls IH] using rev_ind; intros s Hnd Hrun.
  - injection Hrun as <-. apply initial_invariant.
  - rewrite run_snoc in Hrun.
    destruct (run_of (initial_system W w) ls) as [s0|] eqn:Hrun0; [|discriminate].
    rewrite added_ids_snoc in Hnd |- *. apply NoDup_app in Hnd.
    destruct Hnd as (Hnd0 & Hdisj & _).
    apply (step_invariant _ s0); [now apply IH | | assumption].
    destruct l; simpl; auto. intros Hin. apply (Hdisj _ Hin). simpl. now left.
Qed.

End QueueClaims.

(** C7 (as amended). Along every schedule of [add_task] statements and
    worker statements in which no two enqueued paths have the same
    stem, each statement leaves the entry of every task id where it is
    or moves it one step forward: from absent to queued, from queued to
    processing, from processing to completed or failed. In particular
    an entry that is completed or failed is never changed again. *)
Theorem status_moves_forward
    (W : Type)
    (processor_analyze : string -> W -> exc pydict * W)
    (processor_analyze_with_filters : string -> pyval -> W -> exc pydict * W)
    (w0 : W) (schedule : list label) (l : label) (s s' : System W) :
  NoDup (added_ids (schedule ++ [l])) ->
  run W processor_analyze processor_analyze_with_filters (initial_system W w0) schedule
  = Some s ->
  step W processor_analyze processor_analyze_with_filters s l = Some s' ->
  forall id,
    forward (entry_of W s id) (entry_of W s' id) /\
    (forall e, entry_of W s id = Some e ->
       entry_status e = Completed \/ entry_status e = Failed ->
       entry_of W s' id = Some e).
Proof.
  intros Hnd Hrun Hstep id.
  rewrite added_ids_snoc in Hnd. apply NoDup_app in Hnd. destruct Hnd as (Hnd & _ & _).
  pose proof (run_invariant W processor_analyze processor_analyze_with_filters
                w0 schedule s Hnd Hrun) as Hinv.
  pose proof (step_forward W processor_analyze processor_analyze_with_filters
                _ s l s' Hinv Hstep id) as Hfw.
  split; [exact Hfw|].
  intros e He Hfinal. rewrite He in Hfw.
  inversion Hfw as [o Ho|e0|e0 e1 Hq Hp|e0 e1 Hp Hf]; subst.
  - congruence.
  - destruct Hfinal; congruence.
  - destruct Hfinal; congruence.
Qed.

Lemma status_moves_forward_witness :
  exists s s',
    run World Demo.analyze Demo.analyze_with_filters (initial_system World initial_world)
      [CallAddTask "uploads/ada_lovelace.pdf" PNone; CallRecord; CallStart;
       CallAddTask "uploads/grace_hopper.pdf" PNone; WorkerGet 0; WorkerMark 0]
    = Some s /\
    step World Demo.analyze Demo.analyze_with_filters s (WorkerFinish 0) = Some s' /\
    forward (entry_of World s "ada_lovelace") (entry_of World s' "ada_lovelace").
Proof.
  eexists. eexists.
  split; [vm_compute; reflexivity|].
  split; [vm_compute; reflexivity|].
  eapply (fun H1 H2 H3 =>
            proj1 (status_moves_forward World Demo.analyze Demo.analyze_with_filters
                     initial_world
                     [CallAddTask "uploads/ada_lovelace.pdf" PNone; CallRecord; CallStart;
                      CallAddTask "uploads/grace_hopper.pdf" PNone; WorkerGet 0;
                      WorkerMark 0]
                     (WorkerFinish 0) _ _ H1 H2 H3 "ada_lovelace")).
  - vm_compute. apply NoDup_ListNoDup. repeat constructor; simpl; intuition discriminate.
  - vm_compute. reflexivity.
  - vm_compute. reflexivity.
Defined.

(** Two uploads with the same stem: the entry of the first goes back
    from completed to queued when the second is enqueued; and when both
    are enqueued before the worker runs, it goes back from completed to
    processing. *)
Lemma status_goes_back_on_same_stem :
  added_ids Demo.same_stem_schedule = ["resume"; "resume"] /\
  Demo.status_after (firstn 6 Demo.same_stem_schedule) "resume" = Some Completed /\
  Demo.status_after Demo.same_stem_schedule "resume" = Some Queued /\
  Demo.status_after (firstn 9 Demo.same_stem_backlog) "resume" = Some Completed /\
  Demo.status_after Demo.same_stem_backlog "resume" = Some Processing.
Proof. repeat split; vm_compute; reflexivity. Qed.

(** ** The keyword fallback of the filter *)







Section FilterClaims.

Variable call_gemini_with_retry : string -> M string.
Variable json_loads : string -> exc pyval.
Variable py_repr : pyval -> string.
Variable nlp_query_prompt : string -> string.
Variable matches_filters : pydict -> pyval -> exc bool.

Local Abbreviation nlp_filter :=
  (filter_resumes_with_nlp call_gemini_with_retry json_loads py_repr nlp_query_prompt
     matches_filters).
Local Abbreviation structured :=
  (structured_filtering call_gemini_with_retry json_loads nlp_query_prompt matches_filters).
Local Abbreviation keyword_filter := (simple_keyword_filter py_repr).


Lemma keyword_filter_no_keywords query resumes :
  keywords query = [] -> keyword_filter query resumes = resumes.
Proof. unfold simple_keyword_filter. now intros ->. Qed.


(** The filter answers with the keyword search when the structured
    stage keeps nothing, and also when it raises. *)
Lemma nlp_filter_falls_back query resumes w :
  structured query resumes w = Ok [] \/ is_ok (structured query resumes w) = false ->
  fst (nlp_filter query resumes w) = Ok (keyword_filter query resumes).
Proof.
  unfold structured_filtering, filter_resumes_with_nlp. intros Hzero.
  destruct (nonempty query) eqn:Hq; cbn [negb orb].
  - destruct resumes as [|resume rest] eqn:Hres; cbn [is_empty_list].
    + simpl. f_equal. unfold simple_keyword_filter. now destruct (keywords query).
    + rewrite <- Hres in *. unfold M_try, M_bind, M_lift, M_ret. cbv beta iota.
      revert Hzero.
      destruct (process_nlp_query call_gemini_with_retry json_loads nlp_query_prompt
                  query w) as [[filters|e] w']; simpl; intros Hzero.
      * destruct (structured_pass matches_filters filters resumes) as [kept|e].
        -- destruct Hzero as [[= ->]|Hbad]; [reflexivity | discriminate].
        -- reflexivity.
      * reflexivity.
  - destruct query; [|discriminate]. reflexivity.
Qed.


End FilterClaims.


(** A query made of blanks has no keyword: the fallback then hands
    back every record. *)
Example keyword_filter_of_blanks :
  keywords "   " = [] /\
  simple_keyword_filter Demo.repr_record "   " [Demo.ada; Demo.grace]
  = [Demo.ada; Demo.grace].
Proof. split; reflexivity. Qed.

Example keywords_of_short_tokens : keywords "Go or C" = ["go"; "or"; "c"].
Proof. reflexivity. Qed.

(* ================================================================= *)
(** * Further properties

    What the code shows beyond the statements above: the limiter and
    the retry wrapper, the records of the processor, the worker threads
    of the queue, and the structured criteria of the filter. *)

(** ** Substrings *)

Lemma append_cons c (a b : string) : String c a +:+ b = String c (a +:+ b).
Proof. reflexivity. Qed.

Lemma append_nil (b : string) : "" +:+ b = b.
Proof. reflexivity. Qed.

Lemma append_nil_r (a : string) : a +:+ "" = a.
Proof. induction a as [|x a IH]; [reflexivity | now rewrite append_cons, IH]. Qed.

Lemma append_assoc (a b c : string) : (a +:+ b) +:+ c = a +:+ b +:+ c.
Proof. induction a as [|x a IH]; [reflexivity | now rewrite !append_cons, IH]. Qed.

Lemma prefix_iff n s : String.prefix n s = true <-> exists b, s = n +:+ b.
Proof.
  revert s. induction n as [|a n IH]; intros s.
  - split; [intros _; now exists s | intros _; now destruct s].
  - destruct s as [|c s]; simpl.
    + split; [discriminate | intros (b & H); discriminate H].
    + destruct (ascii_dec a c) as [->|Hne].
      * rewrite IH. split; intros (b & H); exists b; rewrite append_cons in *; congruence.
      * split; [discriminate | intros (b & H); rewrite append_cons in H; congruence].
Qed.

Lemma contains_cons n c s :
  PyStr.contains n (String c s) = String.prefix n (String c s) || PyStr.contains n s.
Proof. reflexivity. Qed.

Lemma contains_iff n s :
  PyStr.contains n s = true <-> exists a b, s = a +:+ n +:+ b.
Proof.
  induction s as [|c s IH].
  - change (PyStr.contains n "") with (String.prefix n "" || false).
    rewrite orb_false_r, prefix_iff. split.
    + intros (b & H). exists "", b. exact H.
    + intros (a & b & H). destruct a; [now exists b | discriminate H].
  - rewrite contains_cons, orb_true_iff, prefix_iff, IH. split.
    + intros [(b & H)|(a & b & H)].
      * exists "", b. exact H.
      * exists (String c a), b. rewrite append_cons. now rewrite H.
    + intros (a & b & H). destruct a as [|c' a].
      * left. now exists b.
      * right. exists a, b. rewrite append_cons in H. congruence.
Qed.

Lemma contains_trans a b c :
  PyStr.contains a b = true -> PyStr.contains b c = true -> PyStr.contains a c = true.
Proof.
  rewrite !contains_iff. intros (x & y & ->) (u & v & ->).
  exists (u +:+ x), (y +:+ v). now rewrite !append_assoc.
Qed.

Lemma lower_app a b : PyStr.lower (a +:+ b) = PyStr.lower a +:+ PyStr.lower b.
Proof.
  induction a as [|x a IH]; [reflexivity|].
  rewrite append_cons. simpl. now rewrite IH.
Qed.

Lemma contains_lower a b :
  PyStr.contains a b = true -> PyStr.contains (PyStr.lower a) (PyStr.lower b) = true.
Proof.
  rewrite !contains_iff. intros (x & y & ->).
  exists (PyStr.lower x), (PyStr.lower y). now rewrite !lower_app.
Qed.

Lemma lstrip_suffix s : exists a, s = a +:+ PyStr.lstrip s.
Proof.
  induction s as [|c s (a & IH)]; simpl.
  - now exists "".
  - destruct (PyStr.is_space c).
    + exists (String c a). rewrite append_cons. now rewrite <- IH.
    + now exists "".
Qed.

Lemma rstrip_prefix s : exists b, s = PyStr.rstrip s +:+ b.
Proof.
  induction s as [|c s (b & IH)]; simpl.
  - now exists "".
  - destruct (PyStr.rstrip s) as [|x r] eqn:E.
    + destruct (PyStr.is_space c).
      * now exists (String c s).
      * exists s. reflexivity.
    + exists b. rewrite append_cons. now rewrite <- IH.
Qed.

Lemma strip_contains s : PyStr.contains (PyStr.strip s) s = true.
Proof.
  apply contains_iff. unfold PyStr.strip.
  destruct (lstrip_suffix s) as (a & Ha).
  destruct (rstrip_prefix (PyStr.lstrip s)) as (b & Hb).
  exists a, b. now rewrite <- Hb.
Qed.

Lemma string_of_snoc l a s :
  string_of_list_ascii (l ++ [a]) +:+ s = string_of_list_ascii l +:+ String a s.
Proof.
  induction l as [|x l IH]; [reflexivity|].
  simpl. rewrite !append_cons. now rewrite IH.
Qed.

Lemma split_on_go_head c s :
  forall cur,
    exists piece rest tail,
      PyStr.split_on_go c s cur = piece :: rest /\
      string_of_list_ascii (rev cur) +:+ s = piece +:+ tail.
Proof.
  induction s as [|a s IH]; intros cur; simpl.
  - eexists _, [], "". split; reflexivity.
  - destruct (Ascii.eqb a c).
    + eexists _, _, _. split; reflexivity.
    + destruct (IH (a :: cur)) as (piece & rest & tail & Hsplit & Heq).
      exists piece, rest, tail. split; [exact Hsplit|].
      rewrite <- Heq. simpl. now rewrite string_of_snoc.
Qed.

(** The first piece of [s.split(c)] starts [s]. *)
Lemma split_on_head c s :
  exists piece rest tail, PyStr.split_on c s = piece :: rest /\ s = piece +:+ tail.
Proof. apply (split_on_go_head c s []). Qed.

(** ** RateLimiter: spacing and growth *)

(** X1. [wait()] never sleeps a negative time and stamps the limiter
    with the time after the sleep; the new stamp lies at least
    [current_delay] after the previous one. When that much time has
    already passed it does not sleep; otherwise it sleeps up to the
    previous stamp plus the delay. The delay itself is left as it is. *)
Theorem wait_spaces_requests (now : Q) (r : RateLimiter.t) :
  (0 <= fst (RateLimiter.wait now r))%Q /\
  (RateLimiter.last_request_time (snd (RateLimiter.wait now r))
   == now + fst (RateLimiter.wait now r))%Q /\
  (RateLimiter.current_delay r
   <= RateLimiter.last_request_time (snd (RateLimiter.wait now r))
      - RateLimiter.last_request_time r)%Q /\
  ((RateLimiter.current_delay r <= now - RateLimiter.last_request_time r)%Q ->
   (fst (RateLimiter.wait now r) == 0)%Q) /\
  ((now - RateLimiter.last_request_time r < RateLimiter.current_delay r)%Q ->
   (RateLimiter.last_request_time (snd (RateLimiter.wait now r))
    == RateLimiter.last_request_time r + RateLimiter.current_delay r)%Q) /\
  RateLimiter.current_delay (snd (RateLimiter.wait now r)) = RateLimiter.current_delay r.
Proof.
  unfold RateLimiter.wait. cbn [fst snd RateLimiter.last_request_time RateLimiter.current_delay].
  destruct (Qle_bool (RateLimiter.current_delay r) (now - RateLimiter.last_request_time r))
    eqn:E.
  - apply Qle_bool_iff in E. repeat split; try lra.
  - assert (H : ~ (RateLimiter.current_delay r <= now - RateLimiter.last_request_time r)%Q).
    { intros H. apply Qle_bool_iff in H. congruence. }
    apply Qnot_le_lt in H. repeat split; try lra.
Qed.

(** *** The delays in floating point *)

(** With no rounding, [FloatLimiter.failure] is [RateLimiter.failure]. *)
Lemma float_failure_exact (jitter : Q) (r : RateLimiter.t) :
  FloatLimiter.failure (fun x => x) jitter r = RateLimiter.failure jitter r.
Proof. reflexivity. Qed.

Lemma two_power_pos (k : Z) : (0 < 2 ^ k)%Q.
Proof. apply Qpower_0_lt. reflexivity. Qed.

Lemma two_power_Z (k : Z) : 0 <= k -> (inject_Z (2 ^ k) == 2 ^ k)%Q.
Proof. intros Hk. now rewrite Zpower_Qpower. Qed.

Lemma Q_as_quotient (x : Q) :
  (x * inject_Z (Zpos (Qden x)) == inject_Z (Qnum x))%Q.
Proof.
  destruct x as [a p]. unfold Qeq, Qmult, inject_Z. cbn [Qnum Qden].
  rewrite Pos.mul_1_r. ring.
Qed.

Lemma binade_spec (x : Q) :
  (0 < x)%Q ->
  (2 ^ FloatLimiter.binade x <= x)%Q /\ (x < 2 ^ (FloatLimiter.binade x + 1))%Q.
Proof.
  intros Hx.
  assert (Ha : 0 < Qnum x).
  { destruct x as [a p]. unfold Qlt in Hx. cbn [Qnum Qden] in Hx |- *. lia. }
  pose proof (Z.log2_spec (Qnum x) Ha) as [Ha1 Ha2].
  pose proof (Z.log2_spec (Zpos (Qden x)) (Pos2Z.is_pos _)) as [Hb1 Hb2].
  pose proof (Z.log2_nonneg (Qnum x)) as Hla.
  pose proof (Z.log2_nonneg (Zpos (Qden x))) as Hlb.
  pose proof (Q_as_quotient x) as Hq.
  set (la := Z.log2 (Qnum x)) in *. set (lb := Z.log2 (Zpos (Qden x))) in *.
  assert (Ha1' : (2 ^ la <= inject_Z (Qnum x))%Q).
  { rewrite <- two_power_Z by assumption. now rewrite <- Zle_Qle. }
  assert (Ha2' : (inject_Z (Qnum x) < 2 ^ (la + 1))%Q).
  { rewrite <- two_power_Z by lia. rewrite <- Zlt_Qlt. now rewrite <- Z.add_1_r in Ha2. }
  assert (Hb1' : (2 ^ lb <= inject_Z (Zpos (Qden x)))%Q).
  { rewrite <- two_power_Z by assumption. now rewrite <- Zle_Qle. }
  assert (Hb2' : (inject_Z (Zpos (Qden x)) < 2 ^ (lb + 1))%Q).
  { rewrite <- two_power_Z by lia. rewrite <- Zlt_Qlt. now rewrite <- Z.add_1_r in Hb2. }
  assert (Hup : (x < 2 ^ (la - lb + 1))%Q).
  { replace (la - lb + 1) with ((la + 1) + - lb) by lia.
    rewrite Qpower_plus by discriminate. rewrite Qpower_opp.
    pose proof (two_power_pos lb) as Hp.
    apply Qlt_shift_div_l; [assumption|].
    apply Qle_lt_trans with (x * inject_Z (Zpos (Qden x)))%Q; [nra|].
    now rewrite Hq. }
  assert (Hlow : (2 ^ (la - lb - 1) <= x)%Q).
  { replace (la - lb - 1) with (la + - (lb + 1)) by lia.
    rewrite Qpower_plus by discriminate. rewrite Qpower_opp.
    pose proof (two_power_pos (lb + 1)) as Hp.
    apply Qle_shift_div_r; [assumption|].
    apply Qle_trans with (x * inject_Z (Zpos (Qden x)))%Q; [|nra].
    now rewrite Hq. }
  unfold FloatLimiter.binade. fold la lb.
  destruct (Qle_bool (2 ^ (la - lb)) x) eqn:E.
  - apply Qle_bool_iff in E. split; assumption.
  - assert (Hlt : (x < 2 ^ (la - lb))%Q).
    { apply Qnot_le_lt. intros H. apply Qle_bool_iff in H. congruence. }
    split; [assumption|].
    now replace (la - lb - 1 + 1) with (la - lb) by lia.
Qed.

Lemma nearest_even_spec (q : Q) :
  (q - (1 # 2) <= inject_Z (FloatLimiter.nearest_even q))%Q /\
  (inject_Z (FloatLimiter.nearest_even q) <= q + (1 # 2))%Q.
Proof.
  pose proof (Qfloor_le q) as Hlo. pose proof (Qlt_floor q) as Hhi.
  rewrite inject_Z_plus in Hhi. change (inject_Z 1) with 1%Q in Hhi.
  unfold FloatLimiter.nearest_even.
  destruct (q - inject_Z (Qfloor q) ?= 1 # 2)%Q eqn:E.
  - apply Qeq_alt in E.
    destruct (Z.even (Qfloor q)); rewrite ?inject_Z_plus;
      change (inject_Z 1) with 1%Q; split; lra.
  - apply Qlt_alt in E. split; lra.
  - apply Qgt_alt in E. rewrite inject_Z_plus. change (inject_Z 1) with 1%Q. split; lra.
Qed.

(** The rounding to the nearest double moves a positive value by at
    most the fraction [2^-53] of it. *)
Lemma to_double_within (x : Q) :
  (0 < x)%Q ->
  ((1 - FloatLimiter.unit_roundoff) * x <= FloatLimiter.to_double x)%Q /\
  (FloatLimiter.to_double x <= (1 + FloatLimiter.unit_roundoff) * x)%Q.
Proof.
  intros Hx. destruct (binade_spec x Hx) as [Hk _].
  unfold FloatLimiter.to_double.
  set (k := FloatLimiter.binade x) in *.
  pose proof (two_power_pos (k - 52)) as Hs.
  assert (Hsk : (2 ^ (k - 52) * 4503599627370496 == 2 ^ k)%Q).
  { replace (k - 52) with (k + -52) by lia.
    rewrite Qpower_plus by discriminate.
    assert (H52 : (2 ^ (-52) * 4503599627370496 == 1)%Q) by reflexivity.
    rewrite <- Qmult_assoc, H52. ring. }
  set (s := (2 ^ (k - 52))%Q) in *.
  destruct (nearest_even_spec (x / s)) as [Hlo Hhi].
  set (m := inject_Z (FloatLimiter.nearest_even (x / s))) in *.
  assert (Ht : (x / s * s == x)%Q) by (field; lra).
  set (t := (x / s)%Q) in *.
  unfold FloatLimiter.unit_roundoff.
  assert (Hu : ((1 # 9007199254740992) == (1 # 2) * (1 # 4503599627370496))%Q) by reflexivity.
  rewrite Hu.
  assert (Hsx : (s * (1 # 2) <= (1 # 2) * (1 # 4503599627370496) * x)%Q).
  { assert (H : (s <= (1 # 4503599627370496) * x)%Q).
    { assert (H1 : (s * 4503599627370496 <= x)%Q) by (rewrite Hsk; exact Hk). lra. }
    lra. }
  split; nra.
Qed.

(** The rounding of the interpreter on the delay 16.610136961945894:
    the product with 1.5 and with the double nearest to 0.8 comes out
    as 19.93216435433507, a little under 6/5 of the delay, where the
    exact product is not. *)
Example failure_rounds_below_exact_product :
  let d := (4675337914524527 # 281474976710656)%Q in
  let jitter := (3602879701896397 # 4503599627370496)%Q in
  (FloatLimiter.to_double (FloatLimiter.to_double (d * 1.5) * jitter)
   == 701300687178679 # 35184372088832)%Q /\
  (FloatLimiter.to_double (FloatLimiter.to_double (d * 1.5) * jitter) < d * (6 # 5))%Q /\
  (d * (6 # 5) <= d * 1.5 * jitter)%Q.
Proof. vm_compute. repeat split; discriminate. Qed.

Lemma Qpower_succ (a : Q) (n : nat) :
  ~ (a == 0)%Q -> (a ^ Z.of_nat (S n) == a * a ^ Z.of_nat n)%Q.
Proof.
  intros Ha. rewrite Nat2Z.inj_succ. unfold Z.succ.
  rewrite Qpower_plus by assumption. simpl (a ^ 1)%Q. ring.
Qed.

Lemma growth_power_ge_1 (n : nat) : (1 <= (1199 # 1000) ^ Z.of_nat n)%Q.
Proof.
  induction n as [|n IH].
  - simpl. lra.
  - rewrite Qpower_succ by (intros H; discriminate H). nra.
Qed.

(** One [failure()] on doubles: from a delay between 1 and the
    ceiling, the new delay is at least 1.199 times the old one or the
    ceiling, and stays between 1 and the ceiling. *)
Lemma float_failure_step (round : Q -> Q) (r : RateLimiter.t) (jitter : Q) :
  FloatLimiter.rounds_within round 1 (2 * RateLimiter.max_delay r) ->
  (1 <= RateLimiter.current_delay r)%Q ->
  (RateLimiter.current_delay r <= RateLimiter.max_delay r)%Q ->
  (RateLimiter.backoff_factor r == 3 # 2)%Q ->
  (0.8 <= jitter)%Q -> (jitter <= 1.2)%Q ->
  let d := fst (FloatLimiter.failure round jitter r) in
  (Qmin (RateLimiter.current_delay r * (1199 # 1000)) (RateLimiter.max_delay r) <= d)%Q /\
  (1 <= d)%Q /\ (d <= RateLimiter.max_delay r)%Q.
Proof.
  intros Hround Hlo Hhi Hbf Hj1 Hj2. cbn zeta. unfold FloatLimiter.failure. cbn [fst].
  set (cd := RateLimiter.current_delay r) in *.
  set (top := RateLimiter.max_delay r) in *.
  assert (Hu : (0 <= FloatLimiter.unit_roundoff)%Q) by discriminate.
  assert (Hu' : (FloatLimiter.unit_roundoff <= 1 # 10000)%Q) by discriminate.
  assert (Hx : (cd * RateLimiter.backoff_factor r == (3 # 2) * cd)%Q) by (rewrite Hbf; ring).
  destruct (Hround (cd * RateLimiter.backoff_factor r)%Q) as [H1 H2]; [lra | lra |].
  set (x := (cd * RateLimiter.backoff_factor r)%Q) in *.
  set (y := round x) in *.
  set (u := FloatLimiter.unit_roundoff) in *.
  assert (Hy1 : ((1 - u) * ((3 # 2) * cd) <= y)%Q) by (rewrite <- Hx; exact H1).
  assert (Hy2 : (y <= (1 + u) * ((3 # 2) * cd))%Q) by (rewrite <- Hx; exact H2).
  assert (Hy1' : ((14998 # 10000) * cd <= y)%Q) by nra.
  assert (Hy2' : (y <= (15002 # 10000) * top)%Q) by nra.
  destruct (Hround (y * jitter)%Q) as [H3 H4]; [nra | nra |].
  fold u in H3, H4.
  set (z := round (y * jitter)%Q) in *.
  assert (Hz : ((1199 # 1000) * cd <= z)%Q).
  { assert (Hyj : ((11998 # 10000) * cd <= y * jitter)%Q) by nra.
    set (w := (y * jitter)%Q) in *.
    assert (Hw : ((9999 # 10000) * w <= (1 - u) * w)%Q) by nra.
    lra. }
  split; [|split].
  - apply Q.min_glb; [|apply Q.le_min_r].
    eapply Qle_trans; [apply Q.le_min_l|]. lra.
  - apply Q.min_glb; lra.
  - apply Q.le_min_r.
Qed.

Lemma float_failures_grow (round : Q -> Q) (jitters : list Q) :
  forall r : RateLimiter.t,
    FloatLimiter.rounds_within round 1 (2 * RateLimiter.max_delay r) ->
    (1 <= RateLimiter.current_delay r)%Q ->
    (RateLimiter.current_delay r <= RateLimiter.max_delay r)%Q ->
    (RateLimiter.backoff_factor r == 3 # 2)%Q ->
    Forall (fun jitter => (0.8 <= jitter)%Q /\ (jitter <= 1.2)%Q) jitters ->
    let r' := FloatLimiter.failures round r jitters in
    (Qmin (RateLimiter.current_delay r * (1199 # 1000) ^ Z.of_nat (List.length jitters))
          (RateLimiter.max_delay r)
     <= RateLimiter.current_delay r')%Q /\
    (RateLimiter.current_delay r' <= RateLimiter.max_delay r)%Q.
Proof.
  induction jitters as [|j js IH]; intros r Hround Hlo Hhi Hbf Hj; cbn zeta.
  - simpl. split; [|assumption].
    eapply Qle_trans; [apply Q.le_min_l|]. lra.
  - apply Forall_cons in Hj. destruct Hj as [[Hj1 Hj2] Hjs].
    destruct (float_failure_step round r j Hround Hlo Hhi Hbf Hj1 Hj2) as (Hlow & H1 & Htop).
    cbn zeta in Hlow, H1, Htop.
    unfold FloatLimiter.failures. simpl fold_left.
    fold (FloatLimiter.failures round (snd (FloatLimiter.failure round j r)) js).
    set (r1 := snd (FloatLimiter.failure round j r)).
    assert (Hcd1 : RateLimiter.current_delay r1 = fst (FloatLimiter.failure round j r))
      by reflexivity.
    assert (Hm1 : RateLimiter.max_delay r1 = RateLimiter.max_delay r) by reflexivity.
    assert (Hb1 : RateLimiter.backoff_factor r1 = RateLimiter.backoff_factor r) by reflexivity.
    rewrite <- Hcd1 in Hlow, H1, Htop.
    destruct (IH r1) as (IH1 & IH2);
      [now rewrite Hm1 | assumption | now rewrite Hm1 | now rewrite Hb1 | assumption |].
    cbn zeta in IH1, IH2. rewrite Hm1 in *.
    split; [|exact IH2].
    eapply Qle_trans; [|exact IH1].
    change (List.length (j :: js)) with (S (List.length js)).
    pose proof (Qpower_succ (1199 # 1000) (List.length js)) as Hs.
    pose proof (growth_power_ge_1 (List.length js)) as Hp.
    set (p := ((1199 # 1000) ^ Z.of_nat (List.length js))%Q) in *.
    set (p' := ((1199 # 1000) ^ Z.of_nat (S (List.length js)))%Q) in *.
    assert (Hs' : (p' == (1199 # 1000) * p)%Q) by (apply Hs; intros H; discriminate H).
    apply Q.min_glb; [|apply Q.le_min_r].
    destruct (Qlt_le_dec (RateLimiter.current_delay r * (1199 # 1000)) (RateLimiter.max_delay r))
      as [Hlt|Hge].
    + rewrite Q.min_l in Hlow by lra.
      eapply Qle_trans; [apply Q.le_min_l|]. nra.
    + rewrite Q.min_r in Hlow by lra.
      eapply Qle_trans; [apply Q.le_min_r|]. nra.
Qed.

(** X2. On doubles, with the backoff factor 1.5 and jitters between
    0.8 and 1.2, every [failure()] on a delay between 1 and the ceiling
    multiplies it by at least 1.199 until the ceiling: the two products
    are each rounded by at most the fraction [2^-53], so the factor can
    fall a little short of 6/5 but not of 1.199. After n failures in a
    row the delay is at least the smaller of [current_delay * 1.199^n]
    and [max_delay], it is never above [max_delay], and it is
    [max_delay] once [current_delay * 1.199^n] reaches it. *)
Theorem failures_reach_max_delay (round : Q -> Q) (r : RateLimiter.t) (jitters : list Q) :
  FloatLimiter.rounds_within round 1 (2 * RateLimiter.max_delay r) ->
  (1 <= RateLimiter.current_delay r)%Q ->
  (RateLimiter.current_delay r <= RateLimiter.max_delay r)%Q ->
  (RateLimiter.backoff_factor r == 3 # 2)%Q ->
  Forall (fun jitter => (0.8 <= jitter)%Q /\ (jitter <= 1.2)%Q) jitters ->
  (Qmin (RateLimiter.current_delay r * (1199 # 1000) ^ Z.of_nat (List.length jitters))
        (RateLimiter.max_delay r)
   <= RateLimiter.current_delay (FloatLimiter.failures round r jitters))%Q /\
  (RateLimiter.current_delay (FloatLimiter.failures round r jitters)
   <= RateLimiter.max_delay r)%Q /\
  ((RateLimiter.max_delay r
    <= RateLimiter.current_delay r * (1199 # 1000) ^ Z.of_nat (List.length jitters))%Q ->
   (RateLimiter.current_delay (FloatLimiter.failures round r jitters)
    == RateLimiter.max_delay r)%Q).
Proof.
  intros Hround Hlo Hhi Hbf Hj.
  destruct (float_failures_grow round jitters r Hround Hlo Hhi Hbf Hj) as (Hlow & Hhigh).
  cbn zeta in Hlow, Hhigh.
  split; [exact Hlow|]. split; [exact Hhigh|].
  intros Hsat. rewrite Q.min_r in Hlow by assumption. lra.
Qed.

(** With the defaults and the rounding of the interpreter, 23 failures
    in a row at the lowest jitter bring the delay to 60. *)
Lemma failures_reach_max_delay_witness :
  (RateLimiter.current_delay
     (FloatLimiter.failures FloatLimiter.to_double RateLimiter.default
        (repeat (3602879701896397 # 4503599627370496)%Q 23))
   == 60)%Q.
Proof.
  apply (failures_reach_max_delay FloatLimiter.to_double RateLimiter.default
           (repeat (3602879701896397 # 4503599627370496)%Q 23)).
  - intros x Hx _. apply to_double_within. lra.
  - vm_compute. discriminate.
  - vm_compute. discriminate.
  - reflexivity.
  - repeat constructor; vm_compute; discriminate.
  - vm_compute. discriminate.
Defined.

(** ** The retry wrapper: its budget and the limiter it leaves *)

Section RetryFacts.

Variable generate_content : nat -> string -> exc string.
Variable uniform_jitter : nat -> Q.

Local Abbreviation loop := (retry_loop true generate_content uniform_jitter).

Lemma after_failed_attempt_counts prompt w :
  count_events is_wait (events (after_failed_attempt uniform_jitter prompt w))
  = S (count_events is_wait (events w)) /\
  count_events is_call (events (after_failed_attempt uniform_jitter prompt w))
  = S (count_events is_call (events w)) /\
  count_events is_failure (events (after_failed_attempt uniform_jitter prompt w))
  = S (count_events is_failure (events w)) /\
  count_events is_success (events (after_failed_attempt uniform_jitter prompt w))
  = count_events is_success (events w) /\
  jitter_draws (after_failed_attempt uniform_jitter prompt w) = S (jitter_draws w).
Proof.
  destruct (after_failed_attempt_events uniform_jitter prompt w) as (s & d & ->).
  rewrite !count_events_app. unfold count_events. simpl. repeat split; lia.
Qed.

Lemma after_successful_attempt_counts prompt w :
  count_events is_wait (events (after_successful_attempt prompt w))
  = S (count_events is_wait (events w)) /\
  count_events is_call (events (after_successful_attempt prompt w))
  = S (count_events is_call (events w)) /\
  count_events is_failure (events (after_successful_attempt prompt w))
  = count_events is_failure (events w) /\
  count_events is_success (events (after_successful_attempt prompt w))
  = S (count_events is_success (events w)) /\
  jitter_draws (after_successful_attempt prompt w) = jitter_draws w /\
  model_calls (after_successful_attempt prompt w) = S (model_calls w).
Proof.
  destruct (after_successful_attempt_events prompt w) as (s & ->).
  rewrite !count_events_app. unfold count_events. simpl. repeat split; lia.
Qed.

Lemma retry_loop_accounting prompt max_retries remaining :
  forall last w,
    exists attempts,
      (attempts <= remaining)%nat /\
      match loop prompt max_retries remaining last w with
      | (Ok _, w') => (1 <= attempts)%nat /\ accounted w w' attempts (attempts - 1) 1
      | (Raise e, w') => attempts = remaining /\ accounted w w' attempts attempts 0
      end.
Proof.
  induction remaining as [|n IH]; intros last w.
  - exists 0%nat. split; [lia|]. simpl. unfold M_raise, raise. split; [reflexivity|].
    unfold accounted. repeat split; lia.
  - destruct (generate_content (model_calls w) prompt) as [reply|e] eqn:Hcall.
    + rewrite (retry_loop_success _ _ _ _ _ _ _ _ Hcall).
      exists 1%nat. split; [lia|]. split; [lia|].
      destruct (after_successful_attempt_counts prompt w) as (H1 & H2 & H3 & H4 & H5 & H6).
      unfold accounted. repeat split; lia.
    + rewrite (retry_loop_failure _ _ _ _ _ _ _ _ Hcall).
      destruct (IH (Some (wrapped e)) (after_failed_attempt uniform_jitter prompt w))
        as (k & Hk & Hrun).
      exists (S k). split; [lia|].
      destruct (after_failed_attempt_counts prompt w) as (H1 & H2 & H3 & H4 & H5).
      pose proof (after_failed_attempt_calls uniform_jitter prompt w) as H6.
      destruct (loop prompt max_retries n _ _) as [[reply|e'] w'].
      * destruct Hrun as (Hpos & Hacc). split; [lia|].
        unfold accounted in *. repeat split; lia.
      * destruct Hrun as (-> & Hacc). split; [reflexivity|].
        unfold accounted in *. repeat split; lia.
Qed.

Lemma retry_loop_first_answer prompt max_retries reply k :
  forall remaining last w,
    (k < remaining)%nat ->
    (forall j, (j < k)%nat ->
       is_ok (generate_content (model_calls w + j)%nat prompt) = false) ->
    generate_content (model_calls w + k)%nat prompt = Ok reply ->
    fst (loop prompt max_retries remaining last w) = Ok reply /\
    model_calls (snd (loop prompt max_retries remaining last w))
    = (model_calls w + S k)%nat.
Proof.
  induction k as [|k IH]; intros remaining last w Hk Hfail Hok.
  - destruct remaining as [|n]; [lia|].
    replace (model_calls w + 0)%nat with (model_calls w) in Hok by lia.
    rewrite (retry_loop_success _ _ _ _ _ _ _ _ Hok). simpl. split; [reflexivity | lia].
  - destruct remaining as [|n]; [lia|].
    destruct (generate_content (model_calls w) prompt) as [r|e] eqn:Hcall.
    { specialize (Hfail 0%nat ltac:(lia)).
      replace (model_calls w + 0)%nat with (model_calls w) in Hfail by lia.
      rewrite Hcall in Hfail. discriminate Hfail. }
    rewrite (retry_loop_failure _ _ _ _ _ _ _ _ Hcall).
    destruct (IH n (Some (wrapped e)) (after_failed_attempt uniform_jitter prompt w))
      as (Hres & Hcalls).
    + lia.
    + intros j Hj. rewrite after_failed_attempt_calls.
      replace (S (model_calls w) + j)%nat with (model_calls w + S j)%nat by lia.
      apply Hfail. lia.
    + rewrite after_failed_attempt_calls.
      replace (S (model_calls w) + k)%nat with (model_calls w + S k)%nat by lia.
      exact Hok.
    + rewrite Hres, Hcalls, after_failed_attempt_calls. split; [reflexivity | lia].
Qed.

End RetryFacts.

(** X3. With the client library present the retry wrapper makes at
    most [max_retries] attempts, whatever the model does, and each
    attempt is one [wait()] and one model call. When it returns a reply,
    it made at least one attempt, the last one followed by [success()]
    and each earlier one by [failure()]; when it raises, it has made all
    [max_retries] attempts, each followed by [failure()] and none by
    [success()]. One jitter is drawn per failure. *)
Theorem retry_call_budget
    (generate_content : nat -> string -> exc string) (uniform_jitter : nat -> Q)
    (prompt : string) (max_retries : Z) (w : World) :
  exists attempts,
    (attempts <= Z.to_nat max_retries)%nat /\
    match _call_gemini_with_retry true generate_content uniform_jitter prompt max_retries w with
    | (Ok _, w') => (1 <= attempts)%nat /\ accounted w w' attempts (attempts - 1) 1
    | (Raise e, w') =>
        attempts = Z.to_nat max_retries /\ accounted w w' attempts attempts 0
    end.
Proof.
  unfold _call_gemini_with_retry. cbn [negb].
  apply retry_loop_accounting.
Qed.

(** X4. When the model fails [k] times and then answers, with [k]
    below [max_retries], the wrapper returns that answer, after exactly
    [k + 1] model calls. *)
Theorem retry_returns_first_answer
    (generate_content : nat -> string -> exc string) (uniform_jitter : nat -> Q)
    (prompt reply : string) (max_retries : Z) (w : World) (k : nat) :
  (Z.of_nat k < max_retries) ->
  (forall j, (j < k)%nat ->
     is_ok (generate_content (model_calls w + j)%nat prompt) = false) ->
  generate_content (model_calls w + k)%nat prompt = Ok reply ->
  fst (_call_gemini_with_retry true generate_content uniform_jitter prompt max_retries w)
  = Ok reply /\
  model_calls
    (snd (_call_gemini_with_retry true generate_content uniform_jitter prompt max_retries w))
  = (model_calls w + S k)%nat.
Proof.
  intros Hk Hfail Hok. unfold _call_gemini_with_retry. cbn [negb].
  apply retry_loop_first_answer; [lia | assumption | assumption].
Qed.

Lemma retry_returns_first_answer_witness :
  fst (_call_gemini_with_retry true Demo.flaky_model Demo.jitter "prompt" 5 initial_world)
  = Ok (JsonSubset.text "{'name': 'Ada Lovelace', 'experience': 5, 'skills': ['Go','Rust']}").
Proof.
  apply (retry_returns_first_answer Demo.flaky_model Demo.jitter "prompt" _ 5 initial_world 2).
  - lia.
  - intros j Hj. destruct j as [|[|j]]; [reflexivity | reflexivity | lia].
  - reflexivity.
Defined.

Lemma success_default_limiter m r :
  default_limiter m r -> default_limiter m (RateLimiter.success r).
Proof.
  intros ((Hlo & Hhi) & Hm & Hb). unfold default_limiter, RateLimiter.within. simpl.
  repeat split; try assumption.
  - apply Q.max_le_iff. right. apply Qle_refl.
  - apply Q.max_lub; [|lra].
    apply Qle_trans with (RateLimiter.current_delay r); [|assumption].
    apply Qle_shift_div_r; [reflexivity|]. lra.
Qed.

Lemma failure_default_limiter m jitter r :
  (0.8 <= jitter)%Q ->
  default_limiter m r ->
  default_limiter m (snd (RateLimiter.failure jitter r)) /\
  (1 <= fst (RateLimiter.failure jitter r))%Q /\
  (fst (RateLimiter.failure jitter r) <= m)%Q.
Proof.
  intros Hj ((Hlo & Hhi) & Hm & Hb). unfold default_limiter, RateLimiter.within. simpl.
  assert (H1 : (1 <= Qmin (RateLimiter.current_delay r * RateLimiter.backoff_factor r * jitter)
                       (RateLimiter.max_delay r))%Q).
  { apply Q.min_glb; [rewrite Hb; nra | lra]. }
  repeat split; try assumption.
  - apply Q.le_min_r.
  - rewrite <- Hm. apply Q.le_min_r.
Qed.

Section LimiterFacts.

Variable generate_content : nat -> string -> exc string.
Variable uniform_jitter : nat -> Q.

Hypothesis jitter_range : forall k, (0.8 <= uniform_jitter k /\ uniform_jitter k <= 1.2)%Q.

Local Abbreviation loop := (retry_loop true generate_content uniform_jitter).

Lemma after_successful_attempt_limiter m prompt w :
  default_limiter m (rate_limiter w) ->
  default_limiter m (rate_limiter (after_successful_attempt prompt w)).
Proof.
  intros H. unfold after_successful_attempt, limiter_wait. cbn.
  apply success_default_limiter. exact H.
Qed.

Lemma after_failed_attempt_limiter m prompt w :
  default_limiter m (rate_limiter w) ->
  default_limiter m (rate_limiter (after_failed_attempt uniform_jitter prompt w)) /\
  exists slept delay,
    events (after_failed_attempt uniform_jitter prompt w)
    = (events w ++ [EvWait slept; EvCall prompt; EvFailure delay; EvSleep delay])%list /\
    (1 <= delay /\ delay <= m)%Q.
Proof using jitter_range.
  intros H.
  destruct (failure_default_limiter m (uniform_jitter (jitter_draws w)) (rate_limiter w))
    as (Hr & Hlo & Hhi); [apply jitter_range | exact H |].
  split.
  - exact Hr.
  - eexists _, _. split.
    + unfold after_failed_attempt. cbn. rewrite <- !app_assoc. reflexivity.
    + split; [exact Hlo | exact Hhi].
Qed.

Lemma retry_loop_limiter m prompt max_retries remaining :
  forall last w,
    default_limiter m (rate_limiter w) ->
    default_limiter m (rate_limiter (snd (loop prompt max_retries remaining last w))) /\
    exists evs,
      events (snd (loop prompt max_retries remaining last w)) = (events w ++ evs)%list /\
      Forall (delay_between 1 m) evs.
Proof using jitter_range.
  induction remaining as [|n IH]; intros last w Hw.
  - simpl. split; [exact Hw|]. exists []. rewrite app_nil_r. split; [reflexivity | constructor].
  - destruct (generate_content (model_calls w) prompt) as [reply|e] eqn:Hcall.
    + rewrite (retry_loop_success _ _ _ _ _ _ _ _ Hcall). cbn [snd].
      split; [now apply after_successful_attempt_limiter|].
      destruct (after_successful_attempt_events prompt w) as (s & ->).
      eexists. split; [reflexivity|]. repeat constructor.
    + rewrite (retry_loop_failure _ _ _ _ _ _ _ _ Hcall).
      destruct (after_failed_attempt_limiter m prompt w Hw) as (Hr & s & d & Hev & Hd).
      destruct (IH (Some (wrapped e)) _ Hr) as (Hr' & evs & Hev' & Hall).
      split; [exact Hr'|].
      exists ([EvWait s; EvCall prompt; EvFailure d; EvSleep d] ++ evs)%list.
      split.
      * rewrite Hev', Hev, <- app_assoc. reflexivity.
      * apply Forall_app. split; [|exact Hall].
        repeat constructor; apply Hd.
Qed.

End LimiterFacts.

(** X5. For a limiter with a delay of at least 1 within [max_delay]
    and the backoff factor 1.5 (the processor's own limiter is one), and
    jitters drawn in [0.8, 1.2]: the retry wrapper leaves the delay
    between 1 and [max_delay], changes neither [max_delay] nor the
    backoff factor, and every pause it takes after a failure lasts
    between 1 second and [max_delay]. *)
Theorem retry_keeps_delay_within
    (available : bool) (generate_content : nat -> string -> exc string)
    (uniform_jitter : nat -> Q) (prompt : string) (max_retries : Z) (w : World) :
  (forall k, (0.8 <= uniform_jitter k /\ uniform_jitter k <= 1.2)%Q) ->
  RateLimiter.within 1 (rate_limiter w) ->
  (RateLimiter.backoff_factor (rate_limiter w) == 3 # 2)%Q ->
  let w' := snd (_call_gemini_with_retry available generate_content uniform_jitter
                   prompt max_retries w) in
  RateLimiter.within 1 (rate_limiter w') /\
  RateLimiter.max_delay (rate_limiter w') = RateLimiter.max_delay (rate_limiter w) /\
  (RateLimiter.backoff_factor (rate_limiter w') == 3 # 2)%Q /\
  exists evs,
    events w' = (events w ++ evs)%list /\
    Forall (delay_between 1 (RateLimiter.max_delay (rate_limiter w))) evs.
Proof.
  intros Hj Hin Hb. cbn zeta. unfold _call_gemini_with_retry.
  destruct available; cbn [negb].
  - destruct (retry_loop_limiter generate_content uniform_jitter Hj
                (RateLimiter.max_delay (rate_limiter w)) prompt max_retries
                (Z.to_nat max_retries) None w) as ((H1 & H2 & H3) & evs & Hev & Hall).
    { repeat split; try assumption; apply Hin. }
    repeat split; try assumption; try apply H1. eauto.
  - unfold M_ret. cbn [snd]. repeat split; try assumption; try apply Hin.
    exists []. rewrite app_nil_r. split; [reflexivity | constructor].
Qed.

Lemma retry_keeps_delay_within_witness :
  RateLimiter.within 1
    (rate_limiter
       (snd (_call_gemini_with_retry true Demo.dead_model Demo.jitter "prompt"
               default_max_retries initial_world))).
Proof.
  apply (retry_keeps_delay_within true Demo.dead_model Demo.jitter "prompt"
           default_max_retries initial_world).
  - intros k. unfold Demo.jitter. split; vm_compute; discriminate.
  - split; vm_compute; discriminate.
  - reflexivity.
Defined.

(** ** What [_parse_response] leaves alone *)

Section PassThrough.

Variable py_repr : pyval -> string.

Lemma normalize_get info r :
  normalize py_repr info = Ok r ->
  (forall k, ~ In k rewritten_fields ->
     dict_get k r = dict_get k (ensure_required_fields info)) /\
  dict_get "match_score" r
  = Some (match dict_get "match_score" info with Some v => v | None => PInt 0 end) /\
  dict_has "match_reasons_text" r = true /\
  dict_has "gap_analysis_text" r = true.
Proof.
  unfold normalize. remember (ensure_required_fields info) as base eqn:Hbase.
  intros H.
  step_ok H. rename x into i1. rename H0 into H1.
  step_ok H. rename x into i2. rename H0 into H2.
  step_ok H. rename x into i3. rename H0 into H3.
  step_ok H. rename x into i4. rename H0 into H4.
  step_ok H. rename x into i5. rename H0 into H5.
  step_ok H. rename x into i6. rename H0 into H6.
  step_ok H. rename x into i7. rename H0 into H7.
  step_ok H. rename x into i8. rename H0 into H8.
  injection H as <-.
  change (join_list_field "skills" ", " i1 = Ok i2) in H2.
  destruct (coerce_experience_from _ _ H1) as [n [-> Hn]].
  apply join_list_field_ok in H2.
  apply format_education_ok in H3. apply format_languages_ok in H4.
  apply join_list_field_ok in H5.
  apply add_work_history_summary_ok in H6. destruct H6 as [v6 ->].
  apply add_match_reasons_text_ok in H7. destruct H7 as [v7 ->].
  apply add_gap_analysis_text_ok in H8. destruct H8 as [v8 ->].
  assert (Hthrough : forall k,
             ~ In k ["experience"; "skills"; "education"; "languages"; "certifications";
                     "work_history_summary"; "match_reasons_text"; "gap_analysis_text"] ->
             dict_get k (dict_set "gap_analysis_text" v8
                           (dict_set "match_reasons_text" v7
                              (dict_set "work_history_summary" v6 i5)))
             = dict_get k base).
  { intros k Hk. simpl in Hk.
    rewrite !dict_get_set_ne by (intros <-; intuition).
    rewrite (sets_only_get _ _ _ k H5) by (intros <-; intuition).
    rewrite (sets_only_get _ _ _ k H4) by (intros <-; intuition).
    rewrite (sets_only_get _ _ _ k H3) by (intros <-; intuition).
    rewrite (sets_only_get _ _ _ k H2) by (intros <-; intuition).
    apply dict_get_set_ne. intros <-. intuition. }
  pose proof (ensure_match_score_ok
                (dict_set "gap_analysis_text" v8
                   (dict_set "match_reasons_text" v7
                      (dict_set "work_history_summary" v6 i5)))) as H9.
  split; [|split; [|split]].
  - intros k Hk. unfold rewritten_fields in Hk. simpl in Hk.
    rewrite (sets_only_get _ _ _ k H9) by (intros <-; intuition).
    apply Hthrough. simpl. intuition.
  - pose proof (Hthrough "match_score") as Hms.
    pose proof (ensure_required_get info "match_score") as Hreq.
    rewrite <- Hbase in Hreq.
    specialize (Hms ltac:(simpl; intuition discriminate)).
    rewrite Hreq in Hms. unfold ensure_match_score, dict_has.
    destruct (dict_get "match_score" info) as [v|] eqn:E; simpl in Hms; rewrite Hms.
    + exact Hms.
    + apply dict_get_set_eq.
  - eapply sets_only_has; [exact H9|]. apply dict_has_set. apply dict_has_set_eq.
  - eapply sets_only_has; [exact H9|]. apply dict_has_set_eq.
Qed.

End PassThrough.

Lemma not_required_get info k :
  ~ In k required_fields -> dict_get k (ensure_required_fields info) = dict_get k info.
Proof.
  intros Hk. rewrite ensure_required_get.
  destruct (dict_get k info); [reflexivity|].
  destruct (existsb (String.eqb k) required_fields) eqn:E; [|reflexivity].
  apply existsb_exists in E. destruct E as (f & Hin & Heq).
  apply String.eqb_eq in Heq. subst f. contradiction.
Qed.

(** X6. For a reply whose brace span decodes to a dict: when a
    normalization step raises, the fallback record is returned;
    otherwise the match score of the record is the one the model gave,
    unchanged whatever its type or range, or 0 when it gave none, and
    every key outside the schema (neither required nor written by the
    normalization) comes out with the value the model gave it, or stays
    absent. *)
Theorem parse_response_passes_through
    (json_loads : string -> exc pyval) (py_repr : pyval -> string)
    (response span : string) (info : pydict) :
  json_span response = Some span ->
  json_loads span = Ok (PDict info) ->
  (is_ok (normalize py_repr info) = false ->
   _parse_response json_loads py_repr response = Ok fallback_record) /\
  (forall record,
     normalize py_repr info = Ok record ->
     _parse_response json_loads py_repr response = Ok record /\
     dict_get "match_score" record
     = Some (match dict_get "match_score" info with Some v => v | None => PInt 0 end) /\
     (forall k, ~ In k required_fields -> ~ In k rewritten_fields ->
        dict_get k record = dict_get k info)).
Proof.
  intros Hspan Hloads.
  pose proof (parse_body_decoded json_loads py_repr response span info Hspan Hloads) as Hbody.
  unfold _parse_response. rewrite Hbody. split.
  - destruct (normalize py_repr info); [discriminate | reflexivity].
  - intros record Hn. rewrite Hn. split; [reflexivity|].
    destruct (normalize_get py_repr info record Hn) as (Hget & Hms & _).
    split; [exact Hms|].
    intros k Hreq Hrew. rewrite (Hget k Hrew). now apply not_required_get.
Qed.

Lemma parse_response_passes_through_witness :
  exists record,
    _parse_response JsonSubset.loads JsonSubset.repr
      (JsonSubset.text "Here it is: {'name': 'Ada', 'match_score': '150%', 'years_of_experience': 7}")
    = Ok record /\
    dict_get "match_score" record = Some (PStr "150%") /\
    dict_get "years_of_experience" record = Some (PInt 7).
Proof.
  destruct (parse_response_passes_through JsonSubset.loads JsonSubset.repr
              (JsonSubset.text "Here it is: {'name': 'Ada', 'match_score': '150%', 'years_of_experience': 7}")
              (JsonSubset.text "{'name': 'Ada', 'match_score': '150%', 'years_of_experience': 7}")
              [("name", PStr "Ada"); ("match_score", PStr "150%");
               ("years_of_experience", PInt 7)]
              eq_refl eq_refl) as (_ & H).
  destruct (normalize JsonSubset.repr
              [("name", PStr "Ada"); ("match_score", PStr "150%");
               ("years_of_experience", PInt 7)]) as [record|e] eqn:E;
    [|vm_compute in E; discriminate E].
  destruct (H record eq_refl) as (Hrun & Hms & Hkeys).
  exists record. split; [exact Hrun|]. split; [exact Hms|].
  apply (Hkeys "years_of_experience"); vm_compute; intuition discriminate.
Defined.

(** ** The brace span of a reply *)

Lemma find_from_app c pre rest i :
  ~ In c (list_ascii_of_string pre) ->
  PyStr.find_from c (pre +:+ String c rest) i = i + PyStr.len pre.
Proof.
  unfold PyStr.len. revert i. induction pre as [|a pre IH]; intros i Hno.
  - simpl. rewrite Ascii.eqb_refl. lia.
  - rewrite append_cons. simpl in Hno |- *.
    destruct (Ascii.eqb_spec a c) as [->|Hne]; [exfalso; apply Hno; now left|].
    rewrite IH by (intros H; apply Hno; now right). lia.
Qed.

Lemma rfind_from_app c s post i last :
  ~ In c (list_ascii_of_string post) ->
  PyStr.rfind_from c (s +:+ String c post) i last = i + PyStr.len s.
Proof.
  unfold PyStr.len. revert i last. induction s as [|a s IH]; intros i last Hno.
  - simpl. rewrite Ascii.eqb_refl. rewrite rfind_from_absent by assumption. lia.
  - rewrite append_cons. simpl. rewrite IH by assumption. lia.
Qed.

Lemma length_append (a b : string) :
  String.length (a +:+ b) = (String.length a + String.length b)%nat.
Proof. induction a as [|x a IH]; [reflexivity | rewrite append_cons; simpl; now rewrite IH]. Qed.

Lemma substring_prefix (body post : string) :
  String.substring 0 (String.length body) (body +:+ post) = body.
Proof.
  induction body as [|x body IH].
  - now destruct post.
  - rewrite append_cons. simpl. now rewrite IH.
Qed.

Lemma substring_middle (pre body post : string) :
  String.substring (String.length pre) (String.length body) (pre +:+ body +:+ post) = body.
Proof.
  induction pre as [|x pre IH]; [rewrite append_nil; apply substring_prefix|].
  rewrite append_cons. simpl. exact IH.
Qed.

Lemma json_span_embedded pre inner post :
  ~ In "{"%char (list_ascii_of_string pre) ->
  ~ In "}"%char (list_ascii_of_string post) ->
  json_span (pre +:+ ("{" +:+ inner +:+ "}") +:+ post) = Some ("{" +:+ inner +:+ "}").
Proof.
  intros Hpre Hpost. unfold json_span, PyStr.find, PyStr.rfind.
  set (body := "{" +:+ inner +:+ "}").
  assert (Hfind : PyStr.find_from "{" (pre +:+ body +:+ post) 0 = PyStr.len pre).
  { unfold body. rewrite !append_cons, append_nil.
    now rewrite find_from_app by assumption. }
  assert (Hrfind : PyStr.rfind_from "}" (pre +:+ body +:+ post) 0 (-1)
                   = PyStr.len pre + PyStr.len body - 1).
  { replace (pre +:+ body +:+ post) with ((pre +:+ "{" +:+ inner) +:+ String "}" post).
    - rewrite rfind_from_app by assumption. unfold PyStr.len, body.
      rewrite !length_append. simpl String.length. lia.
    - unfold body. rewrite !append_assoc. reflexivity. }
  rewrite Hfind, Hrfind.
  assert (Hlen : 0 < PyStr.len body).
  { unfold PyStr.len, body. rewrite append_cons. simpl String.length. lia. }
  assert (H0 : 0 <= PyStr.len pre) by (unfold PyStr.len; lia).
  replace ((0 <=? PyStr.len pre) && (PyStr.len pre <? PyStr.len pre + PyStr.len body - 1 + 1))
    with true by (symmetry; apply andb_true_iff; split; [apply Z.leb_le | apply Z.ltb_lt]; lia).
  f_equal. unfold PyStr.slice.
  replace (Z.to_nat (PyStr.len pre)) with (String.length pre) by (unfold PyStr.len; lia).
  replace (Z.to_nat (PyStr.len pre + PyStr.len body - 1 + 1 - PyStr.len pre))
    with (String.length body) by (unfold PyStr.len; lia).
  apply substring_middle.
Qed.

(** X7. Text around the JSON object is ignored: when the text before
    an object holds no opening brace and the text after it no closing
    brace, the span found is the object, and the reply is parsed as the
    object alone would be. *)
Theorem parse_response_ignores_surroundings
    (json_loads : string -> exc pyval) (py_repr : pyval -> string)
    (pre inner post : string) :
  ~ In "{"%char (list_ascii_of_string pre) ->
  ~ In "}"%char (list_ascii_of_string post) ->
  json_span (pre +:+ ("{" +:+ inner +:+ "}") +:+ post) = Some ("{" +:+ inner +:+ "}") /\
  _parse_response json_loads py_repr (pre +:+ ("{" +:+ inner +:+ "}") +:+ post)
  = _parse_response json_loads py_repr ("{" +:+ inner +:+ "}").
Proof.
  intros Hpre Hpost.
  pose proof (json_span_embedded pre inner post Hpre Hpost) as Hspan.
  pose proof (json_span_embedded "" inner "" ltac:(intros []) ltac:(intros [])) as Hself.
  rewrite append_nil, append_nil_r in Hself.
  split; [exact Hspan|].
  unfold _parse_response. f_equal.
  unfold json_span in Hspan, Hself. unfold parse_body.
  destruct ((0 <=? PyStr.find "{" (pre +:+ ("{" +:+ inner +:+ "}") +:+ post)) &&
            (PyStr.find "{" (pre +:+ ("{" +:+ inner +:+ "}") +:+ post)
             <? PyStr.rfind "}" (pre +:+ ("{" +:+ inner +:+ "}") +:+ post) + 1));
    [|discriminate].
  destruct ((0 <=? PyStr.find "{" ("{" +:+ inner +:+ "}")) &&
            (PyStr.find "{" ("{" +:+ inner +:+ "}")
             <? PyStr.rfind "}" ("{" +:+ inner +:+ "}") + 1));
    [|discriminate].
  injection Hspan as ->. injection Hself as ->. reflexivity.
Qed.

Lemma parse_response_ignores_surroundings_witness :
  _parse_response JsonSubset.loads JsonSubset.repr
    (JsonSubset.text "Here is the JSON: {'name': 'Ada', 'skills': ['Go']} Hope it helps!")
  = _parse_response JsonSubset.loads JsonSubset.repr
      (JsonSubset.text "{'name': 'Ada', 'skills': ['Go']}").
Proof.
  apply (parse_response_ignores_surroundings JsonSubset.loads JsonSubset.repr
           "Here is the JSON: " (JsonSubset.text "'name': 'Ada', 'skills': ['Go']")
           " Hope it helps!").
  - vm_compute. intuition discriminate.
  - vm_compute. intuition discriminate.
Defined.

(** ** The records of the processor *)

Section RecordFacts.

Variable GEMINI_AVAILABLE : bool.
Variable get_text_from_file : string -> string.
Variable generate_content : nat -> string -> exc string.
Variable uniform_jitter : nat -> Q.
Variable _create_resume_parsing_prompt : string -> string -> string.
Variable _create_resume_parsing_prompt_with_filters : string -> pyval -> string -> exc string.
Variable json_loads : string -> exc pyval.
Variable py_repr : pyval -> string.

Local Abbreviation analyze :=
  (analyze_document GEMINI_AVAILABLE get_text_from_file generate_content uniform_jitter
     _create_resume_parsing_prompt json_loads py_repr).
Local Abbreviation analyze_body :=
  (analyze_document_body GEMINI_AVAILABLE get_text_from_file generate_content uniform_jitter
     _create_resume_parsing_prompt json_loads py_repr).
Local Abbreviation analyze_filtered :=
  (analyze_document_with_filters GEMINI_AVAILABLE get_text_from_file generate_content
     uniform_jitter _create_resume_parsing_prompt_with_filters json_loads py_repr).
Local Abbreviation analyze_filtered_body :=
  (analyze_document_with_filters_body GEMINI_AVAILABLE get_text_from_file generate_content
     uniform_jitter _create_resume_parsing_prompt_with_filters json_loads py_repr).

(** The seven shared fields of a record of [_parse_response], its
    integer experience and its match score. *)
Lemma parsed_record_common response record :
  _parse_response json_loads py_repr response = Ok record ->
  Forall (fun field => dict_has field record = true)
    ["name"; "email"; "phone"; "education"; "experience"; "skills"; "location";
     "match_score"] /\
  exists n, dict_get "experience" record = Some (PInt n).
Proof.
  intros H. destruct (parse_response_cases json_loads py_repr response)
    as [Hf|[info [r [Hn Hr]]]].
  - rewrite Hf in H. injection H as <-. split; [repeat constructor | now exists 0].
  - rewrite Hr in H. injection H as <-.
    destruct (normalize_get py_repr info r Hn) as (_ & Hms & _).
    apply normalize_ok in Hn. split.
    + repeat constructor;
        try solve [apply (normalized_has_required _ _ _ Hn); in_list].
      unfold dict_has. now rewrite Hms.
    + destruct (normalized_experience _ _ Hn) as (n & Hexp & _). now exists n.
Qed.

Lemma add_file_info_identified file_path response record :
  _parse_response json_loads py_repr response = Ok record ->
  identified_record file_path (add_file_info file_path record) /\
  dict_has "match_score" (add_file_info file_path record) = true.
Proof.
  intros H. destruct (parsed_record_common response record H) as (Hall & n & Hexp).
  unfold identified_record, add_file_info.
  rewrite !List.Forall_forall in *.
  split; [split; [|split; [|split]]|].
  - intros field Hin. simpl in Hin.
    destruct Hin as [<-|[<-|[<-|[<-|[<-|[<-|[<-|[<-|[<-|[]]]]]]]]]];
      try solve [do 2 apply dict_has_set; apply Hall; in_list].
    + apply dict_has_set. apply dict_has_set_eq.
    + apply dict_has_set_eq.
  - rewrite dict_get_set_ne by discriminate. apply dict_get_set_eq.
  - apply dict_get_set_eq.
  - exists n. now rewrite !dict_get_set_ne by discriminate.
  - do 2 apply dict_has_set. apply Hall. in_list.
Qed.

Lemma analyze_body_ok file_path w record w' :
  analyze_body file_path w = (Ok record, w') ->
  exists response parsed,
    _parse_response json_loads py_repr response = Ok parsed /\
    record = add_file_info file_path parsed.
Proof.
  unfold analyze_document_body.
  destruct (unreadable _); [discriminate|].
  unfold M_bind, M_lift, M_ret.
  destruct (_call_gemini_with_retry _ _ _ _ _ w) as [[response|e] w1]; [|discriminate].
  destruct (_parse_response json_loads py_repr response) as [parsed|e] eqn:E; [|discriminate].
  intros H. injection H as <- <-. eauto.
Qed.

Lemma analyze_filtered_body_ok file_path user_filters w record w' :
  analyze_filtered_body file_path user_filters w = (Ok record, w') ->
  exists response parsed,
    _parse_response json_loads py_repr response = Ok parsed /\
    record = add_file_info file_path parsed.
Proof.
  unfold analyze_document_with_filters_body.
  destruct (unreadable _); [discriminate|].
  unfold M_bind, M_lift, M_ret.
  destruct (_create_resume_parsing_prompt_with_filters _ _ _) as [prompt|e]; [|discriminate].
  destruct (_call_gemini_with_retry _ _ _ _ _ w) as [[response|e] w1]; [|discriminate].
  destruct (_parse_response json_loads py_repr response) as [parsed|e] eqn:E; [|discriminate].
  intros H. injection H as <- <-. eauto.
Qed.

Lemma error_record_identified file_path msg :
  identified_record file_path (error_record file_path msg) /\
  identified_record file_path (error_record_with_filters file_path msg) /\
  identified_record file_path (unavailable_record file_path) /\
  identified_record file_path (unavailable_record_with_filters file_path).
Proof.
  unfold identified_record. repeat split; try (repeat constructor; fail); now exists 0.
Qed.

Lemma analyze_identified file_path w :
  exists record w',
    analyze file_path w = (Ok record, w') /\ identified_record file_path record.
Proof.
  unfold analyze_document, M_try, M_ret.
  destruct (negb GEMINI_AVAILABLE).
  - eexists _, _. split; [reflexivity|]. apply (error_record_identified file_path "").
  - destruct (analyze_body file_path w) as [[record|e] w'] eqn:E.
    + destruct (analyze_body_ok _ _ _ _ E) as (response & parsed & Hp & ->).
      eexists _, _. split; [reflexivity|].
      apply (add_file_info_identified file_path response parsed Hp).
    + eexists _, _. split; [reflexivity|]. apply error_record_identified.
Qed.

Lemma analyze_filtered_identified file_path user_filters w :
  exists record w',
    analyze_filtered file_path user_filters w = (Ok record, w') /\
    identified_record file_path record /\
    dict_has "match_score" record = true.
Proof.
  unfold analyze_document_with_filters, M_try, M_ret.
  destruct (negb GEMINI_AVAILABLE).
  - eexists _, _. split; [reflexivity|].
    split; [apply (error_record_identified file_path "") | reflexivity].
  - destruct (analyze_filtered_body file_path user_filters w) as [[record|e] w'] eqn:E.
    + destruct (analyze_filtered_body_ok _ _ _ _ _ E) as (response & parsed & Hp & ->).
      eexists _, _. split; [reflexivity|].
      apply (add_file_info_identified file_path response parsed Hp).
    + eexists _, _. split; [reflexivity|].
      split; [apply error_record_identified | reflexivity].
Qed.

(** X8. [analyze_document] and [analyze_document_with_filters] return
    a record on every path (library missing, unreadable file, retries
    exhausted, reply parsed or not), and every such record has the
    fields name, email, phone, education, experience, skills, location,
    filename and file_path: filename is the base name of the path,
    file_path the path itself, experience an integer. With filters the
    record also has a match_score. *)
Theorem analyze_document_record_keys (file_path : string) (user_filters : pyval) (w : World) :
  (exists record w',
     analyze file_path w = (Ok record, w') /\ identified_record file_path record) /\
  (exists record w',
     analyze_filtered file_path user_filters w = (Ok record, w') /\
     identified_record file_path record /\
     dict_has "match_score" record = true).
Proof.
  split; [apply analyze_identified | apply analyze_filtered_identified].
Qed.

End RecordFacts.

(** ** What the model is sent *)

Lemma truncate_text_length text :
  PyStr.len (truncate_text text) <= 30000 /\
  (unreadable (truncate_text text) = false -> 50 <= PyStr.len (truncate_text text)).
Proof.
  split.
  - unfold truncate_text, PyStr.len.
    destruct (30000 <? Z.of_nat (String.length text)) eqn:Hlong.
    + apply Z.ltb_lt in Hlong. rewrite take_length by lia. lia.
    + apply Z.ltb_ge in Hlong. lia.
  - unfold unreadable. intros H.
    apply orb_false_iff in H. destruct H as [_ H]. apply Z.ltb_ge in H. lia.
Qed.

Lemma retry_loop_calls generate_content uniform_jitter prompt max_retries remaining :
  forall last w,
    exists evs,
      events (snd (retry_loop true generate_content uniform_jitter prompt max_retries
                     remaining last w))
      = (events w ++ evs)%list /\
      forall p, In (EvCall p) evs -> p = prompt.
Proof.
  induction remaining as [|n IH]; intros last w.
  - exists []. simpl. rewrite app_nil_r. split; [reflexivity | intros p []].
  - destruct (generate_content (model_calls w) prompt) as [reply|e] eqn:Hcall.
    + rewrite (retry_loop_success _ _ _ _ _ _ _ _ Hcall). cbn [snd].
      destruct (after_successful_attempt_events prompt w) as (s & ->).
      eexists. split; [reflexivity|].
      intros p Hin. simpl in Hin. intuition congruence.
    + rewrite (retry_loop_failure _ _ _ _ _ _ _ _ Hcall).
      destruct (after_failed_attempt_events uniform_jitter prompt w) as (s & d & Hev).
      destruct (IH (Some (wrapped e)) (after_failed_attempt uniform_jitter prompt w))
        as (evs & Hev' & Hall).
      exists ([EvWait s; EvCall prompt; EvFailure d; EvSleep d] ++ evs)%list.
      split.
      * rewrite Hev', Hev, <- app_assoc. reflexivity.
      * intros p Hin. apply in_app_or in Hin. destruct Hin as [Hin|Hin]; [|now apply Hall].
        simpl in Hin. intuition congruence.
Qed.

Lemma retry_wrapper_calls available generate_content uniform_jitter prompt max_retries w :
  exists evs,
    events (snd (_call_gemini_with_retry available generate_content uniform_jitter prompt
                   max_retries w))
    = (events w ++ evs)%list /\
    (forall p, In (EvCall p) evs -> p = prompt) /\
    (model_calls (snd (_call_gemini_with_retry available generate_content uniform_jitter
                         prompt max_retries w))
     <= model_calls w + Z.to_nat max_retries)%nat.
Proof.
  unfold _call_gemini_with_retry. destruct available; cbn [negb].
  - destruct (retry_loop_calls generate_content uniform_jitter prompt max_retries
                (Z.to_nat max_retries) None w) as (evs & Hev & Hall).
    exists evs. split; [exact Hev|]. split; [exact Hall|].
    destruct (retry_loop_accounting generate_content uniform_jitter prompt max_retries
                (Z.to_nat max_retries) None w) as (k & Hk & Hacc).
    destruct (retry_loop _ _ _ _ _ _ _ w) as [[reply|e] w']; cbn [snd];
      destruct Hacc as (_ & Hcalls & _); lia.
  - exists []. unfold M_ret. simpl. rewrite app_nil_r.
    split; [reflexivity|]. split; [intros p [] | lia].
Qed.

Section PromptFacts.

Variable GEMINI_AVAILABLE : bool.
Variable get_text_from_file : string -> string.
Variable generate_content : nat -> string -> exc string.
Variable uniform_jitter : nat -> Q.
Variable _create_resume_parsing_prompt : string -> string -> string.
Variable _create_resume_parsing_prompt_with_filters : string -> pyval -> string -> exc string.
Variable json_loads : string -> exc pyval.
Variable py_repr : pyval -> string.

Local Abbreviation analyze :=
  (analyze_document GEMINI_AVAILABLE get_text_from_file generate_content uniform_jitter
     _create_resume_parsing_prompt json_loads py_repr).
Local Abbreviation analyze_filtered :=
  (analyze_document_with_filters GEMINI_AVAILABLE get_text_from_file generate_content
     uniform_jitter _create_resume_parsing_prompt_with_filters json_loads py_repr).

Lemma no_event (w : World) :
  exists evs : list event,
    events w = (events w ++ evs)%list /\ forall p, In (EvCall p) evs -> False.
Proof. exists []. rewrite app_nil_r. split; [reflexivity | intros p []]. Qed.

Ltac no_call w :=
  let evs := fresh "evs" in
  let Hev := fresh "Hev" in
  let Hnone := fresh "Hnone" in
  let p := fresh "p" in
  let Hp := fresh "Hp" in
  destruct (no_event w) as (evs & Hev & Hnone); exists evs;
  split; [exact Hev|]; split; [intros p Hp; destruct (Hnone p Hp) | unfold raise; cbn [snd]; lia].

(** X9. Every model call made for a document carries the prompt
    built from the text of the document, cut to 30000 characters, and
    the name hint; a call is only made when that text has at least 50
    characters; and at most three calls are made per document. *)
Theorem analyze_document_prompt_text (file_path : string) (user_filters : pyval) (w : World) :
  (exists evs,
     events (snd (analyze file_path w)) = (events w ++ evs)%list /\
     (forall p, In (EvCall p) evs ->
        p = _create_resume_parsing_prompt (truncate_text (get_text_from_file file_path))
              (name_hint file_path) /\
        50 <= PyStr.len (truncate_text (get_text_from_file file_path)) <= 30000) /\
     (model_calls (snd (analyze file_path w)) <= model_calls w + 3)%nat) /\
  (exists evs,
     events (snd (analyze_filtered file_path user_filters w)) = (events w ++ evs)%list /\
     (forall p, In (EvCall p) evs ->
        _create_resume_parsing_prompt_with_filters
          (truncate_text (get_text_from_file file_path)) user_filters (name_hint file_path)
        = Ok p /\
        50 <= PyStr.len (truncate_text (get_text_from_file file_path)) <= 30000) /\
     (model_calls (snd (analyze_filtered file_path user_filters w)) <= model_calls w + 3)%nat).
Proof.
  pose proof (truncate_text_length (get_text_from_file file_path)) as (Hmax & Hmin).
  split.
  - unfold analyze_document, analyze_document_body, M_try, M_bind, M_lift, M_ret, M_raise, raise.
    destruct (negb GEMINI_AVAILABLE); [no_call w|].
    destruct (unreadable (truncate_text (get_text_from_file file_path))) eqn:Hu; [no_call w|].
    cbv beta iota.
    destruct (retry_wrapper_calls GEMINI_AVAILABLE generate_content uniform_jitter
                (_create_resume_parsing_prompt (truncate_text (get_text_from_file file_path))
                   (name_hint file_path)) default_max_retries w) as (evs & Hev & Hall & Hcalls).
    change (Z.to_nat default_max_retries) with 3%nat in Hcalls.
    destruct (_call_gemini_with_retry _ _ _ _ _ w) as [[response|e] w1];
      cbn [snd] in Hev, Hcalls.
    + destruct (_parse_response json_loads py_repr response); cbn [snd];
        (exists evs; split; [exact Hev|]; split; [|exact Hcalls];
         intros p Hp; split; [now apply Hall | auto]).
    + cbn [snd]. exists evs. split; [exact Hev|]. split; [|exact Hcalls].
      intros p Hp. split; [now apply Hall | auto].
  - unfold analyze_document_with_filters, analyze_document_with_filters_body,
      M_try, M_bind, M_lift, M_ret, M_raise, raise.
    destruct (negb GEMINI_AVAILABLE); [no_call w|].
    destruct (unreadable (truncate_text (get_text_from_file file_path))) eqn:Hu; [no_call w|].
    cbv beta iota.
    destruct (_create_resume_parsing_prompt_with_filters _ _ _) as [prompt|e0];
      [|no_call w].
    destruct (retry_wrapper_calls GEMINI_AVAILABLE generate_content uniform_jitter
                prompt default_max_retries w) as (evs & Hev & Hall & Hcalls).
    change (Z.to_nat default_max_retries) with 3%nat in Hcalls.
    destruct (_call_gemini_with_retry _ _ _ _ _ w) as [[response|e] w1];
      cbn [snd] in Hev, Hcalls.
    + destruct (_parse_response json_loads py_repr response); cbn [snd];
        (exists evs; split; [exact Hev|]; split; [|exact Hcalls];
         intros p Hp; split; [now rewrite (Hall p Hp) | auto]).
    + cbn [snd]. exists evs. split; [exact Hev|]. split; [|exact Hcalls].
      intros p Hp. split; [now rewrite (Hall p Hp) | auto].
Qed.

End PromptFacts.

(** ** The worker run alone *)

Section WorkerFacts.

Variable W : Type.
Variable processor_analyze : string -> W -> exc pydict * W.
Variable processor_analyze_with_filters : string -> pyval -> W -> exc pydict * W.

Local Abbreviation step_of := (step W processor_analyze processor_analyze_with_filters).
Local Abbreviation run_of := (run W processor_analyze processor_analyze_with_filters).
Local Abbreviation tasks_of :=
  (process_tasks W processor_analyze processor_analyze_with_filters).

Lemma process_tasks_drains ts :
  forall q w,
    queue q = ts ->
    (forall t, t ∈ ts -> is_Some (results q !! task_id t)) ->
    queue (fst (tasks_of ts q w)) = [] /\
    processing (fst (tasks_of ts q w)) = false /\
    (forall t, t ∈ ts ->
       exists e, results (fst (tasks_of ts q w)) !! task_id t = Some e /\ terminal e) /\
    (forall id, id ∉ task_id <$> ts ->
       results (fst (tasks_of ts q w)) !! id = results q !! id).
Proof.
  induction ts as [|t rest IH]; intros q w Hq Hall.
  - simpl. repeat split; try assumption.
    intros t Ht. now apply elem_of_nil in Ht.
  - simpl. unfold mark_processing. cbn [results queue processing].
    destruct (Hall t) as [e He]; [now left|]. rewrite He.
    destruct (run_task W processor_analyze processor_analyze_with_filters t w)
      as [r w1] eqn:Hrun.
    set (q1 := store_outcome (task_id t) r _).
    assert (Hres1 : results q1
                    = <[task_id t := outcome_entry r]>
                        (<[task_id t := {| entry_status := Processing;
                                           entry_data := entry_data e;
                                           entry_error := entry_error e |}]> (results q)))
      by reflexivity.
    destruct (IH q1 w1) as (Hempty & Hflag & Hdone & Hother).
    + reflexivity.
    + intros t' Ht'. rewrite Hres1.
      destruct (decide (task_id t = task_id t')) as [Heq|Hne].
      * rewrite Heq, lookup_insert_eq. eauto.
      * rewrite !lookup_insert_ne by assumption. apply Hall. now right.
    + split; [exact Hempty|]. split; [exact Hflag|]. split.
      * intros t' Ht'. apply elem_of_cons in Ht'. destruct Ht' as [->|Ht']; [|now apply Hdone].
        destruct (decide (task_id t ∈ task_id <$> rest)) as [Hin|Hout].
        -- apply list_elem_of_fmap in Hin. destruct Hin as (t' & Heq & Ht').
           rewrite Heq. now apply Hdone.
        -- rewrite (Hother _ Hout), Hres1, lookup_insert_eq.
           eexists. split; [reflexivity|]. unfold terminal. destruct r; simpl; auto.
      * intros id Hid.
        change (task_id <$> t :: rest) with (task_id t :: (task_id <$> rest)) in Hid.
        apply not_elem_of_cons in Hid.
        destruct Hid as [Hne Hid].
        rewrite (Hother _ Hid), Hres1, !lookup_insert_ne by congruence. reflexivity.
Qed.

(** X10. [_process_queue] run alone, on a queue whose tasks all have
    an entry: it ends with the queue empty and the flag down, so that
    [is_queue_empty()] holds; every task it took is completed or failed;
    and the entries of the other ids are as they were. *)
Theorem process_queue_drains (q : ProcessingQueue) (w : W) :
  (forall t, t ∈ queue q -> is_Some (results q !! task_id t)) ->
  let q' := fst (_process_queue W processor_analyze processor_analyze_with_filters q w) in
  is_queue_empty q' = true /\
  (forall t, t ∈ queue q -> terminal (get_result (task_id t) q')) /\
  (forall id, id ∉ task_id <$> queue q -> get_result id q' = get_result id q).
Proof.
  intros Hall. cbn zeta. unfold _process_queue.
  destruct (process_tasks_drains (queue q) q w eq_refl Hall)
    as (Hempty & Hflag & Hdone & Hother).
  split; [|split].
  - unfold is_queue_empty. now rewrite Hempty, Hflag.
  - intros t Ht. destruct (Hdone t Ht) as (e & He & Hterm).
    unfold get_result. rewrite He. exact Hterm.
  - intros id Hid. unfold get_result. now rewrite (Hother id Hid).
Qed.

End WorkerFacts.

Lemma process_queue_drains_witness :
  is_queue_empty
    (fst (_process_queue World Demo.analyze Demo.analyze_with_filters
            (snd (fst (add_task "uploads/grace.pdf" PNone
                         (snd (fst (add_task "uploads/ada.pdf" PNone empty_queue))))))
            initial_world))
  = true.
Proof.
  apply (process_queue_drains World Demo.analyze Demo.analyze_with_filters
           (snd (fst (add_task "uploads/grace.pdf" PNone
                        (snd (fst (add_task "uploads/ada.pdf" PNone empty_queue))))))
           initial_world).
  intros t Ht. vm_compute in Ht.
  apply elem_of_cons in Ht. destruct Ht as [->|Ht]; [vm_compute; eauto|].
  apply elem_of_cons in Ht. destruct Ht as [->|Ht]; [vm_compute; eauto|].
  now apply elem_of_nil in Ht.
Defined.

(** ** Worker threads under every schedule *)

Lemma live_workers_app ws ws' :
  live_workers (ws ++ ws') = (live_workers ws + live_workers ws')%nat.
Proof. unfold live_workers. now rewrite List.filter_app, List.length_app. Qed.

Lemma live_workers_insert ws i pc pc' :
  ws !! i = Some pc ->
  (live_workers (<[i := pc']> ws) + (if alive pc then 1 else 0)
   = live_workers ws + (if alive pc' then 1 else 0))%nat.
Proof.
  revert i. induction ws as [|a ws IH]; intros i Hi; [discriminate|].
  destruct i as [|i]; simpl in Hi.
  - injection Hi as ->. unfold live_workers. simpl.
    destruct (alive pc), (alive pc'); simpl; lia.
  - specialize (IH i Hi). unfold live_workers in *. simpl.
    destruct (alive a); simpl; lia.
Qed.

Lemma live_workers_none ws i pc :
  live_workers ws = 0%nat -> ws !! i = Some pc -> alive pc = false.
Proof.
  revert i. induction ws as [|a ws IH]; intros i Hz Hi; [discriminate|].
  unfold live_workers in *. simpl in Hz.
  destruct (alive a) eqn:Ha; [discriminate|].
  destruct i as [|i]; simpl in Hi; [congruence | eauto].
Qed.

Section ThreadFacts.

Variable W : Type.
Variable processor_analyze : string -> W -> exc pydict * W.
Variable processor_analyze_with_filters : string -> pyval -> W -> exc pydict * W.

Local Abbreviation step_of := (step W processor_analyze processor_analyze_with_filters).
Local Abbreviation run_of := (run W processor_analyze processor_analyze_with_filters).

Lemma step_one_worker s l s' :
  one_worker s -> step_of s l = Some s' -> one_worker s'.
Proof.
  unfold one_worker. intros (Hle & Hoff) Hstep.
  destruct s as [[q res flag] w c ws]. simpl in Hle, Hoff.
  destruct l; simpl in Hstep.
  - destruct c; try discriminate. injection Hstep as <-. simpl. auto.
  - destruct c; try discriminate. injection Hstep as <-. simpl. auto.
  - destruct c; try discriminate. unfold start_processing in Hstep. simpl in Hstep.
    destruct flag; simpl in Hstep; injection Hstep as <-; simpl.
    + split; [assumption | discriminate].
    + rewrite live_workers_app, (Hoff eq_refl). split; [reflexivity | discriminate].
  - destruct (ws !! i) as [[]|] eqn:Hi; try discriminate.
    destruct q as [|t rest]; try discriminate. injection Hstep as <-. simpl.
    pose proof (live_workers_insert ws i _ (Dequeued t) Hi) as H. simpl in H.
    split; [lia | intros Hf; specialize (Hoff Hf); lia].
  - destruct (ws !! i) as [[]|] eqn:Hi; try discriminate.
    unfold mark_processing in Hstep. simpl in Hstep.
    destruct (res !! task_id t) as [e|] eqn:He; injection Hstep as <-; simpl.
    + pose proof (live_workers_insert ws i _ (Analyzing t) Hi) as H. simpl in H.
      split; [lia | intros Hf; specialize (Hoff Hf); lia].
    + pose proof (live_workers_insert ws i _ Crashed Hi) as H. simpl in H.
      split; [lia | intros Hf; specialize (Hoff Hf); lia].
  - destruct (ws !! i) as [[]|] eqn:Hi; try discriminate.
    destruct (run_task W processor_analyze processor_analyze_with_filters t w) as [r w'].
    injection Hstep as <-. simpl.
    pose proof (live_workers_insert ws i _ AtLoopHead Hi) as H. simpl in H.
    split; [lia | intros Hf; specialize (Hoff Hf); lia].
  - destruct (ws !! i) as [[]|] eqn:Hi; try discriminate.
    destruct q; try discriminate. injection Hstep as <-. simpl.
    pose proof (live_workers_insert ws i _ Leaving Hi) as H. simpl in H.
    split; [lia | intros Hf; specialize (Hoff Hf); lia].
  - destruct (ws !! i) as [[]|] eqn:Hi; try discriminate.
    injection Hstep as <-. simpl.
    pose proof (live_workers_insert ws i _ Exited Hi) as H. simpl in H.
    split; [lia | intros _; lia].
Qed.

Lemma run_preserves (P : System W -> Prop) :
  (forall s l s', P s -> step_of s l = Some s' -> P s') ->
  forall ls s s', P s -> run_of s ls = Some s' -> P s'.
Proof.
  intros Hstep. induction ls as [|l ls IH]; intros s s' Hs Hrun; simpl in Hrun.
  - now injection Hrun as <-.
  - destruct (step_of s l) as [s1|] eqn:E; [|discriminate]. eauto.
Qed.

(** X11. With one thread calling [add_task], at most one worker
    thread is inside [_process_queue] at any time, under every schedule;
    and when the [processing] flag is down, none is. *)
Theorem at_most_one_worker (w : W) (schedule : list label) (s : System W) :
  run_of (initial_system W w) schedule = Some s ->
  (live_workers (sys_workers W s) <= 1)%nat /\
  (processing (sys_queue W s) = false -> live_workers (sys_workers W s) = 0%nat).
Proof.
  intros Hrun.
  apply (run_preserves one_worker step_one_worker schedule (initial_system W w) s);
    [|exact Hrun].
  split; [unfold live_workers; simpl; lia | intros _; reflexivity].
Qed.

(** Stored entries stay: no statement removes a key of [results]. *)
Lemma step_keeps_entries s l s' id :
  step_of s l = Some s' -> is_Some (entry_of W s id) -> is_Some (entry_of W s' id).
Proof.
  unfold entry_of. intros Hstep Hid.
  destruct s as [[q res flag] w c ws]. simpl in Hid.
  destruct l; simpl in Hstep.
  - destruct c; try discriminate. now injection Hstep as <-.
  - destruct c; try discriminate. injection Hstep as <-. simpl.
    apply lookup_insert_is_Some. destruct (decide (task_id t = id)); auto.
  - destruct c; try discriminate. unfold start_processing in Hstep. simpl in Hstep.
    destruct (negb flag); now injection Hstep as <-.
  - destruct (ws !! i) as [[]|] eqn:Hi; try discriminate.
    destruct q as [|t rest]; try discriminate. now injection Hstep as <-.
  - destruct (ws !! i) as [[]|] eqn:Hi; try discriminate.
    unfold mark_processing in Hstep. simpl in Hstep.
    destruct (res !! task_id t) as [e|] eqn:He; injection Hstep as <-; simpl;
      [|assumption].
    apply lookup_insert_is_Some. destruct (decide (task_id t = id)); auto.
  - destruct (ws !! i) as [[]|] eqn:Hi; try discriminate.
    destruct (run_task W processor_analyze processor_analyze_with_filters t w) as [r w'].
    injection Hstep as <-. simpl.
    apply lookup_insert_is_Some. destruct (decide (task_id t = id)); auto.
  - destruct (ws !! i) as [[]|] eqn:Hi; try discriminate.
    destruct q; try discriminate. now injection Hstep as <-.
  - destruct (ws !! i) as [[]|] eqn:Hi; try discriminate.
    now injection Hstep as <-.
Qed.

Lemma step_sound_entries s l s' :
  sound_entries s -> step_of s l = Some s' -> sound_entries s'.
Proof.
  unfold sound_entries, entry_of. intros Hk Hstep id e0.
  destruct s as [[q res flag] w c ws]. simpl in Hk.
  destruct l; simpl in Hstep.
  - destruct c; try discriminate. injection Hstep as <-. apply Hk.
  - destruct c; try discriminate. injection Hstep as <-. simpl.
    destruct (decide (task_id t = id)) as [<-|Hne].
    + rewrite lookup_insert_eq. intros [= <-]. split; discriminate.
    + rewrite lookup_insert_ne by assumption. apply Hk.
  - destruct c; try discriminate. unfold start_processing in Hstep. simpl in Hstep.
    destruct (negb flag); injection Hstep as <-; apply Hk.
  - destruct (ws !! i) as [[]|] eqn:Hi; try discriminate.
    destruct q as [|t rest]; try discriminate. injection Hstep as <-. apply Hk.
  - destruct (ws !! i) as [[]|] eqn:Hi; try discriminate.
    unfold mark_processing in Hstep. simpl in Hstep.
    destruct (res !! task_id t) as [e|] eqn:He; injection Hstep as <-; simpl;
      [|apply Hk].
    destruct (decide (task_id t = id)) as [<-|Hne].
    + rewrite lookup_insert_eq. intros [= <-]. split; discriminate.
    + rewrite lookup_insert_ne by assumption. apply Hk.
  - destruct (ws !! i) as [[]|] eqn:Hi; try discriminate.
    destruct (run_task W processor_analyze processor_analyze_with_filters t w) as [r w'].
    injection Hstep as <-. simpl.
    destruct (decide (task_id t = id)) as [<-|Hne].
    + rewrite lookup_insert_eq. intros [= <-].
      destruct r; simpl; split; try discriminate; eauto.
    + rewrite lookup_insert_ne by assumption. apply Hk.
  - destruct (ws !! i) as [[]|] eqn:Hi; try discriminate.
    destruct q; try discriminate. injection Hstep as <-. apply Hk.
  - destruct (ws !! i) as [[]|] eqn:Hi; try discriminate.
    injection Hstep as <-. apply Hk.
Qed.

Lemma reachable_sound_entries w schedule s :
  run_of (initial_system W w) schedule = Some s -> sound_entries s.
Proof.
  intros Hrun.
  apply (run_preserves (@sound_entries W) step_sound_entries schedule
           (initial_system W w) s); [|exact Hrun].
  intros id0 e0 H. discriminate H.
Qed.

(** X12. [get_result] answers [unknown] exactly for the ids that have
    no entry, and an id that has an entry keeps one under every later
    schedule: nothing is ever removed from [results]. *)
Theorem results_are_kept (w : W) (before after : list label) (s s' : System W) (id : string) :
  run_of (initial_system W w) before = Some s ->
  run_of s after = Some s' ->
  (entry_status (get_result id (sys_queue W s)) = Unknown <-> entry_of W s id = None) /\
  (entry_status (get_result id (sys_queue W s)) <> Unknown ->
   entry_status (get_result id (sys_queue W s')) <> Unknown).
Proof.
  intros Hrun Hrun'.
  pose proof (reachable_sound_entries w before s Hrun) as Hk.
  assert (Hk' : sound_entries s').
  { apply (run_preserves (@sound_entries W) step_sound_entries after s s'); assumption. }
  assert (Hkeep : is_Some (entry_of W s id) -> is_Some (entry_of W s' id)).
  { intros Hid.
    apply (run_preserves (fun s0 => is_Some (entry_of W s0 id))
             (fun s0 l s1 H0 H1 => step_keeps_entries s0 l s1 id H1 H0) after s s');
      assumption. }
  unfold get_result. fold (entry_of W s id). fold (entry_of W s' id). split.
  - destruct (entry_of W s id) as [e|] eqn:E; simpl.
    + split; [intros H; destruct (proj1 (Hk id e E) H) | discriminate].
    + split; reflexivity.
  - intros Hs. destruct (entry_of W s id) as [e|] eqn:E; simpl in Hs; [|congruence].
    destruct Hkeep as [e' He']; [eauto|]. rewrite He'. simpl. exact (proj1 (Hk' id e' He')).
Qed.

(** X13. Under every schedule [get_all_results()] lists exactly the
    ids that [get_all_task_statuses()] shows as completed, each with the
    data [get_result] returns for it: a completed entry always has its
    data, so the test [data is not None] leaves nothing out. *)
Theorem completed_results_listed (w : W) (schedule : list label) (s : System W) (id : string) :
  run_of (initial_system W w) schedule = Some s ->
  (is_Some (get_all_results (sys_queue W s) !! id)
   <-> get_all_task_statuses (sys_queue W s) !! id = Some Completed) /\
  (forall record,
     get_all_results (sys_queue W s) !! id = Some record ->
     entry_data (get_result id (sys_queue W s)) = Some record).
Proof.
  intros Hrun. pose proof (reachable_sound_entries w schedule s Hrun) as Hk.
  unfold get_all_results, get_all_task_statuses, get_result.
  rewrite lookup_omap, lookup_fmap. fold (entry_of W s id).
  destruct (entry_of W s id) as [e|] eqn:E; simpl.
  - destruct (Hk id e E) as (_ & Hdata). split.
    + split.
      * intros [record H]. destruct (entry_status e); try discriminate. reflexivity.
      * intros [= Hst]. rewrite Hst. exact (Hdata Hst).
    + intros record H. destruct (entry_status e); try discriminate. exact H.
  - split; [|discriminate]. split; [intros [record H]; discriminate | discriminate].
Qed.

End ThreadFacts.

Lemma at_most_one_worker_witness :
  exists s,
    Cases.run_from_start
      (Cases.first_done ++ [WorkerLeave 0; WorkerExit 0;
                            CallAddTask "uploads/grace.pdf" PNone; CallRecord; CallStart])
    = Some s /\
    (live_workers (sys_workers World s) <= 1)%nat.
Proof.
  eexists. split; [vm_compute; reflexivity|].
  eapply (fun H => proj1 (at_most_one_worker World Demo.analyze Demo.analyze_with_filters
                            initial_world
                            (Cases.first_done
                               ++ [WorkerLeave 0; WorkerExit 0;
                                   CallAddTask "uploads/grace.pdf" PNone; CallRecord;
                                   CallStart]) _ H)).
  vm_compute. reflexivity.
Defined.

Lemma results_are_kept_witness :
  exists s s',
    Cases.run_from_start Cases.first_done = Some s /\
    run World Demo.analyze Demo.analyze_with_filters s
      [WorkerLeave 0; CallAddTask "uploads/grace.pdf" PNone; CallRecord; CallStart;
       WorkerExit 0] = Some s' /\
    (entry_status (get_result "ada" (sys_queue World s)) <> Unknown ->
     entry_status (get_result "ada" (sys_queue World s')) <> Unknown).
Proof.
  eexists. eexists.
  split; [vm_compute; reflexivity|].
  split; [vm_compute; reflexivity|].
  eapply (fun H1 H2 => proj2 (results_are_kept World Demo.analyze Demo.analyze_with_filters
                                initial_world Cases.first_done
                                [WorkerLeave 0; CallAddTask "uploads/grace.pdf" PNone;
                                 CallRecord; CallStart; WorkerExit 0] _ _ "ada" H1 H2)).
  - vm_compute. reflexivity.
  - vm_compute. reflexivity.
Defined.

Lemma completed_results_listed_witness :
  exists s,
    Cases.run_from_start Cases.first_done = Some s /\
    (is_Some (get_all_results (sys_queue World s) !! "ada")
     <-> get_all_task_statuses (sys_queue World s) !! "ada" = Some Completed).
Proof.
  eexists. split; [vm_compute; reflexivity|].
  eapply (fun H => proj1 (completed_results_listed World Demo.analyze
                            Demo.analyze_with_filters initial_world Cases.first_done
                            _ "ada" H)).
  vm_compute. reflexivity.
Defined.

(** ** The queue of a GeminiProcessor *)

Section GeminiQueue.

Variable GEMINI_AVAILABLE : bool.
Variable get_text_from_file : string -> string.
Variable generate_content : nat -> string -> exc string.
Variable uniform_jitter : nat -> Q.
Variable _create_resume_parsing_prompt : string -> string -> string.
Variable _create_resume_parsing_prompt_with_filters : string -> pyval -> string -> exc string.
Variable json_loads : string -> exc pyval.
Variable py_repr : pyval -> string.

Local Abbreviation analyze :=
  (analyze_document GEMINI_AVAILABLE get_text_from_file generate_content uniform_jitter
     _create_resume_parsing_prompt json_loads py_repr).
Local Abbreviation analyze_filtered :=
  (analyze_document_with_filters GEMINI_AVAILABLE get_text_from_file generate_content
     uniform_jitter _create_resume_parsing_prompt_with_filters json_loads py_repr).

Lemma step_answered s l s' :
  answered s -> step World analyze analyze_filtered s l = Some s' -> answered s'.
Proof.
  unfold answered, entry_of. intros Hk Hstep id e0.
  destruct s as [[q res flag] w c ws]. simpl in Hk.
  destruct l; simpl in Hstep.
  - destruct c; try discriminate. injection Hstep as <-. apply Hk.
  - destruct c; try discriminate. injection Hstep as <-. simpl.
    destruct (decide (task_id t = id)) as [<-|Hne].
    + rewrite lookup_insert_eq. intros [= <-]. split; discriminate.
    + rewrite lookup_insert_ne by assumption. apply Hk.
  - destruct c; try discriminate. unfold start_processing in Hstep. simpl in Hstep.
    destruct (negb flag); injection Hstep as <-; apply Hk.
  - destruct (ws !! i) as [[]|] eqn:Hi; try discriminate.
    destruct q as [|t rest]; try discriminate. injection Hstep as <-. apply Hk.
  - destruct (ws !! i) as [[]|] eqn:Hi; try discriminate.
    unfold mark_processing in Hstep. simpl in Hstep.
    destruct (res !! task_id t) as [e|] eqn:He; injection Hstep as <-; simpl;
      [|apply Hk].
    destruct (decide (task_id t = id)) as [<-|Hne].
    + rewrite lookup_insert_eq. intros [= <-]. split; discriminate.
    + rewrite lookup_insert_ne by assumption. apply Hk.
  - destruct (ws !! i) as [[]|] eqn:Hi; try discriminate.
    unfold run_task in Hstep.
    destruct (py_truthy (task_filters t)).
    + destruct (analyze_filtered_identified GEMINI_AVAILABLE get_text_from_file generate_content
                  uniform_jitter _create_resume_parsing_prompt_with_filters json_loads py_repr
                  (task_path t) (task_filters t) w)
        as (record & w' & Hrun & Hid & _).
      rewrite Hrun in Hstep. injection Hstep as <-. simpl.
      destruct (decide (task_id t = id)) as [<-|Hne].
      * rewrite lookup_insert_eq. intros [= <-]. simpl. split; [discriminate | eauto].
      * rewrite lookup_insert_ne by assumption. apply Hk.
    + destruct (analyze_identified GEMINI_AVAILABLE get_text_from_file generate_content
                  uniform_jitter _create_resume_parsing_prompt json_loads py_repr
                  (task_path t) w) as (record & w' & Hrun & Hid).
      rewrite Hrun in Hstep. injection Hstep as <-. simpl.
      destruct (decide (task_id t = id)) as [<-|Hne].
      * rewrite lookup_insert_eq. intros [= <-]. simpl. split; [discriminate | eauto].
      * rewrite lookup_insert_ne by assumption. apply Hk.
  - destruct (ws !! i) as [[]|] eqn:Hi; try discriminate.
    destruct q; try discriminate. injection Hstep as <-. apply Hk.
  - destruct (ws !! i) as [[]|] eqn:Hi; try discriminate.
    injection Hstep as <-. apply Hk.
Qed.

(** X14. With a [GeminiProcessor] behind the queue no task ever gets
    the status [failed], under every schedule: both analysis methods
    catch their exceptions, so a task whose analysis went wrong is
    [completed], with the error record as its data. Every completed
    entry carries a record with the fields of X8. *)
Theorem gemini_tasks_never_fail (w : World) (schedule : list label) (s : System World)
    (id : string) :
  run World analyze analyze_filtered (initial_system World w) schedule = Some s ->
  entry_status (get_result id (sys_queue World s)) <> Failed /\
  (entry_status (get_result id (sys_queue World s)) = Completed ->
   exists file_path record,
     entry_data (get_result id (sys_queue World s)) = Some record /\
     identified_record file_path record).
Proof.
  intros Hrun.
  assert (Hans : answered s).
  { apply (run_preserves World analyze analyze_filtered answered step_answered
             schedule (initial_system World w) s); [|exact Hrun].
    intros id0 e0 H. discriminate H. }
  unfold get_result. fold (entry_of World s id).
  destruct (entry_of World s id) as [e|] eqn:E; simpl.
  - apply (Hans id e E).
  - split; discriminate.
Qed.

End GeminiQueue.

Lemma gemini_tasks_never_fail_witness :
  exists s,
    Cases.run_from_start Cases.scan_done = Some s /\
    entry_status (get_result "scan" (sys_queue World s)) <> Failed.
Proof.
  eexists. split; [vm_compute; reflexivity|].
  eapply (fun H => proj1 (gemini_tasks_never_fail true Demo.get_text Demo.flaky_model
                            Demo.jitter Demo.prompt Demo.prompt_with_filters
                            JsonSubset.loads JsonSubset.repr initial_world
                            Cases.scan_done _ "scan" H)).
  vm_compute. reflexivity.
Defined.

(** ** Two races between [add_task] and the worker *)

Lemma live_workers_some ws i pc :
  ws !! i = Some pc -> alive pc = true -> (1 <= live_workers ws)%nat.
Proof.
  revert i. induction ws as [|a ws IH]; intros i Hi Ha; [discriminate|].
  unfold live_workers in *. destruct i as [|i]; simpl in Hi |- *.
  - injection Hi as ->. rewrite Ha. simpl. lia.
  - specialize (IH i Hi Ha). destruct (alive a); simpl; lia.
Qed.

Section RaceFacts.

Variable W : Type.
Variable processor_analyze : string -> W -> exc pydict * W.
Variable processor_analyze_with_filters : string -> pyval -> W -> exc pydict * W.

Local Abbreviation step_of := (step W processor_analyze processor_analyze_with_filters).
Local Abbreviation run_of := (run W processor_analyze processor_analyze_with_filters).

(** Without a live worker no statement of a worker can run. *)
Lemma no_worker_no_step s l :
  live_workers (sys_workers W s) = 0%nat -> worker_label l = true -> step_of s l = None.
Proof.
  intros Hz Hl. destruct s as [q w c ws]. simpl in Hz.
  destruct l; try discriminate; simpl;
    destruct (ws !! i) as [pc|] eqn:Hi; try reflexivity;
    pose proof (live_workers_none ws i pc Hz Hi) as Hdead;
    destruct pc; try discriminate; try reflexivity.
Qed.

Lemma reachable_one_worker w schedule s :
  run_of (initial_system W w) schedule = Some s -> one_worker s.
Proof.
  intros Hrun.
  apply (run_preserves W processor_analyze processor_analyze_with_filters one_worker
           (step_one_worker W processor_analyze processor_analyze_with_filters)
           schedule (initial_system W w) s); [|exact Hrun].
  split; [unfold live_workers; simpl; lia | intros _; reflexivity].
Qed.

Lemma live_worker_flag w schedule s i pc :
  run_of (initial_system W w) schedule = Some s ->
  sys_workers W s !! i = Some pc -> alive pc = true ->
  live_workers (sys_workers W s) = 1%nat /\ processing (sys_queue W s) = true.
Proof.
  intros Hrun Hi Ha. destruct (reachable_one_worker w schedule s Hrun) as (Hle & Hoff).
  pose proof (live_workers_some _ i pc Hi Ha) as Hge.
  split; [lia|]. destruct (processing (sys_queue W s)); [reflexivity|].
  specialize (Hoff eq_refl). lia.
Qed.

(** X15. A task can be left behind. When the worker has found the
    queue empty and has not yet reset the flag, an [add_task] that runs
    to its end starts no worker, the flag being still up. Once the
    worker has exited, the new task is in the queue with the status
    [queued], the flag is down, no worker is alive, and no statement can
    run but a further [add_task]. *)
Theorem task_stranded_by_leaving_worker
    (w : W) (before : list label) (s : System W) (i : nat)
    (file_path : string) (user_filters : pyval) :
  run_of (initial_system W w) before = Some s ->
  sys_caller W s = CallerIdle ->
  sys_workers W s !! i = Some Leaving ->
  exists s',
    run_of s [CallAddTask file_path user_filters; CallRecord; CallStart; WorkerExit i]
    = Some s' /\
    get_result (PyPath.stem file_path) (sys_queue W s') = queued_entry /\
    mk_task (PyPath.stem file_path) file_path user_filters ∈ queue (sys_queue W s') /\
    processing (sys_queue W s') = false /\
    live_workers (sys_workers W s') = 0%nat /\
    forall l s'', step_of s' l = Some s'' -> exists p f, l = CallAddTask p f.
Proof.
  intros Hrun Hc Hi.
  destruct (live_worker_flag w before s i Leaving Hrun Hi eq_refl) as (Hone & Hflag).
  destruct s as [[q res flag] w0 c ws]. simpl in Hc, Hi, Hone, Hflag. subst c flag.
  pose proof (live_workers_insert ws i Leaving Exited Hi) as Hins. simpl in Hins.
  eexists. split.
  { simpl. unfold start_processing. simpl. rewrite Hi. reflexivity. }
  simpl. split; [|split; [|split; [|split]]].
  - unfold get_result. simpl. now rewrite lookup_insert_eq.
  - apply elem_of_app. right. now left.
  - reflexivity.
  - lia.
  - intros l s'' Hstep.
    destruct l as [p f| | | | | | |]; [eauto|..];
      try (simpl in Hstep; discriminate Hstep).
    all: rewrite no_worker_no_step in Hstep; [discriminate | simpl; lia | reflexivity].
Qed.

Lemma step_blocked since s l s' :
  blocked since s -> step_of s l = Some s' -> blocked since s'.
Proof.
  intros (Hflag & Hz & Hent) Hstep.
  destruct (worker_label l) eqn:Hl.
  { rewrite no_worker_no_step in Hstep by assumption. discriminate. }
  unfold blocked, entry_of in *.
  destruct s as [[q res flag] w c ws]. simpl in Hflag, Hz, Hent. subst flag.
  destruct l; try discriminate; simpl in Hstep.
  - destruct c; try discriminate. injection Hstep as <-. simpl. auto.
  - destruct c; try discriminate. injection Hstep as <-. simpl.
    split; [reflexivity|]. split; [assumption|].
    intros id e. destruct (decide (task_id t = id)) as [<-|Hne].
    + rewrite lookup_insert_eq. intros [= <-]. now right.
    + rewrite lookup_insert_ne by assumption. apply Hent.
  - destruct c; try discriminate. unfold start_processing in Hstep. simpl in Hstep.
    injection Hstep as <-. simpl. auto.
Qed.

(** X16. The worker can die on a new task. When the worker, back at
    the head of its loop, takes a task between the [put] and the
    assignment of its entry in [add_task], the update of the status
    raises [KeyError] outside the [try], and the thread ends with the
    flag still up. From then on, under every schedule, the flag stays
    up, no worker is alive, the task stays [queued], and every entry is
    as it was or is a new [queued] one: nothing is processed again. *)
Theorem worker_crash_blocks_queue
    (w : W) (before : list label) (s : System W) (i : nat)
    (file_path : string) (user_filters : pyval) :
  run_of (initial_system W w) before = Some s ->
  sys_caller W s = CallerIdle ->
  sys_workers W s !! i = Some AtLoopHead ->
  queue (sys_queue W s) = [] ->
  entry_of W s (PyPath.stem file_path) = None ->
  exists s',
    run_of s [CallAddTask file_path user_filters; WorkerGet i; WorkerMark i;
              CallRecord; CallStart]
    = Some s' /\
    sys_workers W s' !! i = Some Crashed /\
    forall later s'',
      run_of s' later = Some s'' ->
      processing (sys_queue W s'') = true /\
      live_workers (sys_workers W s'') = 0%nat /\
      get_result (PyPath.stem file_path) (sys_queue W s'') = queued_entry /\
      forall id e, entry_of W s'' id = Some e -> entry_of W s' id = Some e \/ e = queued_entry.
Proof.
  intros Hrun Hc Hi Hq Hnew.
  destruct (live_worker_flag w before s i AtLoopHead Hrun Hi eq_refl) as (Hone & Hflag).
  destruct s as [[q res flag] w0 c ws]. unfold entry_of in Hnew.
  simpl in Hc, Hi, Hone, Hflag, Hq, Hnew. subst c flag q.
  assert (Hlen : (i < List.length ws)%nat) by (apply lookup_lt_is_Some; eauto).
  pose proof (live_workers_insert ws i AtLoopHead
                (Dequeued (mk_task (PyPath.stem file_path) file_path user_filters)) Hi)
    as Hins1. simpl in Hins1.
  assert (Hi1 : <[i := Dequeued (mk_task (PyPath.stem file_path) file_path user_filters)]> ws
                !! i
                = Some (Dequeued (mk_task (PyPath.stem file_path) file_path user_filters)))
    by (now apply list_lookup_insert_eq).
  pose proof (live_workers_insert _ i _ Crashed Hi1) as Hins2. simpl in Hins2.
  eexists. split.
  { simpl. rewrite Hi. simpl. rewrite Hi1. unfold mark_processing. simpl. rewrite Hnew.
    simpl. reflexivity. }
  simpl. split.
  { apply list_lookup_insert_eq. now rewrite length_insert. }
  intros later s'' Hlater.
  match type of Hlater with
  | run_of ?s0 _ = _ =>
      assert (Hb : blocked s0 s'');
      [apply (run_preserves W processor_analyze processor_analyze_with_filters
                (blocked s0) (step_blocked s0) later s0 s''); [|exact Hlater]|]
  end.
  { split; [reflexivity|]. split; [simpl; lia|]. intros id e He. now left. }
  destruct Hb as (Hf & Hz & Hent). split; [exact Hf|]. split; [exact Hz|].
  split; [|exact Hent].
  assert (Hkeep : is_Some (entry_of W s'' (PyPath.stem file_path))).
  { match type of Hlater with
    | run_of ?s0 _ = _ =>
        apply (run_preserves W processor_analyze processor_analyze_with_filters
                 (fun s1 => is_Some (entry_of W s1 (PyPath.stem file_path)))
                 (fun s1 l s2 H0 H1 =>
                    step_keeps_entries W processor_analyze processor_analyze_with_filters
                      s1 l s2 (PyPath.stem file_path) H1 H0) later s0 s'');
        [|exact Hlater]
    end.
    unfold entry_of. simpl. rewrite lookup_insert_eq. eauto. }
  destruct Hkeep as [e He]. unfold get_result. unfold entry_of in He. rewrite He. simpl.
  destruct (Hent _ _ He) as [H|H]; [|exact H].
  unfold entry_of in H. simpl in H. rewrite lookup_insert_eq in H. congruence.
Qed.

End RaceFacts.

Lemma task_stranded_by_leaving_worker_witness :
  exists s,
    Cases.run_from_start (Cases.first_done ++ [WorkerLeave 0]) = Some s /\
    exists s',
      run World Demo.analyze Demo.analyze_with_filters s
        [CallAddTask "uploads/grace.pdf" PNone; CallRecord; CallStart; WorkerExit 0]
      = Some s' /\
      get_result "grace" (sys_queue World s') = queued_entry /\
      live_workers (sys_workers World s') = 0%nat.
Proof.
  eexists. split; [vm_compute; reflexivity|].
  match goal with
  | |- exists s', run _ _ _ ?s _ = _ /\ _ =>
      destruct (task_stranded_by_leaving_worker World Demo.analyze
                  Demo.analyze_with_filters initial_world
                  (Cases.first_done ++ [WorkerLeave 0]) s 0 "uploads/grace.pdf" PNone)
        as (s' & Hrun & Hres & _ & _ & Hlive & _);
      [vm_compute; reflexivity | reflexivity | reflexivity |]
  end.
  exists s'. split; [exact Hrun|]. split; [exact Hres | exact Hlive].
Defined.

Lemma worker_crash_blocks_queue_witness :
  exists s,
    Cases.run_from_start Cases.first_done = Some s /\
    exists s',
      run World Demo.analyze Demo.analyze_with_filters s
        [CallAddTask "uploads/grace.pdf" PNone; WorkerGet 0; WorkerMark 0;
         CallRecord; CallStart]
      = Some s' /\
      sys_workers World s' !! 0%nat = Some Crashed /\
      forall s'',
        run World Demo.analyze Demo.analyze_with_filters s'
          [CallAddTask "uploads/alan.pdf" PNone; CallRecord; CallStart] = Some s'' ->
        live_workers (sys_workers World s'') = 0%nat /\
        get_result "grace" (sys_queue World s'') = queued_entry.
Proof.
  eexists. split; [vm_compute; reflexivity|].
  match goal with
  | |- exists s', run _ _ _ ?s _ = _ /\ _ =>
      destruct (worker_crash_blocks_queue World Demo.analyze Demo.analyze_with_filters
                  initial_world Cases.first_done s 0 "uploads/grace.pdf" PNone)
        as (s' & Hrun & Hcrash & Hlater);
      [vm_compute; reflexivity | reflexivity | reflexivity | reflexivity
       | vm_compute; reflexivity |]
  end.
  exists s'. split; [exact Hrun|]. split; [exact Hcrash|].
  intros s'' Hrun''. destruct (Hlater _ _ Hrun'') as (_ & Hlive & Hres & _).
  split; [exact Hlive | exact Hres].
Defined.

(** ** Task ids and file names *)

Lemma split_on_go_absent c s :
  forall cur,
    ~ In c (list_ascii_of_string s) ->
    PyStr.split_on_go c s cur = [string_of_list_ascii (rev cur) +:+ s].
Proof.
  induction s as [|a s IH]; intros cur Hno; simpl.
  - now rewrite append_nil_r.
  - simpl in Hno. destruct (Ascii.eqb_spec a c) as [->|Hne]; [exfalso; apply Hno; now left|].
    rewrite IH by (intros H; apply Hno; now right).
    simpl. now rewrite string_of_snoc.
Qed.

Lemma split_on_go_last c dir file :
  forall cur,
    ~ In c (list_ascii_of_string file) ->
    exists pieces,
      PyStr.split_on_go c (dir +:+ String c file) cur = (pieces ++ [file])%list.
Proof.
  induction dir as [|a dir IH]; intros cur Hno.
  - rewrite append_nil. simpl. rewrite Ascii.eqb_refl.
    rewrite split_on_go_absent by assumption. simpl. rewrite append_nil.
    now exists [string_of_list_ascii (rev cur)].
  - rewrite append_cons. simpl. destruct (Ascii.eqb a c).
    + destruct (IH [] Hno) as (pieces & ->).
      now exists (string_of_list_ascii (rev cur) :: pieces).
    + apply IH. exact Hno.
Qed.

Lemma name_of_file dir file :
  ~ In "/"%char (list_ascii_of_string file) ->
  PyPath.is_component file = true ->
  PyPath.name (dir +:+ String "/" file) = file /\ PyPath.name file = file.
Proof.
  intros Hno Hc. unfold PyPath.name, PyStr.split_on. split.
  - destruct (split_on_go_last "/" dir file [] Hno) as (pieces & ->).
    rewrite List.filter_app. simpl. rewrite Hc. apply List.last_last.
  - rewrite split_on_go_absent by assumption. simpl. rewrite append_nil, Hc. reflexivity.
Qed.

Lemma stem_of_name name ext :
  name <> "" -> ext <> "" ->
  ~ In "."%char (list_ascii_of_string ext) ->
  PyPath.is_component (name +:+ String "." ext) = true /\
  (let n := name +:+ String "." ext in
   let i := PyStr.rfind "." n in
   (if (0 <? i) && (i <? PyStr.len n - 1) then PyStr.take (Z.to_nat i) n else n) = name).
Proof.
  intros Hname Hext Hdot. split.
  - unfold PyPath.is_component.
    destruct name as [|a name]; [congruence|]. destruct ext as [|b ext]; [congruence|].
    rewrite append_cons.
    replace (String a (name +:+ String "." (String b ext)) =? "")%string with false
      by reflexivity.
    simpl negb at 1. cbn [andb].
    destruct (String.eqb_spec (String a (name +:+ String "." (String b ext))) ".") as [H|H];
      [|reflexivity].
    apply (f_equal String.length) in H. simpl in H. rewrite length_append in H.
    simpl in H. lia.
  - cbn zeta. unfold PyStr.rfind. rewrite rfind_from_app by assumption.
    unfold PyStr.len. rewrite length_append. simpl String.length.
    assert (Hn : (0 < String.length name)%nat) by (destruct name; [congruence | simpl; lia]).
    assert (He : (0 < String.length ext)%nat) by (destruct ext; [congruence | simpl; lia]).
    replace ((0 <? 0 + Z.of_nat (String.length name)) &&
             (0 + Z.of_nat (String.length name)
              <? Z.of_nat (String.length name + S (String.length ext)) - 1))
      with true
      by (symmetry; apply andb_true_iff; split; apply Z.ltb_lt; lia).
    unfold PyStr.take.
    replace (Z.to_nat (0 + Z.of_nat (String.length name))) with (String.length name) by lia.
    apply substring_prefix.
Qed.

(** X17. The task id of a path [dir/name.ext], and of a bare
    [name.ext], is [name]: the directory and the last extension play no
    part in it. Here [name] is not empty and holds no slash; [ext] is not
    empty and holds neither a slash nor a dot. *)
Theorem task_id_is_base_name
    (dir name ext : string) (user_filters : pyval) (q : ProcessingQueue) :
  name <> "" -> ext <> "" ->
  ~ In "/"%char (list_ascii_of_string name) ->
  ~ In "/"%char (list_ascii_of_string ext) ->
  ~ In "."%char (list_ascii_of_string ext) ->
  fst (fst (add_task (dir +:+ "/" +:+ name +:+ "." +:+ ext) user_filters q)) = name /\
  fst (fst (add_task (name +:+ "." +:+ ext) user_filters q)) = name.
Proof.
  intros Hname Hext Hs1 Hs2 Hdot.
  destruct (stem_of_name name ext Hname Hext Hdot) as (Hc & Hstem). cbn zeta in Hstem.
  assert (Hno : ~ In "/"%char (list_ascii_of_string (name +:+ String "." ext))).
  { intros H. clear -H Hs1 Hs2.
    induction name as [|a name IH].
    - rewrite append_nil in H. simpl in H. destruct H as [H|H]; [discriminate | auto].
    - rewrite append_cons in H. simpl in H, Hs1. destruct H as [H|H]; [auto|].
      apply IH; auto. }
  destruct (name_of_file dir _ Hno Hc) as (Hn1 & Hn2).
  rewrite !add_task_id. unfold PyPath.stem.
  change ("/" +:+ name +:+ "." +:+ ext) with (String "/" (name +:+ String "." ext)).
  change (name +:+ "." +:+ ext) with (name +:+ String "." ext).
  rewrite Hn1, Hn2. split; exact Hstem.
Qed.

Lemma task_id_is_base_name_witness :
  fst (fst (add_task "uploads/alice/resume.pdf" PNone empty_queue))
  = fst (fst (add_task "resume.docx" PNone empty_queue)).
Proof.
  destruct (task_id_is_base_name "uploads/alice" "resume" "pdf" PNone empty_queue)
    as (H1 & _); [discriminate | discriminate | vm_compute; intuition discriminate.. |].
  destruct (task_id_is_base_name "" "resume" "docx" PNone empty_queue)
    as (_ & H2); [discriminate | discriminate | vm_compute; intuition discriminate.. |].
  change ("uploads/alice" +:+ "/" +:+ "resume" +:+ "." +:+ "pdf")
    with "uploads/alice/resume.pdf" in H1.
  change ("resume" +:+ "." +:+ "docx") with "resume.docx" in H2.
  now rewrite H1, H2.
Defined.

(** ** The structured criteria *)

Lemma any_lower_in_strings text (ss : list string) :
  any_lower_in text (map PStr ss)
  = Ok (existsb (fun s => PyStr.contains (PyStr.lower s) text) ss).
Proof.
  induction ss as [|s ss IH]; [reflexivity|]. simpl.
  destruct (PyStr.contains (PyStr.lower s) text); [reflexivity | exact IH].
Qed.

Section CriteriaFacts.

Variable py_repr : pyval -> string.
Variable float_of_str : string -> option pyfloat.
Variable float_of_big_int : Z -> exc pyfloat.

Local Abbreviation matches := (matches_filters py_repr float_of_str float_of_big_int).

Lemma structured_pass_filter (P : pydict -> bool) filters resumes :
  (forall resume, In resume resumes -> matches resume filters = Ok (P resume)) ->
  structured_pass matches filters resumes = Ok (List.filter P resumes).
Proof.
  induction resumes as [|resume rest IH]; intros H; [reflexivity|].
  simpl. rewrite (H resume) by now left. simpl.
  rewrite IH by (intros r Hr; apply H; now right). simpl.
  now destruct (P resume).
Qed.

Lemma structured_pass_rejects filters resumes :
  (forall resume, In resume resumes -> matches resume filters <> Ok true) ->
  structured_pass matches filters resumes = Ok [] \/
  is_ok (structured_pass matches filters resumes) = false.
Proof.
  induction resumes as [|resume rest IH]; intros H; [now left|].
  simpl. pose proof (H resume ltac:(now left)) as Hr.
  destruct (matches resume filters) as [[|]|e]; [congruence | | now right].
  simpl. destruct IH as [->| Hbad]; [intros r Hin; apply H; now right | now left |].
  right. now destruct (structured_pass matches filters rest).
Qed.

Lemma matches_no_criterion resume f :
  Forall (fun key => py_truthy (criterion key f) = false)
    ["skills"; "experience_years"; "education"; "job_titles"; "location"; "keywords"] ->
  matches resume (PDict f) = Ok true.
Proof.
  intros H. rewrite !List.Forall_forall in H.
  unfold matches_filters, any_item_occurs, text_occurs, experience_suffices.
  rewrite !H by in_list. reflexivity.
Qed.

Lemma matches_experience resume f need :
  dict_get "years_of_experience" resume = None ->
  py_truthy (criterion "experience_years" f) = true ->
  py_float float_of_str float_of_big_int (criterion "experience_years" f) = Ok need ->
  float_lt (FFinite 0) need = true ->
  matches resume (PDict f) <> Ok true.
Proof.
  intros Hnone Hset Hneed Hpos. unfold matches_filters.
  assert (Hexp : experience_suffices py_repr float_of_str float_of_big_int resume
                   (PyStr.lower (py_repr (PDict resume))) (criterion "experience_years" f)
                 = Ok false).
  { unfold experience_suffices. rewrite Hset, Hnone, Hneed.
    change (py_float float_of_str float_of_big_int (PInt 0)) with (Ok (FFinite 0)).
    cbn [exc_bind]. rewrite Hpos. reflexivity. }
  rewrite Hexp.
  destruct (any_item_occurs _ _) as [[|]|e]; simpl; discriminate.
Qed.

Lemma matches_degraded resume query :
  matches resume (degraded_filters query)
  = Ok (PyStr.contains (PyStr.lower query) (PyStr.lower (py_repr (PDict resume)))).
Proof.
  unfold matches_filters, degraded_filters.
  set (text := PyStr.lower (py_repr (PDict resume))).
  change (criterion "experience_years" _) with (PInt 0).
  change (criterion "education" _) with PNone.
  change (criterion "job_titles" _) with (PList []).
  change (criterion "location" _) with PNone.
  change (criterion "keywords" _) with (PList [PStr query]).
  change (criterion "skills" _)
    with (PList (map (fun kw => PStr (PyStr.strip kw)) (PyStr.split_on "," query))).
  change (experience_suffices py_repr float_of_str float_of_big_int resume text (PInt 0))
    with (@Ok bool true).
  change (text_occurs text PNone) with (@Ok bool true).
  change (any_item_occurs text (PList [])) with (@Ok bool true).
  assert (Hkw : any_item_occurs text (PList [PStr query])
                = Ok (PyStr.contains (PyStr.lower query) text)).
  { unfold any_item_occurs. simpl. now destruct (PyStr.contains (PyStr.lower query) text). }
  rewrite Hkw.
  destruct (split_on_head "," query) as (piece & rest & tail & Hsplit & Hquery).
  assert (Hskills : any_item_occurs text
                      (PList (map (fun kw => PStr (PyStr.strip kw)) (PyStr.split_on "," query)))
                    = Ok (PyStr.contains (PyStr.lower (PyStr.strip piece)) text
                          || existsb (fun s => PyStr.contains (PyStr.lower s) text)
                               (map PyStr.strip rest))).
  { unfold any_item_occurs.
    replace (map (fun kw => PStr (PyStr.strip kw)) (PyStr.split_on "," query))
      with (map PStr (map PyStr.strip (PyStr.split_on "," query)))
      by apply List.map_map.
    rewrite Hsplit. cbn [map py_truthy py_iter exc_bind].
    change (PStr (PyStr.strip piece) :: map PStr (map PyStr.strip rest))
      with (map PStr (PyStr.strip piece :: map PyStr.strip rest)).
    now rewrite any_lower_in_strings. }
  rewrite Hskills.
  destruct (PyStr.contains (PyStr.lower query) text) eqn:Hq.
  - assert (Hpiece : PyStr.contains (PyStr.lower (PyStr.strip piece)) text = true).
    { apply contains_trans with (PyStr.lower query); [|exact Hq].
      apply contains_lower.
      apply contains_trans with piece; [apply strip_contains|].
      apply contains_iff. exists "", tail. exact Hquery. }
    rewrite Hpiece. reflexivity.
  - now destruct (_ || _).
Qed.

End CriteriaFacts.

(** ** The filter as a whole *)

Lemma filter_sublist {A} (f : A -> bool) (l : list A) : sublist (List.filter f l) l.
Proof.
  induction l as [|a l IH]; simpl; [constructor|].
  destruct (f a); now constructor.
Qed.

Lemma filter_idempotent {A} (f : A -> bool) (l : list A) :
  List.filter f (List.filter f l) = List.filter f l.
Proof.
  induction l as [|a l IH]; simpl; [reflexivity|].
  destruct (f a) eqn:E; simpl; rewrite ?E, IH; reflexivity.
Qed.

Lemma contains_empty s : PyStr.contains "" s = true.
Proof. destruct s; reflexivity. Qed.

Lemma phrase_search_empty py_repr resumes : phrase_search py_repr "" resumes = resumes.
Proof.
  unfold phrase_search. induction resumes as [|r rs IH]; [reflexivity|].
  cbn [List.filter]. change (PyStr.lower "") with "" in *.
  rewrite contains_empty. now rewrite IH.
Qed.

Section FilterFacts.

Variable call_gemini_with_retry : string -> M string.
Variable json_loads : string -> exc pyval.
Variable py_repr : pyval -> string.
Variable nlp_query_prompt : string -> string.

Local Abbreviation keyword_filter := (simple_keyword_filter py_repr).
Local Abbreviation nlp_query := (process_nlp_query call_gemini_with_retry json_loads
                                   nlp_query_prompt).

Lemma keyword_filter_sublist query resumes : sublist (keyword_filter query resumes) resumes.
Proof.
  unfold simple_keyword_filter. destruct (keywords query); [reflexivity | apply filter_sublist].
Qed.

(** X18. [simple_keyword_filter] selects: its result is a sublist of
    the records, in their order; filtering the result again changes
    nothing; and the records are judged one by one, so the result on
    two lists put together is the two results put together. *)
Theorem keyword_filter_selects (query : string) (resumes more : list pydict) :
  sublist (simple_keyword_filter py_repr query resumes) resumes /\
  simple_keyword_filter py_repr query (simple_keyword_filter py_repr query resumes)
  = simple_keyword_filter py_repr query resumes /\
  simple_keyword_filter py_repr query (resumes ++ more)%list
  = (simple_keyword_filter py_repr query resumes
       ++ simple_keyword_filter py_repr query more)%list.
Proof.
  split; [apply keyword_filter_sublist|].
  unfold simple_keyword_filter. destruct (keywords query) as [|kw kws].
  - split; reflexivity.
  - split; [apply filter_idempotent | apply List.filter_app].
Qed.

Lemma structured_pass_sublist matches_filters filters resumes kept :
  structured_pass matches_filters filters resumes = Ok kept -> sublist kept resumes.
Proof.
  revert kept. induction resumes as [|resume rest IH]; intros kept H; simpl in H.
  - injection H as <-. constructor.
  - step_ok H. rename x into keep. step_ok H. rename x into kept'.
    injection H as <-. specialize (IH kept' ltac:(assumption)).
    destruct keep; now constructor.
Qed.

Lemma nlp_filter_outcome matches_filters query resumes w :
  fst (filter_resumes_with_nlp call_gemini_with_retry json_loads py_repr nlp_query_prompt
         matches_filters query resumes w)
  = if negb (nonempty query) || is_empty_list resumes then Ok resumes
    else match fst (nlp_query query w) with
         | Ok filters =>
             match structured_pass matches_filters filters resumes with
             | Ok kept => Ok (if is_empty_list kept then keyword_filter query resumes
                              else kept)
             | Raise _ => Ok (keyword_filter query resumes)
             end
         | Raise _ => Ok (keyword_filter query resumes)
         end.
Proof.
  unfold filter_resumes_with_nlp.
  destruct (negb (nonempty query) || is_empty_list resumes); [reflexivity|].
  unfold M_try, M_bind, M_lift, M_ret. cbv beta iota.
  destruct (nlp_query query w) as [[filters|e] w']; [|reflexivity].
  cbn [fst]. now destruct (structured_pass matches_filters filters resumes).
Qed.

(** X19. [filter_resumes_with_nlp] raises no exception, whatever the
    model, the decoder and the structured criteria do, and it returns a
    sublist of the records it was given. It returns no record only when
    the keyword search finds none. With an empty query or an empty list
    it returns the list as it is and leaves the processor alone. *)
Theorem nlp_filter_selects
    (matches_filters : pydict -> pyval -> exc bool)
    (query : string) (resumes : list pydict) (w : World) :
  exists kept w',
    filter_resumes_with_nlp call_gemini_with_retry json_loads py_repr nlp_query_prompt
      matches_filters query resumes w = (Ok kept, w') /\
    sublist kept resumes /\
    (kept = [] -> keyword_filter query resumes = []) /\
    (query = "" \/ resumes = [] -> kept = resumes /\ w' = w).
Proof.
  unfold filter_resumes_with_nlp.
  destruct (negb (nonempty query) || is_empty_list resumes) eqn:Hearly.
  - exists resumes, w. split; [reflexivity|]. split; [reflexivity|].
    split; [|auto]. intros ->. unfold simple_keyword_filter. now destruct (keywords query).
  - apply orb_false_iff in Hearly. destruct Hearly as [Hq Hr].
    assert (Hlate : query = "" \/ resumes = [] -> False).
    { intros [->| ->]; discriminate. }
    unfold M_try, M_bind, M_lift, M_ret. cbv beta iota.
    destruct (nlp_query query w) as [[filters|e] w'].
    + destruct (structured_pass matches_filters filters resumes) as [kept|e] eqn:E.
      * eexists _, _. split; [reflexivity|].
        pose proof (structured_pass_sublist _ _ _ _ E) as Hsub.
        destruct kept as [|r kept]; cbn [is_empty_list].
        -- split; [apply keyword_filter_sublist|]. split; [auto|].
           intros H; destruct (Hlate H).
        -- split; [exact Hsub|]. split; [discriminate|]. intros H; destruct (Hlate H).
      * eexists _, _. split; [reflexivity|].
        split; [apply keyword_filter_sublist|]. split; [auto|].
        intros H; destruct (Hlate H).
    + eexists _, _. split; [reflexivity|].
      split; [apply keyword_filter_sublist|]. split; [auto|].
      intros H; destruct (Hlate H).
Qed.

Variable float_of_str : string -> option pyfloat.
Variable float_of_big_int : Z -> exc pyfloat.

Local Abbreviation matches := (matches_filters py_repr float_of_str float_of_big_int).
Local Abbreviation nlp_filter :=
  (filter_resumes_with_nlp call_gemini_with_retry json_loads py_repr nlp_query_prompt
     matches).

(** X20. When the criteria obtained for the query hold nothing (every
    field null, empty or zero), [matches_filters] accepts every record
    and the filter returns all the records. *)
Theorem empty_criteria_keep_all
    (query : string) (resumes : list pydict) (w : World) (f : pydict) :
  fst (nlp_query query w) = Ok (PDict f) ->
  Forall (fun key => py_truthy (criterion key f) = false)
    ["skills"; "experience_years"; "education"; "job_titles"; "location"; "keywords"] ->
  (forall resume, matches resume (PDict f) = Ok true) /\
  fst (nlp_filter query resumes w) = Ok resumes.
Proof.
  intros Hq Hnone.
  assert (Hall : forall resume, matches resume (PDict f) = Ok true).
  { intros resume. now apply matches_no_criterion. }
  split; [exact Hall|].
  rewrite nlp_filter_outcome, Hq.
  rewrite (structured_pass_filter py_repr float_of_str float_of_big_int (fun _ => true))
    by (intros resume _; apply Hall).
  replace (List.filter (fun _ : pydict => true) resumes) with resumes
    by (induction resumes as [|r rs IH]; simpl; congruence).
  destruct resumes; [|now destruct (negb (nonempty query))].
  now rewrite orb_true_r.
Qed.

(** X21. [matches_filters] reads the experience of a record under the
    key [years_of_experience], where the records of the parser keep it
    under [experience]. So when the criteria ask for a positive number
    of years, no record without that key passes, whatever its
    experience, and the filter answers with the keyword search. *)
Theorem experience_criterion_rejects
    (query : string) (resumes : list pydict) (w : World) (f : pydict) (need : pyfloat) :
  fst (nlp_query query w) = Ok (PDict f) ->
  py_truthy (criterion "experience_years" f) = true ->
  py_float float_of_str float_of_big_int (criterion "experience_years" f) = Ok need ->
  float_lt (FFinite 0) need = true ->
  Forall (fun resume => dict_get "years_of_experience" resume = None) resumes ->
  (forall resume, In resume resumes -> matches resume (PDict f) <> Ok true) /\
  fst (nlp_filter query resumes w) = Ok (keyword_filter query resumes).
Proof.
  intros Hq Hset Hneed Hpos Hnone. rewrite List.Forall_forall in Hnone.
  assert (Hrej : forall resume, In resume resumes -> matches resume (PDict f) <> Ok true).
  { intros resume Hin. apply (matches_experience _ _ _ resume f need); auto. }
  split; [exact Hrej|].
  apply nlp_filter_falls_back. unfold structured_filtering. rewrite Hq. simpl.
  now apply structured_pass_rejects.
Qed.

Lemma nlp_query_call_fails query w :
  is_ok (fst (call_gemini_with_retry (nlp_query_prompt query) w)) = false ->
  fst (nlp_query query w) = Ok (degraded_filters query).
Proof.
  unfold process_nlp_query, M_try, M_bind. intros H.
  destruct (call_gemini_with_retry (nlp_query_prompt query) w) as [[reply|e] w'];
    [discriminate | reflexivity].
Qed.

Lemma nlp_query_no_brace query w reply :
  fst (call_gemini_with_retry (nlp_query_prompt query) w) = Ok reply ->
  ~ In "{"%char (list_ascii_of_string (PyStr.strip reply)) ->
  fst (nlp_query query w) = Ok (degraded_filters query).
Proof.
  unfold process_nlp_query, M_try, M_bind, M_ret. intros H Hno.
  destruct (call_gemini_with_retry (nlp_query_prompt query) w) as [[r|e] w'];
    simpl in H; [|discriminate]. injection H as ->.
  rewrite (find_absent _ _ Hno). reflexivity.
Qed.

(** X22. When the model call fails, or its reply holds no opening
    brace, the criteria are built by hand from the query. A record
    passes them exactly when its lowercased text contains the whole
    lowercased query. The filter then returns the records that contain
    the query as a phrase or, when there is none, the result of the
    keyword search. *)
Theorem degraded_criteria_search_phrase
    (query : string) (resumes : list pydict) (w : World) :
  (is_ok (fst (call_gemini_with_retry (nlp_query_prompt query) w)) = false ->
   fst (nlp_query query w) = Ok (degraded_filters query)) /\
  (forall reply,
     fst (call_gemini_with_retry (nlp_query_prompt query) w) = Ok reply ->
     ~ In "{"%char (list_ascii_of_string (PyStr.strip reply)) ->
     fst (nlp_query query w) = Ok (degraded_filters query)) /\
  (forall resume,
     matches resume (degraded_filters query)
     = Ok (PyStr.contains (PyStr.lower query) (PyStr.lower (py_repr (PDict resume))))) /\
  (fst (nlp_query query w) = Ok (degraded_filters query) ->
   fst (nlp_filter query resumes w)
   = Ok (if is_empty_list (phrase_search py_repr query resumes)
         then keyword_filter query resumes
         else phrase_search py_repr query resumes)).
Proof.
  split; [apply nlp_query_call_fails|]. split; [apply nlp_query_no_brace|].
  split; [intros resume; apply matches_degraded|].
  intros Hq. rewrite nlp_filter_outcome, Hq.
  rewrite (structured_pass_filter py_repr float_of_str float_of_big_int
             (fun resume => PyStr.contains (PyStr.lower query)
                              (PyStr.lower (py_repr (PDict resume)))))
    by (intros resume _; apply matches_degraded).
  fold (phrase_search py_repr query resumes).
  destruct (negb (nonempty query) || is_empty_list resumes) eqn:Hearly; [|reflexivity].
  apply orb_true_iff in Hearly. destruct Hearly as [Hq0|Hr0].
  - destruct query; [|discriminate].
    assert (Hall : phrase_search py_repr "" resumes = resumes)
      by apply phrase_search_empty.
    rewrite Hall. destruct resumes; reflexivity.
  - destruct resumes; [|discriminate]. simpl.
    unfold simple_keyword_filter. now destruct (keywords query).
Qed.

End FilterFacts.

Lemma empty_criteria_keep_all_witness :
  fst (filter_resumes_with_nlp (Cases.call_answering Cases.no_criteria_reply)
         JsonSubset.loads Demo.repr_record Demo.nlp_prompt Cases.matches
         "anyone at all" [Demo.ada; Demo.grace] initial_world)
  = Ok [Demo.ada; Demo.grace].
Proof.
  apply (empty_criteria_keep_all (Cases.call_answering Cases.no_criteria_reply)
           JsonSubset.loads Demo.repr_record Demo.nlp_prompt
           Cases.float_of_str Cases.float_of_big_int
           "anyone at all" [Demo.ada; Demo.grace] initial_world Cases.no_criteria).
  - vm_compute. reflexivity.
  - repeat constructor.
Defined.

Lemma experience_criterion_rejects_witness :
  fst (filter_resumes_with_nlp (Cases.call_answering Cases.five_years_reply)
         JsonSubset.loads Demo.repr_record Demo.nlp_prompt Cases.matches
         "Rust developer with 5 years" [Demo.ada; Demo.grace] initial_world)
  = Ok (simple_keyword_filter Demo.repr_record "Rust developer with 5 years"
          [Demo.ada; Demo.grace]).
Proof.
  apply (experience_criterion_rejects (Cases.call_answering Cases.five_years_reply)
           JsonSubset.loads Demo.repr_record Demo.nlp_prompt
           Cases.float_of_str Cases.float_of_big_int
           "Rust developer with 5 years" [Demo.ada; Demo.grace] initial_world
           Cases.five_years (FFinite 5)).
  - vm_compute. reflexivity.
  - reflexivity.
  - reflexivity.
  - reflexivity.
  - repeat constructor.
Defined.

(** ** The collection loop of process_resumes *)

Lemma collect_files task_id result s s' id :
  collect task_id result s = Some s' ->
  (is_Some (processing_files s' !! id) <-> is_Some (processing_files s !! id)).
Proof.
  unfold collect. intros H.
  destruct (entry_status result);
    try (injection H as <-; reflexivity);
    destruct (processing_files s !! task_id) as [f|] eqn:Hf; try discriminate.
  - destruct (fs_status f); injection H as <-; try reflexivity; simpl;
      (destruct (decide (task_id = id)) as [<-|Hne];
       [rewrite lookup_insert_eq, Hf; split; eauto
       | rewrite lookup_insert_ne by assumption; reflexivity]).
  - injection H as <-. simpl.
    destruct (decide (task_id = id)) as [<-|Hne];
      [rewrite lookup_insert_eq, Hf; split; eauto
      | rewrite lookup_insert_ne by assumption; reflexivity].
Qed.

Lemma collect_once task_id result s s' :
  entry_status result <> Failed ->
  collect task_id result s = Some s' ->
  exists added,
    resume_data s' = (resume_data s ++ added)%list /\
    (List.length added + unfinished s' <= unfinished s)%nat /\
    (forall record, In record added ->
       entry_status result = Completed /\ entry_data result = Some record).
Proof.
  unfold collect. intros Hnf H.
  assert (Hsame : s' = s ->
            exists added,
              resume_data s' = (resume_data s ++ added)%list /\
              (List.length added + unfinished s' <= unfinished s)%nat /\
              (forall record, In record added ->
                 entry_status result = Completed /\ entry_data result = Some record)).
  { intros ->. exists []. rewrite app_nil_r. split; [reflexivity|].
    split; [simpl; lia | intros record []]. }
  destruct (entry_status result) eqn:Hst; try congruence;
    try (injection H as <-; now apply Hsame).
  destruct (processing_files s !! task_id) as [f|] eqn:Hf; [|discriminate].
  destruct (fs_status f) eqn:Hfs; try (injection H as <-; now apply Hsame).
  all: injection H as <-; exists (data_to_append result); simpl.
  all: split; [reflexivity|]; split.
  all: try (intros record Hin; split; [reflexivity|];
            unfold data_to_append in Hin;
            destruct (entry_data result) as [[|field fields]|]; simpl in Hin;
            intuition congruence).
  all: unfold unfinished; simpl;
    rewrite map_filter_insert_False by (simpl; intros Hc; now apply Hc);
    rewrite map_filter_delete;
    rewrite map_size_delete_Some
      by (exists f; apply map_lookup_filter_Some; split; [exact Hf | simpl; congruence]);
    assert (Hpos : size (filter (fun kf : string * file_state =>
                                   fs_status (snd kf) <> FileComplete)
                           (processing_files s)) <> 0%nat)
      by (apply (map_size_ne_0_lookup_2 _ task_id); exists f;
          apply map_lookup_filter_Some; split; [exact Hf | simpl; congruence]);
    assert (Hlen : (List.length (data_to_append result) <= 1)%nat)
      by (unfold data_to_append; destruct (entry_data result) as [[|? ?]|]; simpl; lia);
    lia.
Qed.

Lemma collect_all_once polls :
  forall s s',
    Forall (fun poll : string * entry => entry_status (snd poll) <> Failed) polls ->
    collect_all polls s = Some s' ->
    exists added,
      resume_data s' = (resume_data s ++ added)%list /\
      (List.length added + unfinished s' <= unfinished s)%nat /\
      (forall record, In record added ->
         exists task_id result,
           In (task_id, result) polls /\
           entry_status result = Completed /\ entry_data result = Some record).
Proof.
  induction polls as [|[task_id result] rest IH]; intros s s' Hnf H; simpl in H.
  - injection H as <-. exists []. rewrite app_nil_r.
    split; [reflexivity|]. split; [simpl; lia | intros record []].
  - apply Forall_cons in Hnf. destruct Hnf as [Hnf Hrest]. simpl in Hnf.
    destruct (collect task_id result s) as [s1|] eqn:Hc; [|discriminate].
    destruct (collect_once _ _ _ _ Hnf Hc) as (added1 & Hd1 & Hm1 & Hin1).
    destruct (IH s1 s' Hrest H) as (added2 & Hd2 & Hm2 & Hin2).
    exists (added1 ++ added2)%list. split; [|split].
    + rewrite Hd2, Hd1, app_assoc. reflexivity.
    + rewrite List.length_app. lia.
    + intros record Hin. apply in_app_or in Hin. destruct Hin as [Hin|Hin].
      * exists task_id, result. split; [now left | now apply Hin1].
      * destruct (Hin2 record Hin) as (id & r & Hp & Hr). exists id, r.
        split; [now right | exact Hr].
Qed.

(** X23. The collection loop of [process_resumes], as long as no poll
    is answered with a failed entry (none is, with a [GeminiProcessor]:
    X14): whatever the polls, and however often a task is polled, every
    record appended to [resume_data] is the data of a polled entry that
    was completed, and each append goes with one more file marked
    complete; so no more records are appended than files were left to
    complete. *)
Theorem collection_appends_once
    (polls : list (string * entry)) (s s' : Session) :
  Forall (fun poll : string * entry => entry_status (snd poll) <> Failed) polls ->
  collect_all polls s = Some s' ->
  exists added,
    resume_data s' = (resume_data s ++ added)%list /\
    (List.length added + unfinished s' <= unfinished s)%nat /\
    (forall record, In record added ->
       exists task_id result,
         In (task_id, result) polls /\
         entry_status result = Completed /\ entry_data result = Some record).
Proof. apply collect_all_once. Qed.

Lemma collect_done task_id result s s' id f' :
  collect task_id result s = Some s' ->
  processing_files s' !! id = Some f' ->
  file_done f' = true ->
  (exists f, processing_files s !! id = Some f /\ file_done f = true) \/
  (task_id = id /\ terminal result).
Proof.
  unfold collect, terminal. intros H Hf' Hdone.
  destruct (entry_status result) eqn:Hst;
    try (injection H as <-; left; eauto);
    destruct (processing_files s !! task_id) as [f|] eqn:Hf; try discriminate.
  - destruct (decide (task_id = id)) as [<-|Hne]; [right; auto|].
    left. exists f'. split; [|exact Hdone].
    destruct (fs_status f); injection H as <-; simpl in Hf';
      rewrite ?lookup_insert_ne in Hf' by assumption; exact Hf'.
  - destruct (decide (task_id = id)) as [<-|Hne]; [right; auto|].
    left. exists f'. split; [|exact Hdone].
    injection H as <-. simpl in Hf'.
    rewrite lookup_insert_ne in Hf' by assumption. exact Hf'.
Qed.

Lemma collect_all_done polls :
  forall s s' id f',
    collect_all polls s = Some s' ->
    processing_files s' !! id = Some f' ->
    file_done f' = true ->
    (exists f, processing_files s !! id = Some f /\ file_done f = true) \/
    (exists result, In (id, result) polls /\ terminal result).
Proof.
  induction polls as [|[task_id result] rest IH]; intros s s' id f' H Hf' Hdone; simpl in H.
  - injection H as <-. left. eauto.
  - destruct (collect task_id result s) as [s1|] eqn:Hc; [|discriminate].
    destruct (IH s1 s' id f' H Hf' Hdone) as [(f1 & Hf1 & Hd1)|(r & Hin & Hr)].
    + destruct (collect_done _ _ _ _ _ _ Hc Hf1 Hd1) as [Hstart|[-> Hterm]].
      * now left.
      * right. exists result. split; [now left | exact Hterm].
    + right. exists r. split; [now right | exact Hr].
Qed.

Lemma batch_complete_all task_ids s id :
  batch_complete task_ids s = Some true ->
  In id task_ids ->
  exists f, processing_files s !! id = Some f /\ file_done f = true.
Proof.
  induction task_ids as [|t rest IH]; intros H Hin; [destruct Hin|].
  simpl in H. destruct (processing_files s !! t) as [f|] eqn:Hf; [|discriminate].
  destruct (file_done f) eqn:Hd; [|discriminate].
  destruct Hin as [<-|Hin]; [eauto | now apply IH].
Qed.

Lemma batch_complete_polled polls task_ids s s' id :
  collect_all polls s = Some s' ->
  batch_complete task_ids s' = Some true ->
  In id task_ids ->
  (exists f, processing_files s !! id = Some f /\ file_done f = true) \/
  (exists result, In (id, result) polls /\ terminal result).
Proof.
  intros Hc Hb Hin. destruct (batch_complete_all _ _ _ Hb Hin) as (f' & Hf' & Hd').
  exact (collect_all_done polls s s' id f' Hc Hf' Hd').
Qed.

(** X24. When the test at the end of a polling pass finds the batch
    complete, every task of the batch was marked complete or error
    before the polls, or one of the polls for it was answered with a
    completed or failed entry. *)
Theorem batch_complete_means_answered
    (polls : list (string * entry)) (task_ids : list string) (s s' : Session) :
  collect_all polls s = Some s' ->
  batch_complete task_ids s' = Some true ->
  forall task_id,
    In task_id task_ids ->
    (exists f, processing_files s !! task_id = Some f /\ file_done f = true) \/
    (exists result, In (task_id, result) polls /\ terminal result).
Proof.
  intros Hc Hb task_id Hin. exact (batch_complete_polled polls task_ids s s' task_id Hc Hb Hin).
Qed.

Lemma collection_appends_once_witness :
  exists s',
    collect_all [("ada", Cases.ada_done); ("ada", Cases.ada_done)] Cases.ada_session = Some s' /\
    exists added,
      resume_data s' = (resume_data Cases.ada_session ++ added)%list /\
      (List.length added + unfinished s' <= unfinished Cases.ada_session)%nat.
Proof.
  eexists. split; [vm_compute; reflexivity|].
  match goal with
  | |- exists added, resume_data ?s' = _ /\ _ =>
      destruct (collection_appends_once
                  [("ada", Cases.ada_done); ("ada", Cases.ada_done)] Cases.ada_session s')
        as (added & Hdata & Hcount & _);
      [repeat constructor; discriminate | vm_compute; reflexivity |]
  end.
  exists added. split; [exact Hdata | exact Hcount].
Defined.

Lemma batch_complete_means_answered_witness :
  exists s',
    collect_all [("ada", Cases.ada_done)] Cases.ada_session = Some s' /\
    ((exists f, processing_files Cases.ada_session !! "ada" = Some f /\ file_done f = true) \/
     (exists result, In ("ada", result) [("ada", Cases.ada_done)] /\ terminal result)).
Proof.
  eexists. split; [vm_compute; reflexivity|].
  eapply (fun H1 H2 H3 =>
            batch_complete_means_answered [("ada", Cases.ada_done)] ["ada"]
              Cases.ada_session _ H1 H2 "ada" H3).
  - vm_compute. reflexivity.
  - vm_compute. reflexivity.
  - now left.
Defined.

Lemma batch_never_complete polls task_ids s s' id f :
  In id task_ids ->
  processing_files s !! id = Some f ->
  fs_status f = FileQueued ->
  (forall result, In (id, result) polls -> ~ terminal result) ->
  collect_all polls s = Some s' ->
  batch_complete task_ids s' <> Some true.
Proof.
  intros Hin Hf Hq Hpolls Hc Hb.
  destruct (batch_complete_polled polls task_ids s s' id Hc Hb Hin)
    as [(f0 & Hf0 & Hd0)|(result & Hr & Hterm)].
  - rewrite Hf in Hf0. injection Hf0 as <-. unfold file_done in Hd0.
    rewrite Hq in Hd0. discriminate.
  - exact (Hpolls result Hr Hterm).
Qed.

Section HangFacts.

Variable W : Type.
Variable processor_analyze : string -> W -> exc pydict * W.
Variable processor_analyze_with_filters : string -> pyval -> W -> exc pydict * W.

Local Abbreviation step_of := (step W processor_analyze processor_analyze_with_filters).
Local Abbreviation run_of := (run W processor_analyze processor_analyze_with_filters).
Local Abbreviation observed :=
  (observed_from processor_analyze processor_analyze_with_filters).

(** The state after the five statements of the crash. *)
Lemma crash_state w before s i file_path user_filters :
  run_of (initial_system W w) before = Some s ->
  sys_caller W s = CallerIdle ->
  sys_workers W s !! i = Some AtLoopHead ->
  queue (sys_queue W s) = [] ->
  entry_of W s (PyPath.stem file_path) = None ->
  exists s',
    run_of s [CallAddTask file_path user_filters; WorkerGet i; WorkerMark i;
              CallRecord; CallStart]
    = Some s' /\
    blocked s' s' /\
    entry_of W s' (PyPath.stem file_path) = Some queued_entry.
Proof.
  intros Hrun Hc Hi Hq Hnew.
  destruct (live_worker_flag W processor_analyze processor_analyze_with_filters
              w before s i AtLoopHead Hrun Hi eq_refl) as (Hone & Hflag).
  destruct s as [[q res flag] w0 c ws]. unfold entry_of in Hnew.
  simpl in Hc, Hi, Hone, Hflag, Hq, Hnew. subst c flag q.
  pose proof (live_workers_insert ws i AtLoopHead
                (Dequeued (mk_task (PyPath.stem file_path) file_path user_filters)) Hi)
    as Hins1. simpl in Hins1.
  assert (Hi1 : <[i := Dequeued (mk_task (PyPath.stem file_path) file_path user_filters)]> ws
                !! i
                = Some (Dequeued (mk_task (PyPath.stem file_path) file_path user_filters))).
  { apply list_lookup_insert_eq. apply lookup_lt_is_Some. eauto. }
  pose proof (live_workers_insert _ i _ Crashed Hi1) as Hins2. simpl in Hins2.
  eexists. split.
  { simpl. rewrite Hi. simpl. rewrite Hi1. unfold mark_processing. simpl. rewrite Hnew.
    simpl. reflexivity. }
  split.
  - split; [reflexivity|]. split; [simpl; lia|]. intros id e He. now left.
  - unfold entry_of. simpl. apply lookup_insert_eq.
Qed.

(** In a blocked system an entry that is queued stays so. *)
Lemma blocked_stays_queued s' later s'' id :
  blocked s' s' ->
  entry_of W s' id = Some queued_entry ->
  run_of s' later = Some s'' ->
  get_result id (sys_queue W s'') = queued_entry.
Proof.
  intros Hb Hid Hlater.
  assert (Hb' : blocked s' s'').
  { apply (run_preserves W processor_analyze processor_analyze_with_filters
             (blocked s')
             (step_blocked W processor_analyze processor_analyze_with_filters s')
             later s' s''); assumption. }
  assert (Hkeep : is_Some (entry_of W s'' id)).
  { apply (run_preserves W processor_analyze processor_analyze_with_filters
             (fun s1 => is_Some (entry_of W s1 id))
             (fun s1 l s2 H0 H1 =>
                step_keeps_entries W processor_analyze processor_analyze_with_filters
                  s1 l s2 id H1 H0) later s' s''); [eauto | exact Hlater]. }
  destruct Hkeep as [e He]. destruct Hb' as (_ & _ & Hent).
  unfold get_result. fold (entry_of W s'' id). rewrite He. simpl.
  destruct (Hent _ _ He) as [H|H]; [congruence | exact H].
Qed.

(** X25. After the crash of X16 the collection loop does not end:
    whatever runs later and however often the tasks are polled, the file
    of the task the worker died on stays [queued] in [processing_files],
    and the test of the batch never succeeds. *)
Theorem collection_hangs_after_crash
    (w : W) (before : list label) (s : System W) (i : nat)
    (file_path : string) (user_filters : pyval) :
  run_of (initial_system W w) before = Some s ->
  sys_caller W s = CallerIdle ->
  sys_workers W s !! i = Some AtLoopHead ->
  queue (sys_queue W s) = [] ->
  entry_of W s (PyPath.stem file_path) = None ->
  exists s',
    run_of s [CallAddTask file_path user_filters; WorkerGet i; WorkerMark i;
              CallRecord; CallStart]
    = Some s' /\
    forall (task_ids : list string) (session session' : Session)
           (polls : list (string * entry)) (f : file_state),
      In (PyPath.stem file_path) task_ids ->
      processing_files session !! PyPath.stem file_path = Some f ->
      fs_status f = FileQueued ->
      Forall (observed (fun _ => true) s') polls ->
      collect_all polls session = Some session' ->
      batch_complete task_ids session' <> Some true.
Proof.
  intros Hrun Hc Hi Hq Hnew.
  destruct (crash_state w before s i file_path user_filters Hrun Hc Hi Hq Hnew)
    as (s' & Hrun' & Hb & Hid).
  exists s'. split; [exact Hrun'|].
  intros task_ids session session' polls f Hin Hf Hfq Hobs Hcoll.
  apply (batch_never_complete polls task_ids session session' _ f Hin Hf Hfq); [|exact Hcoll].
  intros result Hr Hterm. rewrite List.Forall_forall in Hobs.
  destruct (Hobs _ Hr) as (later & s'' & _ & Hlater & Hres). simpl in Hres.
  rewrite (blocked_stays_queued s' later s'' _ Hb Hid Hlater) in Hres.
  subst result. destruct Hterm as [H|H]; discriminate H.
Qed.

(** The state after an [add_task] overtaken by the exit of the worker. *)
Lemma stranded_state w before s i file_path user_filters :
  run_of (initial_system W w) before = Some s ->
  sys_caller W s = CallerIdle ->
  sys_workers W s !! i = Some Leaving ->
  exists s',
    run_of s [CallAddTask file_path user_filters; CallRecord; CallStart; WorkerExit i]
    = Some s' /\
    entry_of W s' (PyPath.stem file_path) = Some queued_entry /\
    sys_caller W s' = CallerIdle /\
    live_workers (sys_workers W s') = 0%nat.
Proof.
  intros Hrun Hc Hi.
  destruct (live_worker_flag W processor_analyze processor_analyze_with_filters
              w before s i Leaving Hrun Hi eq_refl) as (Hone & Hflag).
  destruct s as [[q res flag] w0 c ws]. simpl in Hc, Hi, Hone, Hflag. subst c flag.
  pose proof (live_workers_insert ws i Leaving Exited Hi) as Hins. simpl in Hins.
  eexists. split.
  { simpl. unfold start_processing. simpl. rewrite Hi. reflexivity. }
  simpl. split; [|split; [reflexivity | lia]].
  unfold entry_of. simpl. apply lookup_insert_eq.
Qed.

(** With the caller idle and no worker alive, a schedule without
    [add_task] is the empty one. *)
Lemma idle_system_stays s later s' :
  sys_caller W s = CallerIdle ->
  live_workers (sys_workers W s) = 0%nat ->
  forallb (fun l => negb (is_add_task l)) later = true ->
  run_of s later = Some s' ->
  s' = s.
Proof.
  intros Hc Hz Hquiet Hrun. destruct later as [|l rest]; simpl in Hrun.
  - now injection Hrun as <-.
  - simpl in Hquiet. apply andb_true_iff in Hquiet. destruct Hquiet as [Hl _].
    destruct (step_of s l) as [s1|] eqn:Hstep; [|discriminate].
    exfalso. destruct l as [p f| | | | | | |]; try discriminate Hl.
    1,2: destruct s as [q w0 c ws]; simpl in Hc, Hstep; subst c; discriminate Hstep.
    all: rewrite (no_worker_no_step W processor_analyze processor_analyze_with_filters)
           in Hstep by (assumption || reflexivity); discriminate Hstep.
Qed.

(** X26. After the race of X15 the collection loop does not end
    either, as long as nothing calls [add_task] (the loop itself does
    not): the task left behind stays [queued], and the test of the batch
    never succeeds. *)
Theorem collection_hangs_on_stranded_task
    (w : W) (before : list label) (s : System W) (i : nat)
    (file_path : string) (user_filters : pyval) :
  run_of (initial_system W w) before = Some s ->
  sys_caller W s = CallerIdle ->
  sys_workers W s !! i = Some Leaving ->
  exists s',
    run_of s [CallAddTask file_path user_filters; CallRecord; CallStart; WorkerExit i]
    = Some s' /\
    forall (task_ids : list string) (session session' : Session)
           (polls : list (string * entry)) (f : file_state),
      In (PyPath.stem file_path) task_ids ->
      processing_files session !! PyPath.stem file_path = Some f ->
      fs_status f = FileQueued ->
      Forall (observed (fun l => negb (is_add_task l)) s') polls ->
      collect_all polls session = Some session' ->
      batch_complete task_ids session' <> Some true.
Proof.
  intros Hrun Hc Hi.
  destruct (stranded_state w before s i file_path user_filters Hrun Hc Hi)
    as (s' & Hrun' & Hid & Hidle & Hz).
  exists s'. split; [exact Hrun'|].
  intros task_ids session session' polls f Hin Hf Hfq Hobs Hcoll.
  apply (batch_never_complete polls task_ids session session' _ f Hin Hf Hfq); [|exact Hcoll].
  intros result Hr Hterm. rewrite List.Forall_forall in Hobs.
  destruct (Hobs _ Hr) as (later & s'' & Hquiet & Hlater & Hres). simpl in Hres.
  rewrite (idle_system_stays s' later s'' Hidle Hz Hquiet Hlater) in Hres.
  unfold get_result in Hres. fold (entry_of W s' (PyPath.stem file_path)) in Hres.
  rewrite Hid in Hres. subst result. destruct Hterm as [H|H]; discriminate H.
Qed.

End HangFacts.

Lemma collection_hangs_after_crash_witness :
  exists s,
    Cases.run_from_start Cases.first_done = Some s /\
    exists s',
      run World Demo.analyze Demo.analyze_with_filters s
        [CallAddTask "uploads/grace.pdf" PNone; WorkerGet 0; WorkerMark 0;
         CallRecord; CallStart]
      = Some s' /\
      forall session',
        collect_all [("grace", get_result "grace" (sys_queue World s'))] Cases.grace_session
        = Some session' ->
        batch_complete ["grace"] session' <> Some true.
Proof.
  eexists. split; [vm_compute; reflexivity|].
  match goal with
  | |- exists s', run _ _ _ ?s _ = _ /\ _ =>
      destruct (collection_hangs_after_crash World Demo.analyze Demo.analyze_with_filters
                  initial_world Cases.first_done s 0 "uploads/grace.pdf" PNone)
        as (s' & Hrun & Hhang);
      [vm_compute; reflexivity | reflexivity | reflexivity | reflexivity
       | vm_compute; reflexivity |]
  end.
  exists s'. split; [exact Hrun|].
  intros session' Hcoll.
  apply (Hhang ["grace"] Cases.grace_session session'
           [("grace", get_result "grace" (sys_queue World s'))]
           {| fs_path := "uploads/grace.pdf"; fs_name := "grace.pdf";
              fs_status := FileQueued; fs_error := None |}).
  - now left.
  - vm_compute. reflexivity.
  - reflexivity.
  - repeat constructor. exists [], s'. repeat split; reflexivity.
  - exact Hcoll.
Defined.

Lemma collection_hangs_on_stranded_task_witness :
  exists s,
    Cases.run_from_start (Cases.first_done ++ [WorkerLeave 0]) = Some s /\
    exists s',
      run World Demo.analyze Demo.analyze_with_filters s
        [CallAddTask "uploads/grace.pdf" PNone; CallRecord; CallStart; WorkerExit 0]
      = Some s' /\
      forall session',
        collect_all [("grace", get_result "grace" (sys_queue World s'))] Cases.grace_session
        = Some session' ->
        batch_complete ["grace"] session' <> Some true.
Proof.
  eexists. split; [vm_compute; reflexivity|].
  match goal with
  | |- exists s', run _ _ _ ?s _ = _ /\ _ =>
      destruct (collection_hangs_on_stranded_task World Demo.analyze
                  Demo.analyze_with_filters initial_world
                  (Cases.first_done ++ [WorkerLeave 0]) s 0 "uploads/grace.pdf" PNone)
        as (s' & Hrun & Hhang);
      [vm_compute; reflexivity | reflexivity | reflexivity |]
  end.
  exists s'. split; [exact Hrun|].
  intros session' Hcoll.
  apply (Hhang ["grace"] Cases.grace_session session'
           [("grace", get_result "grace" (sys_queue World s'))]
           {| fs_path := "uploads/grace.pdf"; fs_name := "grace.pdf";
              fs_status := FileQueued; fs_error := None |}).
  - now left.
  - vm_compute. reflexivity.
  - reflexivity.
  - repeat constructor. exists [], s'. repeat split; reflexivity.
  - exact Hcoll.
Defined.
